(** * whisper-indexer: the block-indexing pipeline

    A shallow embedding of the indexer's storage contract (db.ts), its
    event parser (parser.ts) and its polling loop (lake.ts), and the
    properties the specification states about them.  The repository holds
    two revisions of lake.ts: the one with catch-up polling is [Lake], the
    one with a single poll interval is [LakeSrc].

    The read side follows: the message query and the profile search of
    db.ts and the routes of index.ts that serve them, with properties of
    whole runs of the loop, of sequences of writes, and of the way from a
    block to a served row.

    Conventions.
    - JavaScript numbers that this program handles are block heights, key
      versions and nanosecond timestamps: integers, modelled in [Z].  [NaN],
      which [parseInt] can return, is the extra constructor of [number].
      A block height is a safe integer (below 2^53), which a JavaScript
      number holds exactly and [String] writes with all its digits.  A
      timestamp is not: it is written as [String] writes the double, by
      [JS.Number_toString].
    - JavaScript strings are modelled by [string]; a character of the model
      stands for one character of the program's string.
    - A function that may raise returns a [completion]; state is passed
      explicitly; effects that the environment observes (requests, sleeps)
      are collected in a trace. *)

From Stdlib Require Import ZArith String Ascii Lia.
From stdpp Require Import base tactics option list gmap strings pretty
  sorting.

Set Warnings "-register-all".

Local Open Scope string_scope.
Local Open Scope list_scope.
Local Open Scope Z_scope.

(** ** JavaScript values and completions *)

(** The outcome of evaluating a call: a value, or a raised exception (the
    exception carries its message). *)
Inductive completion (A : Type) : Type :=
  | Normal (a : A)
  | Throw (err : string).
Arguments Normal {A} a.
Arguments Throw {A} err.

(** What [JSON.parse] produces.  An object keeps its members in source order;
    a member that occurs twice is read at its last occurrence. *)
Inductive json : Type :=
  | JNull
  | JBool (b : bool)
  | JNum (n : Z)
  | JStr (s : string)
  | JArr (items : list json)
  | JObj (members : list (string * json)).

(** A JavaScript value read from parsed JSON: [None] is [undefined]. *)
Abbreviation jsval := (option json).

(** The result of [parseInt]. *)
Inductive number : Type :=
  | Num (z : Z)
  | NaN.

Module JS.

(** ToBoolean on a parsed value. *)
Definition truthy (v : json) : bool :=
  match v with
  | JNull => false
  | JBool b => b
  | JNum n => negb (n =? 0)
  | JStr s => negb (String.eqb s EmptyString)
  | JArr _ | JObj _ => true
  end.

Definition truthy_val (v : jsval) : bool :=
  match v with
  | Some j => truthy j
  | None => false
  end.

(** Member lookup in an object literal as parsed: the last occurrence of a
    key is the one the object holds. *)
Fixpoint member (k : string) (ms : list (string * json)) : jsval :=
  match ms with
  | [] => None
  | (k', v) :: rest =>
      match member k rest with
      | Some v' => Some v'
      | None => if String.eqb k' k then Some v else None
      end
  end.

(** [v.k] for one of the field names this program reads.  Reading a
    property of [null] raises a TypeError; primitives and arrays have none
    of these names, so the read gives [undefined]. *)
Definition prop (v : json) (k : string) : completion jsval :=
  match v with
  | JNull => Throw "TypeError: Cannot read properties of null"
  | JObj ms => Normal (member k ms)
  | _ => Normal None
  end.

(** [x === 'lit'] for a string literal. *)
Definition strict_eq_str (v : jsval) (lit : string) : bool :=
  match v with
  | Some (JStr s) => String.eqb s lit
  | _ => false
  end.

(** [Number.isSafeInteger(n)]: the integers below 2^53 in absolute value,
    each of which a JavaScript number holds exactly. *)
Definition safe_integer (n : Z) : Prop := - 2 ^ 53 < n < 2 ^ 53.

(** [String(n)] on a safe integer, which a block height is: all the digits
    of its decimal numeral. *)
Definition String_ (n : Z) : string := pretty n.

(** The number an integer denotes: the double nearest to it, with 53
    significant bits and a tie going to the even one. *)
Definition to_double (n : Z) : Z :=
  let a := Z.abs n in
  let shift := Z.log2 a - 52 in
  if shift <=? 0 then n
  else
    let q := Z.shiftr a shift in
    let r := a - Z.shiftl q shift in
    let half := Z.shiftl 1 (shift - 1) in
    let q' :=
      if r <? half then q
      else if half <? r then q + 1
      else if Z.even q then q else q + 1 in
    Z.sgn n * Z.shiftl q' shift.

(** The decimal with the fewest significant digits that denotes the
    double [v], looked for among the multiples of [10 ^ z], then of
    [10 ^ (z - 1)], and so on: of two that do, the one nearer to [v], and
    of two as near, the one whose last digit kept is even. *)
Fixpoint shortest (z : nat) (v : Z) : Z :=
  let e := 10 ^ Z.of_nat z in
  let lo := v / e * e in
  let hi := lo + e in
  let ok_lo := to_double lo =? v in
  let ok_hi := to_double hi =? v in
  if ok_lo && ok_hi then
    if v - lo <? hi - v then lo
    else if hi - v <? v - lo then hi
    else if Z.even (lo / e) then lo else hi
  else if ok_lo then lo
  else if ok_hi then hi
  else
    match z with
    | O => v
    | S z' => shortest z' v
    end.

Fixpoint strip_zeros (s : string) : string :=
  match s with
  | EmptyString => EmptyString
  | String c rest =>
      match strip_zeros rest with
      | EmptyString =>
          if Ascii.eqb c "0" then EmptyString else String c EmptyString
      | r => String c r
      end
  end.

(** The exponent form of a numeral of more than 21 digits: its digits up
    to the last one that is not 0, a point after the first, and the
    exponent. *)
Definition exponent_form (numeral : string) : string :=
  let e := pretty (Z.of_nat (String.length numeral) - 1) in
  match strip_zeros numeral with
  | String d EmptyString => String d ("e+" +:+ e)
  | String d rest => String d ("." +:+ rest +:+ "e+" +:+ e)
  | EmptyString => numeral
  end.

(** [String(n)] on the number an integer denotes, whatever its size: the
    digits of the shortest decimal that denotes the same double, written
    out below 10^21 and in exponent form from there.  A timestamp in
    nanoseconds lies above 2^53, where this is not the numeral of the
    integer: [String(1700000000123456768)] is ['1700000000123456800']. *)
Definition Number_toString (n : Z) : string :=
  let v := Z.abs (to_double n) in
  let sign := if n <? 0 then "-" else EmptyString in
  if v =? 0 then "0"
  else if 2 ^ 1024 <=? v then sign +:+ "Infinity"
  else
    let c := shortest (String.length (pretty v) - 1) v in
    if c <? 10 ^ 21 then sign +:+ pretty c
    else sign +:+ exponent_form (pretty c).

Definition is_digit (c : ascii) : bool :=
  let n := Z.of_N (N_of_ascii c) in (48 <=? n) && (n <=? 57).

Definition digit_value (c : ascii) : Z := Z.of_N (N_of_ascii c) - 48.

(** StrWhiteSpaceChar, as far as one-byte characters go. *)
Definition is_space (c : ascii) : bool :=
  let n := Z.of_N (N_of_ascii c) in
  (n =? 32) || ((9 <=? n) && (n <=? 13)).

Fixpoint skip_space (s : string) : string :=
  match s with
  | String c rest => if is_space c then skip_space rest else s
  | EmptyString => s
  end.

(** The value of the longest prefix of decimal digits, continuing from
    [acc]. *)
Fixpoint digits (acc : Z) (s : string) : Z :=
  match s with
  | String c rest =>
      if is_digit c then digits (10 * acc + digit_value c) rest else acc
  | EmptyString => acc
  end.

Definition starts_with_digit (s : string) : bool :=
  match s with
  | String c _ => is_digit c
  | EmptyString => false
  end.

(** [parseInt(s, 10)]: leading white space, an optional sign, then the
    longest run of digits; [NaN] when there is no digit. *)
Definition parseInt (s : string) : number :=
  let t := skip_space s in
  let '(sign, u) :=
    match t with
    | String "-" rest => (-1, rest)
    | String "+" rest => (1, rest)
    | _ => (1, t)
    end in
  if starts_with_digit u then Num (sign * digits 0 u) else NaN.

(** [s.slice(n)] *)
Fixpoint slice (n : nat) (s : string) : string :=
  match n, s with
  | S n', String _ rest => slice n' rest
  | _, _ => s
  end.

(** [s.startsWith(p)] *)
Definition startsWith (s p : string) : bool := String.prefix p s.

(** [a || b] on strings: the empty string is falsy. *)
Definition or_else (a b : string) : string :=
  if String.eqb a EmptyString then b else a.

(** [process.env.X || dflt] *)
Definition env_or (x : option string) (dflt : string) : string :=
  match x with
  | Some v => or_else v dflt
  | None => dflt
  end.

(** [n > 0]; every comparison with [NaN] is false. *)
Definition gt0 (n : number) : bool :=
  match n with
  | Num z => 0 <? z
  | NaN => false
  end.

End JS.

(** ** db.ts: the storage contract (src/unnamed/part_000) *)

Module Db.

(** [Omit<DbMessage, 'id'>]: the row handed to [saveMessage].  The [id]
    column is assigned by the storage engine and read by no code of the
    pipeline; the table is kept as the inserted rows in insertion order. *)
Record DbMessage : Type := {
  tx_hash : string;
  block_height : Z;
  timestamp_ns : string;
  event_type : string;
  sender : string;
  recipient : string;
  encrypted_body : string;
  nonce : string;
  recipient_key_version : Z;
  reply_to : option string;
  amount : option string
}.

Record DbProfile : Type := {
  account_id : string;
  x25519_pubkey : string;
  key_version : Z;
  display_name : option string;
  registered_at : string
}.

(** The three tables: [messages], [profiles] (primary key [account_id]) and
    [sync_state] (primary key [key]). *)
Record t : Type := {
  messages : list DbMessage;
  profiles : gmap string DbProfile;
  sync_state : gmap string string
}.

Definition empty : t :=
  {| messages := []; profiles := ∅; sync_state := ∅ |}.

(** UNIQUE(tx_hash, event_type, sender, recipient) *)
Definition msg_key (m : DbMessage) : string * string * string * string :=
  (tx_hash m, event_type m, sender m, recipient m).

Definition keys (db : t) : list (string * string * string * string) :=
  msg_key <$> messages db.

(** INSERT OR IGNORE INTO messages: a row whose key is already present is
    dropped, otherwise the row is appended. *)
Definition insertMessage (m : DbMessage) (db : t) : t :=
  if decide (msg_key m ∈ keys db) then db
  else {| messages := messages db ++ [m];
          profiles := profiles db;
          sync_state := sync_state db |}.

(** INSERT INTO profiles ... ON CONFLICT(account_id) DO UPDATE SET
    x25519_pubkey, key_version, display_name: the existing row keeps its
    [registered_at]. *)
Definition upsertProfile (p : DbProfile) (db : t) : t :=
  let row :=
    match profiles db !! account_id p with
    | Some old =>
        {| account_id := account_id old;
           x25519_pubkey := x25519_pubkey p;
           key_version := key_version p;
           display_name := display_name p;
           registered_at := registered_at old |}
    | None => p
    end in
  {| messages := messages db;
     profiles := <[account_id p := row]> (profiles db);
     sync_state := sync_state db |}.

(** SELECT value FROM sync_state WHERE key = ? *)
Definition getSyncState (k : string) (db : t) : option string :=
  sync_state db !! k.

(** INSERT OR REPLACE INTO sync_state (key, value) *)
Definition setSyncState (k v : string) (db : t) : t :=
  {| messages := messages db;
     profiles := profiles db;
     sync_state := <[k := v]> (sync_state db) |}.

Definition getLastBlockHeight (db : t) : number :=
  match getSyncState "last_block_height" db with
  | Some value => JS.parseInt value
  | None => Num 0
  end.

(** [String(height)] is the numeral of the height: heights are safe
    integers. *)
Definition setLastBlockHeight (height : Z) (db : t) : t :=
  setSyncState "last_block_height" (JS.String_ height) db.

Definition saveMessage (msg : DbMessage) (db : t) : t := insertMessage msg db.

Definition saveProfile (profile : DbProfile) (db : t) : t :=
  upsertProfile profile db.

(** SELECT * FROM profiles WHERE account_id = ? *)
Definition getProfile (accountId : string) (db : t) : option DbProfile :=
  profiles db !! accountId.

(** The rows of [messages] that carry a given dedup key. *)
Definition rows_with_key (k : string * string * string * string) (db : t)
  : list DbMessage :=
  filter (λ m, msg_key m = k) (messages db).

End Db.

(** ** parser.ts: the block structure and the rows handed to the sink
    (src/src/parser.ts; the row types are those of src/unnamed/part_001) *)

Module Block.

(** [NearBlock] and its parts, as parser.ts declares them.  A
    [Record<string, unknown>] is kept as the parsed object. *)
Record Header : Type := {
  height : Z;
  timestamp : Z;
  hash : string
}.

Record Outcome : Type := {
  executor_id : string;
  logs : list string;
  receipt_ids : list string;
  status : list (string * json)
}.

Record ExecutionOutcome : Type := {
  id : string;
  outcome : Outcome
}.

Record ReceiptExecutionOutcome : Type := {
  execution_outcome : ExecutionOutcome;
  receipt : list (string * json);
  tx_hash : string
}.

Record Shard : Type := {
  shard_id : Z;
  chunk : option (list (string * json));
  receipt_execution_outcomes : list ReceiptExecutionOutcome;
  state_changes : option (list json)
}.

Record NearBlock : Type := {
  header : Header;
  shards : list Shard
}.

(** Parsed data seen at these types: [as_NearBlock] gives the block when
    the data has the shape the interface declares, member by member. *)
Definition field (j : json) (k : string) : jsval :=
  match j with
  | JObj ms => JS.member k ms
  | _ => None
  end.

Definition as_number (v : jsval) : option Z :=
  match v with
  | Some (JNum n) => Some n
  | _ => None
  end.

Definition as_string (v : jsval) : option string :=
  match v with
  | Some (JStr s) => Some s
  | _ => None
  end.

Definition as_record (v : jsval) : option (list (string * json)) :=
  match v with
  | Some (JObj ms) => Some ms
  | _ => None
  end.

Definition as_array {A : Type} (f : json → option A) (v : jsval)
  : option (list A) :=
  match v with
  | Some (JArr items) => mapM f items
  | _ => None
  end.

(** An optional member: absent, or present at its type.  A member that
    is [null] is taken as absent: the block service writes [null] where it
    has nothing, and the members declared optional are not read. *)
Definition as_optional {A : Type} (f : jsval → option A) (v : jsval)
  : option (option A) :=
  match v with
  | None | Some JNull => Some None
  | Some _ => Some <$> f v
  end.

(** [tx_hash], which is read in [reo.tx_hash || reo.execution_outcome.id]
    and nowhere else: an outcome without the member, or with [null] for
    it, is falsy there like the empty string, and is seen as that. *)
Definition as_tx_hash (v : jsval) : option string :=
  match v with
  | None | Some JNull => Some EmptyString
  | Some (JStr s) => Some s
  | Some _ => None
  end.

Definition as_Header (j : json) : option Header :=
  h ← as_number (field j "height");
  t ← as_number (field j "timestamp");
  x ← as_string (field j "hash");
  Some {| height := h; timestamp := t; hash := x |}.

Definition as_Outcome (j : json) : option Outcome :=
  e ← as_string (field j "executor_id");
  l ← as_array (λ x, as_string (Some x)) (field j "logs");
  r ← as_array (λ x, as_string (Some x)) (field j "receipt_ids");
  s ← as_record (field j "status");
  Some {| executor_id := e; logs := l; receipt_ids := r; status := s |}.

Definition as_ExecutionOutcome (j : json) : option ExecutionOutcome :=
  i ← as_string (field j "id");
  o ← field j "outcome" ≫= as_Outcome;
  Some {| id := i; outcome := o |}.

Definition as_ReceiptExecutionOutcome (j : json)
  : option ReceiptExecutionOutcome :=
  eo ← field j "execution_outcome" ≫= as_ExecutionOutcome;
  r ← as_record (field j "receipt");
  t ← as_tx_hash (field j "tx_hash");
  Some {| execution_outcome := eo; receipt := r; tx_hash := t |}.

(** [receipt_execution_outcomes], which is read through [?.length]: a
    shard without the member, or with [null] for it, is passed over like
    one with an empty array. *)
Definition as_outcomes (v : jsval) : option (list ReceiptExecutionOutcome) :=
  match v with
  | None | Some JNull => Some []
  | Some _ => as_array as_ReceiptExecutionOutcome v
  end.

Definition as_Shard (j : json) : option Shard :=
  i ← as_number (field j "shard_id");
  c ← as_optional as_record (field j "chunk");
  r ← as_outcomes (field j "receipt_execution_outcomes");
  s ← as_optional (as_array Some) (field j "state_changes");
  Some {| shard_id := i; chunk := c;
          receipt_execution_outcomes := r; state_changes := s |}.

Definition as_NearBlock (j : json) : option NearBlock :=
  b ← field j "block";
  hd ← field b "header";
  h ← as_Header hd;
  s ← as_array as_Shard (field j "shards");
  Some {| header := h; shards := s |}.

End Block.

Module Sink.

(** The object literal [parseBlock] passes to [saveMessage]: the fields
    taken from the block are typed, the fields read off the event item are
    whatever the item holds. *)
Record MessageArgs : Type := {
  tx_hash : string;
  block_height : Z;
  timestamp_ns : string;
  event_type : string;
  sender : jsval;
  recipient : jsval;
  encrypted_body : jsval;
  nonce : jsval;
  recipient_key_version : jsval;
  reply_to : json;
  amount : jsval
}.

(** The object literal [parseBlock] passes to [saveProfile]. *)
Record ProfileArgs : Type := {
  account_id : jsval;
  x25519_pubkey : jsval;
  key_version : jsval;
  display_name : json;
  registered_at : string
}.

Definition as_string (v : jsval) : option string :=
  match v with
  | Some (JStr s) => Some s
  | _ => None
  end.

Definition as_number (v : jsval) : option Z :=
  match v with
  | Some (JNum n) => Some n
  | _ => None
  end.

(** [string | null] *)
Definition as_nullable_string (v : jsval) : option (option string) :=
  match v with
  | Some JNull => Some None
  | Some (JStr s) => Some (Some s)
  | _ => None
  end.

(** The row, when every field has the type [DbMessage] declares. *)
Definition typed_message (a : MessageArgs) : option Db.DbMessage :=
  s ← as_string (sender a);
  r ← as_string (recipient a);
  body ← as_string (encrypted_body a);
  n ← as_string (nonce a);
  kv ← as_number (recipient_key_version a);
  rt ← as_nullable_string (Some (reply_to a));
  amt ← as_nullable_string (amount a);
  Some {| Db.tx_hash := tx_hash a;
          Db.block_height := block_height a;
          Db.timestamp_ns := timestamp_ns a;
          Db.event_type := event_type a;
          Db.sender := s;
          Db.recipient := r;
          Db.encrypted_body := body;
          Db.nonce := n;
          Db.recipient_key_version := kv;
          Db.reply_to := rt;
          Db.amount := amt |}.

(** The row, when every field has the type [DbProfile] declares. *)
Definition typed_profile (a : ProfileArgs) : option Db.DbProfile :=
  acc ← as_string (account_id a);
  pk ← as_string (x25519_pubkey a);
  kv ← as_number (key_version a);
  dn ← as_nullable_string (Some (display_name a));
  Some {| Db.account_id := acc;
          Db.x25519_pubkey := pk;
          Db.key_version := kv;
          Db.display_name := dn;
          Db.registered_at := registered_at a |}.

End Sink.

(** ** What the pipeline takes from its host

    [JSON.parse], the environment variables, and the behaviour of the SQLite
    driver on values that do not have the type the TypeScript declarations
    give them (the casts in parser.ts and lake.ts are unchecked).  The store
    holds well-typed rows only, so what the driver does with an ill-typed
    row, and what [parseBlock] does on data that is not a [NearBlock], are
    left open: each may raise or change the tables it can reach. *)
Class Host : Type := {
  (** [JSON.parse]; [None] is a SyntaxError. *)
  JSON_parse : string → option json;
  (** [process.env.CONTRACT_ID], [process.env.START_BLOCK] *)
  env_CONTRACT_ID : option string;
  env_START_BLOCK : option string;
  (** [insertMessage.run] on a row that is not a [DbMessage] *)
  ill_typed_message :
    Sink.MessageArgs → list Db.DbMessage → completion (list Db.DbMessage);
  (** [upsertProfile.run] on a row that is not a [DbProfile] *)
  ill_typed_profile :
    Sink.ProfileArgs → gmap string Db.DbProfile →
    completion (gmap string Db.DbProfile);
  (** [parseBlock] on data that is not a [NearBlock] *)
  ill_shaped_block :
    json → list Db.DbMessage * gmap string Db.DbProfile →
    list Db.DbMessage * gmap string Db.DbProfile * completion Z
}.

(** Sequencing of calls that may raise. *)
Definition cbind {A B : Type} (m : completion A) (k : A → completion B)
  : completion B :=
  match m with
  | Normal a => k a
  | Throw e => Throw e
  end.

Notation "'let*' x ':=' m 'in' k" := (cbind m (fun x => k))
  (at level 10, x pattern, m at level 100, k at level 200).

Module Parser.
Section parser.

Context `{Host}.

Definition CONTRACT_ID : string :=
  JS.env_or env_CONTRACT_ID "whisper.kaizap.near".

Definition marker : string := "EVENT_JSON:".

(** [saveMessage] as parser.ts calls it, through an unchecked cast: the
    insert of db.ts on a row that has the declared type. *)
Definition saveMessage (a : Sink.MessageArgs) (db : Db.t)
  : completion Db.t :=
  match Sink.typed_message a with
  | Some row => Normal (Db.saveMessage row db)
  | None =>
      let* ms := ill_typed_message a (Db.messages db) in
      Normal {| Db.messages := ms;
                Db.profiles := Db.profiles db;
                Db.sync_state := Db.sync_state db |}
  end.

(** [saveProfile] as parser.ts calls it. *)
Definition saveProfile (a : Sink.ProfileArgs) (db : Db.t)
  : completion Db.t :=
  match Sink.typed_profile a with
  | Some row => Normal (Db.saveProfile row db)
  | None =>
      let* ps := ill_typed_profile a (Db.profiles db) in
      Normal {| Db.messages := Db.messages db;
                Db.profiles := ps;
                Db.sync_state := Db.sync_state db |}
  end.

(** [x ?? null] *)
Definition or_null (v : jsval) : json :=
  match v with
  | Some j => j
  | None => JNull
  end.

(** The items a [for ... of] loop visits: the elements of an array, the
    characters of a string; anything else is not iterable. *)
Definition iterate (v : jsval) : completion (list json) :=
  match v with
  | Some (JArr items) => Normal items
  | Some (JStr s) =>
      Normal ((λ c, JStr (String c EmptyString)) <$> list_ascii_of_string s)
  | _ => Throw "TypeError: event.data is not iterable"
  end.

(** The row literal of the two message cases.  [with_amount] tells the
    [message_sent_with_payment] case, which reads [d.amount], from the
    [message_sent] case, which stores [null]. *)
Definition message_args (txHash : string) (blockHeight : Z)
    (timestampNs : string) (tag : string) (with_amount : bool) (d : json)
  : completion Sink.MessageArgs :=
  let* from := JS.prop d "from" in
  let* to := JS.prop d "to" in
  let* body := JS.prop d "encrypted_body" in
  let* nonce := JS.prop d "nonce" in
  let* kv := JS.prop d "recipient_key_version" in
  let* rt := JS.prop d "reply_to" in
  let* amt := if with_amount then JS.prop d "amount"
              else Normal (Some JNull) in
  Normal {| Sink.tx_hash := txHash;
            Sink.block_height := blockHeight;
            Sink.timestamp_ns := timestampNs;
            Sink.event_type := tag;
            Sink.sender := from;
            Sink.recipient := to;
            Sink.encrypted_body := body;
            Sink.nonce := nonce;
            Sink.recipient_key_version := kv;
            Sink.reply_to := or_null rt;
            Sink.amount := amt |}.

(** The row literal of the [key_registered] case. *)
Definition profile_args (timestampNs : string) (d : json)
  : completion Sink.ProfileArgs :=
  let* acc := JS.prop d "account_id" in
  let* pk := JS.prop d "x25519_pubkey" in
  let* kv := JS.prop d "key_version" in
  let* dn := JS.prop d "display_name" in
  Normal {| Sink.account_id := acc;
            Sink.x25519_pubkey := pk;
            Sink.key_version := kv;
            Sink.display_name := or_null dn;
            Sink.registered_at := timestampNs |}.

(** The state of the traversal: the store and [eventsFound]. *)
Definition state : Type := Db.t * Z.

(** The body of [for (const item of event.data)]: the [switch] on
    [event.event].  A tag that matches no case does nothing. *)
Definition handle_item (event : json) (txHash : string) (blockHeight : Z)
    (timestampNs : string) (item : json) (st : state) : completion state :=
  let '(db, eventsFound) := st in
  let* tag := JS.prop event "event" in
  if JS.strict_eq_str tag "message_sent" then
    let* a := message_args txHash blockHeight timestampNs
                "message_sent" false item in
    let* db' := saveMessage a db in
    Normal (db', eventsFound + 1)
  else if JS.strict_eq_str tag "message_sent_with_payment" then
    let* a := message_args txHash blockHeight timestampNs
                "message_sent_with_payment" true item in
    let* db' := saveMessage a db in
    Normal (db', eventsFound + 1)
  else if JS.strict_eq_str tag "key_registered" then
    let* a := profile_args timestampNs item in
    let* db' := saveProfile a db in
    Normal (db', eventsFound + 1)
  else Normal (db, eventsFound).

(** A loop over items whose body may raise: the state reached, and the
    exception that ended the loop early, if any. *)
Fixpoint for_items (body : json → state → completion state)
    (items : list json) (st : state) : state * option string :=
  match items with
  | [] => (st, None)
  | item :: rest =>
      match body item st with
      | Normal st' => for_items body rest st'
      | Throw e => (st, Some e)
      end
  end.

(** The [try] block of one marked log line: the state when the block is
    left, and the exception it is left with, if any. *)
Definition try_event (reo : Block.ReceiptExecutionOutcome)
    (blockHeight : Z) (timestampNs : string) (log : string) (st : state)
  : state * option string :=
  match JSON_parse (JS.slice (String.length marker) log) with
  | None => (st, Some "SyntaxError")
  | Some event =>
      match JS.prop event "standard" with
      | Throw e => (st, Some e)
      | Normal standard =>
          if negb (JS.strict_eq_str standard "whisper") then (st, None)
          else
            let txHash :=
              JS.or_else (Block.tx_hash reo)
                         (Block.id (Block.execution_outcome reo)) in
            match (let* data := JS.prop event "data" in iterate data) with
            | Throw e => (st, Some e)
            | Normal items =>
                for_items (handle_item event txHash blockHeight timestampNs)
                          items st
            end
      end
  end.

(** The body of [for (const log of logs)]: a line without the marker is
    passed over; the [catch] drops whatever the [try] block raised. *)
Definition handle_log (reo : Block.ReceiptExecutionOutcome)
    (blockHeight : Z) (timestampNs : string) (st : state) (log : string)
  : state :=
  if negb (JS.startsWith log marker) then st
  else fst (try_event reo blockHeight timestampNs log st).

(** The body of [for (const reo of shard.receipt_execution_outcomes)]. *)
Definition handle_outcome (blockHeight : Z) (timestampNs : string)
    (st : state) (reo : Block.ReceiptExecutionOutcome) : state :=
  let o := Block.outcome (Block.execution_outcome reo) in
  if negb (String.eqb (Block.executor_id o) CONTRACT_ID) then st
  else
    match Block.logs o with
    | [] => st
    | logs => fold_left (handle_log reo blockHeight timestampNs) logs st
    end.

(** The body of [for (const shard of blockData.shards)]. *)
Definition handle_shard (blockHeight : Z) (timestampNs : string)
    (st : state) (shard : Block.Shard) : state :=
  match Block.receipt_execution_outcomes shard with
  | [] => st
  | reos => fold_left (handle_outcome blockHeight timestampNs) reos st
  end.

Definition parseBlock (blockData : Block.NearBlock) (db : Db.t) : state :=
  let blockHeight := Block.height (Block.header blockData) in
  let timestampNs :=
    JS.Number_toString (Block.timestamp (Block.header blockData)) in
  fold_left (handle_shard blockHeight timestampNs)
            (Block.shards blockData) (db, 0).

(** *** Describing a traversal *)

(** The marked log lines of an outcome of the indexed contract, each with
    its outcome. *)
Definition outcome_lines (reo : Block.ReceiptExecutionOutcome)
  : list (Block.ReceiptExecutionOutcome * string) :=
  let o := Block.outcome (Block.execution_outcome reo) in
  if String.eqb (Block.executor_id o) CONTRACT_ID
  then (λ log, (reo, log))
         <$> filter (λ log, JS.startsWith log marker = true) (Block.logs o)
  else [].

(** The event log lines of a block, in the order of the traversal. *)
Definition event_lines (b : Block.NearBlock)
  : list (Block.ReceiptExecutionOutcome * string) :=
  Block.shards b ≫= λ shard,
    Block.receipt_execution_outcomes shard ≫= outcome_lines.

(** What the traversal does with one event log line. *)
Definition handle_line (blockHeight : Z) (timestampNs : string)
    (st : state) (line : Block.ReceiptExecutionOutcome * string) : state :=
  fst (try_event (fst line) blockHeight timestampNs (snd line) st).

(** The text after the marker is not JSON. *)
Definition malformed (line : Block.ReceiptExecutionOutcome * string)
  : Prop :=
  JSON_parse (JS.slice (String.length marker) (snd line)) = None.

(** A call of the sink. *)
Inductive Stored : Type :=
  | StoreMessage (row : Db.DbMessage)
  | StoreProfile (row : Db.DbProfile).

Definition apply_stored (db : Db.t) (op : Stored) : Db.t :=
  match op with
  | StoreMessage row => Db.saveMessage row db
  | StoreProfile row => Db.saveProfile row db
  end.

(** What identifies the row a sink call writes: the dedup key of a
    message, the account of a profile. *)
Definition stored_id (op : Stored)
  : (string * string * string * string) + string :=
  match op with
  | StoreMessage row => inl (Db.msg_key row)
  | StoreProfile row => inr (Db.account_id row)
  end.

(** No row of the store has the identity of [op]. *)
Definition not_stored (db : Db.t) (op : Stored) : Prop :=
  match op with
  | StoreMessage row => Db.msg_key row ∉ Db.keys db
  | StoreProfile row => Db.profiles db !! Db.account_id row = None
  end.

(** The number of message and profile rows. *)
Definition row_count (db : Db.t) : nat :=
  (length (Db.messages db) + size (Db.profiles db))%nat.

(** The item is an event of one of the three recognized tags whose fields
    have the declared types: [op] is the call of the sink it stands for. *)
Inductive recognized (event : json) (txHash : string) (blockHeight : Z)
    (timestampNs : string) (item : json) : Stored → Prop :=
  | recognized_message_sent (a : Sink.MessageArgs) (row : Db.DbMessage) :
      JS.prop event "event" = Normal (Some (JStr "message_sent")) →
      message_args txHash blockHeight timestampNs "message_sent" false item
      = Normal a →
      Sink.typed_message a = Some row →
      recognized event txHash blockHeight timestampNs item (StoreMessage row)
  | recognized_message_sent_with_payment
      (a : Sink.MessageArgs) (row : Db.DbMessage) :
      JS.prop event "event"
      = Normal (Some (JStr "message_sent_with_payment")) →
      message_args txHash blockHeight timestampNs
        "message_sent_with_payment" true item = Normal a →
      Sink.typed_message a = Some row →
      recognized event txHash blockHeight timestampNs item (StoreMessage row)
  | recognized_key_registered (a : Sink.ProfileArgs) (row : Db.DbProfile) :
      JS.prop event "event" = Normal (Some (JStr "key_registered")) →
      profile_args timestampNs item = Normal a →
      Sink.typed_profile a = Some row →
      recognized event txHash blockHeight timestampNs item (StoreProfile row).

(** The line carries one recognized event: the text after the marker is a
    [whisper] envelope with one item in [data], and the item is
    recognized. *)
Definition line_event (blockHeight : Z) (timestampNs : string)
    (line : Block.ReceiptExecutionOutcome * string) (op : Stored) : Prop :=
  ∃ event item,
    JSON_parse (JS.slice (String.length marker) (snd line)) = Some event
    ∧ JS.prop event "standard" = Normal (Some (JStr "whisper"))
    ∧ JS.prop event "data" = Normal (Some (JArr [item]))
    ∧ recognized event
        (JS.or_else (Block.tx_hash (fst line))
                    (Block.id (Block.execution_outcome (fst line))))
        blockHeight timestampNs item op.

End parser.
End Parser.

(** ** lake.ts: what the loop exchanges with its environment *)

Module Net.

(** The reply to [fetch(url)] followed by reading the body as text:
    [fetch] rejects, or there is a response, whose body may fail to be
    read. *)
Inductive HttpReply : Type :=
  | NetworkError (err : string)
  | Response (status : Z) (text : completion string).

(** The body of [/last_block/final] at the type lake.ts gives it:
    [{ block?: { header: { height: number } }; error?: string }]. *)
Record TipBody : Type := {
  block : option Z;
  error : option string
}.

(** The reply to the tip request: [fetch] or [res.json()] rejects, or
    [res.ok] is false, or there is a body. *)
Inductive TipReply : Type :=
  | TipThrows
  | TipNotOk
  | TipData (data : TipBody).

(** What the environment sees of a run. *)
Inductive Effect : Type :=
  | FetchBlock (height : Z)
  | FetchTip
  | Sleep (ms : Z).

(** The replies the environment gives during one iteration of the loop:
    to the tip request at its top, to the tip request made at the tip, and
    to each attempt at the block, by attempt number; and whether
    [stopIndexing] is called while the iteration is in flight. *)
Record Env : Type := {
  tip_refresh : TipReply;
  tip_idle : TipReply;
  block_reply : nat → HttpReply;
  stop_requested : bool
}.

(** The module variables [running] and [latestKnownHeight], the locals of
    [startIndexing], and the store. *)
Record State : Type := {
  running : bool;
  latestKnownHeight : Z;
  currentHeight : Z;
  totalEvents : Z;
  blocksProcessed : Z;
  skippedBlocks : Z;
  db : Db.t
}.

Definition set_running (b : bool) (s : State) : State :=
  {| running := b;
     latestKnownHeight := latestKnownHeight s;
     currentHeight := currentHeight s;
     totalEvents := totalEvents s;
     blocksProcessed := blocksProcessed s;
     skippedBlocks := skippedBlocks s;
     db := db s |}.

Definition set_latestKnownHeight (h : Z) (s : State) : State :=
  {| running := running s;
     latestKnownHeight := h;
     currentHeight := currentHeight s;
     totalEvents := totalEvents s;
     blocksProcessed := blocksProcessed s;
     skippedBlocks := skippedBlocks s;
     db := db s |}.

Definition set_currentHeight (h : Z) (s : State) : State :=
  {| running := running s;
     latestKnownHeight := latestKnownHeight s;
     currentHeight := h;
     totalEvents := totalEvents s;
     blocksProcessed := blocksProcessed s;
     skippedBlocks := skippedBlocks s;
     db := db s |}.

Definition set_totalEvents (n : Z) (s : State) : State :=
  {| running := running s;
     latestKnownHeight := latestKnownHeight s;
     currentHeight := currentHeight s;
     totalEvents := n;
     blocksProcessed := blocksProcessed s;
     skippedBlocks := skippedBlocks s;
     db := db s |}.

Definition set_blocksProcessed (n : Z) (s : State) : State :=
  {| running := running s;
     latestKnownHeight := latestKnownHeight s;
     currentHeight := currentHeight s;
     totalEvents := totalEvents s;
     blocksProcessed := n;
     skippedBlocks := skippedBlocks s;
     db := db s |}.

Definition set_skippedBlocks (n : Z) (s : State) : State :=
  {| running := running s;
     latestKnownHeight := latestKnownHeight s;
     currentHeight := currentHeight s;
     totalEvents := totalEvents s;
     blocksProcessed := blocksProcessed s;
     skippedBlocks := n;
     db := db s |}.

Definition set_db (d : Db.t) (s : State) : State :=
  {| running := running s;
     latestKnownHeight := latestKnownHeight s;
     currentHeight := currentHeight s;
     totalEvents := totalEvents s;
     blocksProcessed := blocksProcessed s;
     skippedBlocks := skippedBlocks s;
     db := d |}.

(** [setLastBlockHeight(height)] on the store of the state. *)
Definition setLastBlockHeight (height : Z) (s : State) : State :=
  set_db (Db.setLastBlockHeight height (db s)) s.

Definition is_fetch (e : Effect) : bool :=
  match e with
  | FetchBlock _ => true
  | _ => false
  end.

Definition is_null (v : json) : bool :=
  match v with
  | JNull => true
  | _ => false
  end.

(** [opt_string] as a condition: set and not empty. *)
Definition truthy_string (v : option string) : bool :=
  match v with
  | Some s => negb (String.eqb s EmptyString)
  | None => false
  end.

End Net.

Module Loop.
Section loop.

Context `{Host}.

(** [parseBlock(blockData as Parameters<typeof parseBlock>[0])]: the
    parser on data that is a [NearBlock]; on other data, whatever the
    traversal does before it returns or raises. *)
Definition parseBlock (blockData : json) (db : Db.t)
  : Db.t * completion Z :=
  match Block.as_NearBlock blockData with
  | Some b =>
      let '(db', eventsFound) := Parser.parseBlock b db in
      (db', Normal eventsFound)
  | None =>
      let '(ms, ps, r) :=
        ill_shaped_block blockData (Db.messages db, Db.profiles db) in
      ({| Db.messages := ms;
          Db.profiles := ps;
          Db.sync_state := Db.sync_state db |}, r)
  end.

End loop.
End Loop.

(** ** lake.ts, the revision with catch-up polling (src/unnamed/part_002) *)

Module Lake.
Section lake.

Context `{Host}.
Import Net.

Definition POLL_INTERVAL_MS : Z := 350.
Definition CATCHUP_INTERVAL_MS : Z := 50.
Definition IDLE_INTERVAL_MS : Z := 1000.
Definition MAX_RETRIES : nat := 3.
Definition RETRY_BASE_MS : Z := 1000.
Definition CATCHUP_THRESHOLD : Z := 100.

(** [data && data.error] *)
Definition error_set (data : json) : completion bool :=
  if JS.truthy data then
    let* e := JS.prop data "error" in Normal (JS.truthy_val e)
  else Normal false.

Definition fetchBlock (height : Z) (reply : HttpReply)
  : list Effect * completion json :=
  ([FetchBlock height],
   match reply with
   | NetworkError err => Throw err
   | Response status body =>
       if status =? 200 then
         let* text := body in
         if String.eqb text EmptyString || (String.length text <? 2)%nat
         then Normal JNull
         else
           match JSON_parse text with
           | Some data =>
               match error_set data with
               | Normal true => Normal JNull
               | Normal false => Normal data
               | Throw _ => Normal JNull
               end
           | None => Normal JNull
           end
       else Normal JNull
   end).

Definition fetchLatestBlockHeight (reply : TipReply) (s : State)
  : list Effect * Z * State :=
  match reply with
  | TipThrows => ([FetchTip], latestKnownHeight s, s)
  | TipNotOk => ([FetchTip], latestKnownHeight s, s)
  | TipData data =>
      if truthy_string (error data) then ([FetchTip], latestKnownHeight s, s)
      else
        match block data with
        | None => ([FetchTip], latestKnownHeight s, s)
        | Some height => ([FetchTip], height, set_latestKnownHeight height s)
        end
  end.

Definition backoff (attempt : nat) : Z :=
  RETRY_BASE_MS * 2 ^ Z.of_nat attempt.

(** The [for] loop of [fetchBlockWithRetry] over the attempt numbers still
    to run; leaving the loop by its condition returns [null]. *)
Fixpoint retry_loop (height : Z) (replies : nat → HttpReply)
    (attempts : list nat) : list Effect * completion json :=
  match attempts with
  | [] => ([], Normal JNull)
  | attempt :: rest =>
      let '(t, r) := fetchBlock height (replies attempt) in
      match r with
      | Normal result =>
          if negb (is_null result) then (t, Normal result)
          else if (attempt <? MAX_RETRIES - 1)%nat then
            let '(t', r') := retry_loop height replies rest in
            (t ++ [Sleep (backoff attempt)] ++ t', r')
          else
            let '(t', r') := retry_loop height replies rest in
            (t ++ t', r')
      | Throw err =>
          if (attempt =? MAX_RETRIES - 1)%nat then (t, Throw err)
          else
            let '(t', r') := retry_loop height replies rest in
            (t ++ [Sleep (backoff attempt)] ++ t', r')
      end
  end.

Definition fetchBlockWithRetry (height : Z) (replies : nat → HttpReply)
  : list Effect * completion json :=
  retry_loop height replies (seq 0 MAX_RETRIES).

(** The outcome of attempt [i] at a block. *)
Definition attempt_outcome (height : Z) (replies : nat → HttpReply)
    (i : nat) : completion json :=
  snd (fetchBlock height (replies i)).

(** An outcome after which the loop goes on to the next attempt: no data,
    or an exception. *)
Definition asks_retry (r : completion json) : bool :=
  match r with
  | Normal result => is_null result
  | Throw _ => true
  end.

(** What the environment sees of [n] attempts at a block when attempt
    [i + 1] is preceded by a sleep of [RETRY_BASE_MS * 2^i]. *)
Fixpoint attempts_trace (height : Z) (n : nat) : list Effect :=
  match n with
  | O => []
  | S O => [FetchBlock height]
  | S n' =>
      attempts_trace height n' ++ [Sleep (backoff (n' - 1)); FetchBlock height]
  end.

Definition count_fetches (t : list Effect) : nat :=
  length (filter (λ e, is_fetch e = true) t).

(** The part of [getStartBlockHeight] that runs when there is no saved
    height above 0: [START_BLOCK] when it is set and parses to a number
    above 0, else the latest block. *)
Definition start_without_checkpoint (reply : TipReply) (s : State)
  : list Effect * Z * State :=
  match env_START_BLOCK with
  | Some envStart =>
      match JS.parseInt envStart with
      | Num start =>
          if negb (String.eqb envStart EmptyString) && (0 <? start)
          then ([], start, s)
          else fetchLatestBlockHeight reply s
      | NaN => fetchLatestBlockHeight reply s
      end
  | None => fetchLatestBlockHeight reply s
  end.

Definition getStartBlockHeight (reply : TipReply) (s : State)
  : list Effect * Z * State :=
  match Db.getLastBlockHeight (db s) with
  | Num saved =>
      if 0 <? saved then ([], saved + 1, s)
      else start_without_checkpoint reply s
  | NaN => start_without_checkpoint reply s
  end.

(** The top of the loop body: every 200 processed blocks the cached tip
    is fetched again. *)
Definition refresh (env : Env) (s : State) : list Effect * State :=
  if Z.rem (blocksProcessed s) 200 =? 0 then
    let '(t, tip, s') := fetchLatestBlockHeight (tip_refresh env) s in
    (t, set_latestKnownHeight tip s')
  else ([], s).

(** One pass through the body of [while (running)]. *)
Definition iteration (env : Env) (s : State) : list Effect * State :=
  let '(t0, s0) := refresh env s in
  let isAtTip := currentHeight s0 >? latestKnownHeight s0 in
  if isAtTip then
    let '(t1, tip, s1) := fetchLatestBlockHeight (tip_idle env) s0 in
    (t0 ++ [Sleep IDLE_INTERVAL_MS] ++ t1, set_latestKnownHeight tip s1)
  else
    let '(t1, r) :=
      fetchBlockWithRetry (currentHeight s0) (block_reply env) in
    match r with
    | Throw _ => (t0 ++ t1 ++ [Sleep 5000], s0)
    | Normal blockData =>
        if is_null blockData then
          let s1 := set_skippedBlocks (skippedBlocks s0 + 1) s0 in
          let s2 := setLastBlockHeight (currentHeight s1) s1 in
          let s3 := set_currentHeight (currentHeight s2 + 1) s2 in
          (t0 ++ t1, s3)
        else
          let '(db', r') := Loop.parseBlock blockData (db s0) in
          let s1 := set_db db' s0 in
          match r' with
          | Throw _ => (t0 ++ t1 ++ [Sleep 5000], s1)
          | Normal eventsFound =>
              let s2 :=
                if eventsFound >? 0
                then set_totalEvents (totalEvents s1 + eventsFound) s1
                else s1 in
              let s3 := setLastBlockHeight (currentHeight s2) s2 in
              let s4 := set_blocksProcessed (blocksProcessed s3 + 1) s3 in
              let s5 := set_currentHeight (currentHeight s4 + 1) s4 in
              let behindBy := latestKnownHeight s5 - currentHeight s5 in
              (t0 ++ t1 ++
               [Sleep (if behindBy >? CATCHUP_THRESHOLD
                       then CATCHUP_INTERVAL_MS else POLL_INTERVAL_MS)],
               s5)
          end
    end.

Definition stopIndexing (s : State) : State := set_running false s.

(** [while (running)] over the replies of the iterations observed: the
    flag is read at the top of each iteration only. *)
Fixpoint loop (envs : list Env) (s : State) : list Effect * State :=
  match envs with
  | [] => ([], s)
  | env :: rest =>
      if running s then
        let '(t, s1) := iteration env s in
        let s2 := if stop_requested env then stopIndexing s1 else s1 in
        let '(t', s3) := loop rest s2 in
        (t ++ t', s3)
      else ([], s)
  end.

Definition startIndexing (start_reply tip_reply : TipReply)
    (envs : list Env) (s : State) : list Effect * State :=
  if running s then ([], s)
  else
    let s0 := set_running true s in
    let '(t1, start, s1) := getStartBlockHeight start_reply s0 in
    let s2 := set_currentHeight start s1 in
    let '(t2, tip, s3) := fetchLatestBlockHeight tip_reply s2 in
    let s4 := set_latestKnownHeight tip s3 in
    let s5 := set_skippedBlocks 0
                (set_blocksProcessed 0 (set_totalEvents 0 s4)) in
    let '(t3, s6) := loop envs s5 in
    (t1 ++ t2 ++ t3, s6).

End lake.
End Lake.

(** ** lake.ts, the revision with a single poll interval (src/src/lake.ts) *)

Module LakeSrc.
Section lake.

Context `{Host}.
Import Net.

Definition POLL_INTERVAL_MS : Z := 50.
Definition IDLE_INTERVAL_MS : Z := 1000.
Definition MAX_RETRIES : nat := 3.
Definition RETRY_BASE_MS : Z := 500.

(** [res.json()]: read the body and parse it; either step may reject. *)
Definition res_json (body : completion string) : completion json :=
  let* text := body in
  match JSON_parse text with
  | Some data => Normal data
  | None => Throw "SyntaxError"
  end.

Definition fetchBlock (height : Z) (reply : HttpReply)
  : list Effect * completion json :=
  ([FetchBlock height],
   match reply with
   | NetworkError err => Throw err
   | Response status body =>
       if status =? 200 then res_json body
       else Normal JNull
   end).

Definition fetchLatestBlockHeight (reply : TipReply) (s : State)
  : list Effect * Z * State :=
  match reply with
  | TipThrows => ([FetchTip], latestKnownHeight s, s)
  | TipNotOk => ([FetchTip], latestKnownHeight s, s)
  | TipData data =>
      match block data with
      | None => ([FetchTip], latestKnownHeight s, s)
      | Some height => ([FetchTip], height, set_latestKnownHeight height s)
      end
  end.

Definition backoff (attempt : nat) : Z :=
  RETRY_BASE_MS * 2 ^ Z.of_nat attempt.

(** The [for] loop of [fetchBlockWithRetry] over the attempt numbers still
    to run; whatever [fetchBlock] returns is returned at once. *)
Fixpoint retry_loop (height : Z) (replies : nat → HttpReply)
    (attempts : list nat) : list Effect * completion json :=
  match attempts with
  | [] => ([], Normal JNull)
  | attempt :: rest =>
      let '(t, r) := fetchBlock height (replies attempt) in
      match r with
      | Normal result => (t, Normal result)
      | Throw err =>
          if (attempt =? MAX_RETRIES - 1)%nat then (t, Throw err)
          else
            let '(t', r') := retry_loop height replies rest in
            (t ++ [Sleep (backoff attempt)] ++ t', r')
      end
  end.

Definition fetchBlockWithRetry (height : Z) (replies : nat → HttpReply)
  : list Effect * completion json :=
  retry_loop height replies (seq 0 MAX_RETRIES).

(** The outcome of attempt [i] at a block. *)
Definition attempt_outcome (height : Z) (replies : nat → HttpReply)
    (i : nat) : completion json :=
  snd (fetchBlock height (replies i)).

(** An outcome after which the loop goes on to the next attempt: an
    exception. *)
Definition asks_retry (r : completion json) : bool :=
  match r with
  | Normal _ => false
  | Throw _ => true
  end.

(** What the environment sees of [n] attempts at a block when attempt
    [i + 1] is preceded by a sleep of [RETRY_BASE_MS * 2^i]. *)
Fixpoint attempts_trace (height : Z) (n : nat) : list Effect :=
  match n with
  | O => []
  | S O => [FetchBlock height]
  | S n' =>
      attempts_trace height n' ++ [Sleep (backoff (n' - 1)); FetchBlock height]
  end.

Definition start_without_checkpoint (reply : TipReply) (s : State)
  : list Effect * Z * State :=
  match env_START_BLOCK with
  | Some envStart =>
      match JS.parseInt envStart with
      | Num start =>
          if negb (String.eqb envStart EmptyString) && (0 <? start)
          then ([], start, s)
          else fetchLatestBlockHeight reply s
      | NaN => fetchLatestBlockHeight reply s
      end
  | None => fetchLatestBlockHeight reply s
  end.

Definition getStartBlockHeight (reply : TipReply) (s : State)
  : list Effect * Z * State :=
  match Db.getLastBlockHeight (db s) with
  | Num saved =>
      if 0 <? saved then ([], saved + 1, s)
      else start_without_checkpoint reply s
  | NaN => start_without_checkpoint reply s
  end.

(** The top of the loop body: every 500 processed blocks the cached tip
    is fetched again. *)
Definition refresh (env : Env) (s : State) : list Effect * State :=
  if Z.rem (blocksProcessed s) 500 =? 0 then
    let '(t, tip, s') := fetchLatestBlockHeight (tip_refresh env) s in
    (t, set_latestKnownHeight tip s')
  else ([], s).

(** One pass through the body of [while (running)]. *)
Definition iteration (env : Env) (s : State) : list Effect * State :=
  let '(t0, s0) := refresh env s in
  let isAtTip := currentHeight s0 >? latestKnownHeight s0 in
  if isAtTip then
    let '(t1, tip, s1) := fetchLatestBlockHeight (tip_idle env) s0 in
    (t0 ++ [Sleep IDLE_INTERVAL_MS] ++ t1, set_latestKnownHeight tip s1)
  else
    let '(t1, r) :=
      fetchBlockWithRetry (currentHeight s0) (block_reply env) in
    match r with
    | Throw _ => (t0 ++ t1 ++ [Sleep 5000], s0)
    | Normal blockData =>
        if is_null blockData then
          let s1 := set_skippedBlocks (skippedBlocks s0 + 1) s0 in
          let s2 := setLastBlockHeight (currentHeight s1) s1 in
          let s3 := set_currentHeight (currentHeight s2 + 1) s2 in
          (t0 ++ t1, s3)
        else
          let '(db', r') := Loop.parseBlock blockData (db s0) in
          let s1 := set_db db' s0 in
          match r' with
          | Throw _ => (t0 ++ t1 ++ [Sleep 5000], s1)
          | Normal eventsFound =>
              let s2 :=
                if eventsFound >? 0
                then set_totalEvents (totalEvents s1 + eventsFound) s1
                else s1 in
              let s3 := setLastBlockHeight (currentHeight s2) s2 in
              let s4 := set_blocksProcessed (blocksProcessed s3 + 1) s3 in
              let s5 := set_currentHeight (currentHeight s4 + 1) s4 in
              (t0 ++ t1 ++ [Sleep POLL_INTERVAL_MS], s5)
          end
    end.

Definition stopIndexing (s : State) : State := set_running false s.

(** [while (running)] over the replies of the iterations observed: the
    flag is read at the top of each iteration only. *)
Fixpoint loop (envs : list Env) (s : State) : list Effect * State :=
  match envs with
  | [] => ([], s)
  | env :: rest =>
      if running s then
        let '(t, s1) := iteration env s in
        let s2 := if stop_requested env then stopIndexing s1 else s1 in
        let '(t', s3) := loop rest s2 in
        (t ++ t', s3)
      else ([], s)
  end.

Definition startIndexing (start_reply tip_reply : TipReply)
    (envs : list Env) (s : State) : list Effect * State :=
  if running s then ([], s)
  else
    let s0 := set_running true s in
    let '(t1, start, s1) := getStartBlockHeight start_reply s0 in
    let s2 := set_currentHeight start s1 in
    let '(t2, tip, s3) := fetchLatestBlockHeight tip_reply s2 in
    let s4 := set_latestKnownHeight tip s3 in
    let s5 := set_skippedBlocks 0
                (set_blocksProcessed 0 (set_totalEvents 0 s4)) in
    let '(t3, s6) := loop envs s5 in
    (t1 ++ t2 ++ t3, s6).

End lake.
End LakeSrc.

(** ** A reader for JSON text, for running the pipeline on examples

    The fragment that the indexed events use: objects, arrays, strings with
    the one-character escapes, integers and the three literals.  A text
    outside the fragment is rejected. *)

Module JsonText.

Definition is_ws (c : ascii) : bool :=
  let n := N_of_ascii c in
  (n =? 32)%N || (n =? 9)%N || (n =? 10)%N || (n =? 13)%N.

Fixpoint skip (s : string) : string :=
  match s with
  | String c rest => if is_ws c then skip rest else s
  | EmptyString => s
  end.

Fixpoint strip_prefix (p s : string) : option string :=
  match p, s with
  | EmptyString, _ => Some s
  | String a p', String b s' =>
      if Ascii.eqb a b then strip_prefix p' s' else None
  | String _ _, EmptyString => None
  end.

Definition unescape (c : ascii) : option ascii :=
  match c with
  | "034"%char => Some "034"%char
  | "\"%char => Some "\"%char
  | "/"%char => Some "/"%char
  | "b"%char => Some "008"%char
  | "f"%char => Some "012"%char
  | "n"%char => Some "010"%char
  | "r"%char => Some "013"%char
  | "t"%char => Some "009"%char
  | _ => None
  end.

(** The characters up to the closing quote, and the text after it. *)
Fixpoint read_chars (s : string) : option (string * string) :=
  match s with
  | EmptyString => None
  | String "034" rest => Some (EmptyString, rest)
  | String "\" (String c rest) =>
      c' ← unescape c;
      '(cs, rest') ← read_chars rest;
      Some (String c' cs, rest')
  | String "\" EmptyString => None
  | String c rest =>
      '(cs, rest') ← read_chars rest;
      Some (String c cs, rest')
  end.

(** The text after a run of digits. *)
Fixpoint after_digits (s : string) : string :=
  match s with
  | String c rest => if JS.is_digit c then after_digits rest else s
  | EmptyString => s
  end.

Definition ends_number (s : string) : bool :=
  match s with
  | String "." _ | String "e" _ | String "E" _ => false
  | _ => true
  end.

Definition read_int (s : string) : option (json * string) :=
  let '(sign, u) :=
    match s with
    | String "-" rest => (-1, rest)
    | _ => (1, s)
    end in
  if JS.starts_with_digit u && ends_number (after_digits u)
  then Some (JNum (sign * JS.digits 0 u), after_digits u)
  else None.

Fixpoint read_value (fuel : nat) (s : string) : option (json * string) :=
  match fuel with
  | O => None
  | S fuel' =>
      match skip s with
      | String "n" _ => rest ← strip_prefix "null" (skip s); Some (JNull, rest)
      | String "t" _ =>
          rest ← strip_prefix "true" (skip s); Some (JBool true, rest)
      | String "f" _ =>
          rest ← strip_prefix "false" (skip s); Some (JBool false, rest)
      | String "034" rest =>
          '(cs, rest') ← read_chars rest; Some (JStr cs, rest')
      | String "[" rest =>
          match skip rest with
          | String "]" rest' => Some (JArr [], rest')
          | _ =>
              '(items, rest') ← read_elements fuel' rest;
              Some (JArr items, rest')
          end
      | String "{" rest =>
          match skip rest with
          | String "}" rest' => Some (JObj [], rest')
          | _ =>
              '(ms, rest') ← read_members fuel' rest;
              Some (JObj ms, rest')
          end
      | t => read_int t
      end
  end
with read_elements (fuel : nat) (s : string)
  : option (list json * string) :=
  match fuel with
  | O => None
  | S fuel' =>
      '(v, rest) ← read_value fuel' s;
      match skip rest with
      | String "," rest' =>
          '(vs, rest'') ← read_elements fuel' rest';
          Some (v :: vs, rest'')
      | String "]" rest' => Some ([v], rest')
      | _ => None
      end
  end
with read_members (fuel : nat) (s : string)
  : option (list (string * json) * string) :=
  match fuel with
  | O => None
  | S fuel' =>
      match skip s with
      | String "034" rest =>
          '(k, rest1) ← read_chars rest;
          match skip rest1 with
          | String ":" rest2 =>
              '(v, rest3) ← read_value fuel' rest2;
              match skip rest3 with
              | String "," rest4 =>
                  '(ms, rest5) ← read_members fuel' rest4;
                  Some ((k, v) :: ms, rest5)
              | String "}" rest4 => Some ([(k, v)], rest4)
              | _ => None
              end
          | _ => None
          end
      | _ => None
      end
  end.

(** The value of a whole text; the nesting of a text is below its
    length. *)
Definition parse (s : string) : option json :=
  '(v, rest) ← read_value (S (String.length s)) s;
  match skip rest with
  | EmptyString => Some v
  | _ => None
  end.

End JsonText.

Module Demo.

(** A host for the examples: the reader above, no environment variable
    set, and a driver that rejects what is not of the declared type. *)
Definition host : Host :=
  {| JSON_parse := JsonText.parse;
     env_CONTRACT_ID := None;
     env_START_BLOCK := None;
     ill_typed_message := λ _ _, Throw "TypeError";
     ill_typed_profile := λ _ _, Throw "TypeError";
     ill_shaped_block := λ _ tables, (tables, Throw "TypeError") |}.

(** JSON text written with ['] for the double quote. *)
Fixpoint text (s : string) : string :=
  match s with
  | String "'" rest => String "034" (text rest)
  | String c rest => String c (text rest)
  | EmptyString => EmptyString
  end.

Definition message_log : string :=
  text ("EVENT_JSON:{'standard':'whisper','version':'1.0.0'," +:+
        "'event':'message_sent','data':[{'from':'a.near'," +:+
        "'to':'b.near','encrypted_body':'c2VjcmV0','nonce':'bm9uY2U='," +:+
        "'recipient_key_version':1,'reply_to':null}]}").


(** The module state when lake.ts is loaded, on an empty store. *)
Definition fresh : Net.State :=
  {| Net.running := false;
     Net.latestKnownHeight := 0;
     Net.currentHeight := 0;
     Net.totalEvents := 0;
     Net.blocksProcessed := 0;
     Net.skippedBlocks := 0;
     Net.db := Db.empty |}.

(** A tip reply that reports the given height. *)
Definition tip (height : Z) : Net.TipReply :=
  Net.TipData {| Net.block := Some height; Net.error := None |}.

Definition profile_log : string :=
  text ("EVENT_JSON:{'standard':'whisper','version':'1.0.0'," +:+
        "'event':'key_registered','data':[{'account_id':'a.near'," +:+
        "'x25519_pubkey':'K1','key_version':1,'display_name':null}]}").

(** A marked line cut short. *)
Definition broken_log : string :=
  text "EVENT_JSON:{'standard':'whisper','event':'message_sent','data':[{".

(** An outcome of the indexed contract with three event log lines, the
    second one malformed, and a line of free text. *)
Definition outcome3 : Block.ReceiptExecutionOutcome :=
  {| Block.execution_outcome :=
       {| Block.id := "7Yza";
          Block.outcome :=
            {| Block.executor_id := "whisper.kaizap.near";
               Block.logs :=
                 [message_log; "refund 0"; broken_log; profile_log];
               Block.receipt_ids := [];
               Block.status := [] |} |};
     Block.receipt := [];
     Block.tx_hash := "9xTqn" |}.

Definition block3 : Block.NearBlock :=
  {| Block.header :=
       {| Block.height := 100000000;
          Block.timestamp := 1700000000000000000;
          Block.hash := "Fh3k" |};
     Block.shards :=
       [ {| Block.shard_id := 0;
            Block.chunk := None;
            Block.receipt_execution_outcomes := [];
            Block.state_changes := None |};
         {| Block.shard_id := 1;
            Block.chunk := None;
            Block.receipt_execution_outcomes := [outcome3];
            Block.state_changes := None |} ] |}.

(** A running loop at height 100 with the tip cached at 300. *)
Definition behind : Net.State :=
  {| Net.running := true;
     Net.latestKnownHeight := 300;
     Net.currentHeight := 100;
     Net.totalEvents := 0;
     Net.blocksProcessed := 1;
     Net.skippedBlocks := 0;
     Net.db := Db.empty |}.

(** The same loop within the threshold of the tip. *)
Definition near_tip : Net.State :=
  {| Net.running := true;
     Net.latestKnownHeight := 150;
     Net.currentHeight := 100;
     Net.totalEvents := 0;
     Net.blocksProcessed := 1;
     Net.skippedBlocks := 0;
     Net.db := Db.empty |}.

(** The same loop past the tip. *)
Definition past_tip : Net.State :=
  {| Net.running := true;
     Net.latestKnownHeight := 99;
     Net.currentHeight := 100;
     Net.totalEvents := 0;
     Net.blocksProcessed := 1;
     Net.skippedBlocks := 0;
     Net.db := Db.empty |}.

(** The event of [message_log] inside a JSON string. *)
Definition escaped_log : string :=
  "EVENT_JSON:{\'standard\':\'whisper\',\'version\':\'1.0.0\'," +:+
  "\'event\':\'message_sent\',\'data\':[{\'from\':\'a.near\'," +:+
  "\'to\':\'b.near\',\'encrypted_body\':\'c2VjcmV0\'," +:+
  "\'nonce\':\'bm9uY2U=\',\'recipient_key_version\':1," +:+
  "\'reply_to\':null}]}".

(** The body of a block response: one shard, one outcome of the indexed
    contract, one event log. *)
Definition block_text : string :=
  text ("{'block':{'header':{'height':100," +:+
        "'timestamp':1700000000000000000,'hash':'Fh3k'}}," +:+
        "'shards':[{'shard_id':0,'receipt_execution_outcomes':[" +:+
        "{'execution_outcome':{'id':'7Yza','outcome':{" +:+
        "'executor_id':'whisper.kaizap.near'," +:+
        "'logs':['" +:+ escaped_log +:+ "']," +:+
        "'receipt_ids':[],'status':{}}}," +:+
        "'receipt':{},'tx_hash':'9xTqn'}]}]}").

Definition env_with (reply : nat → Net.HttpReply) : Net.Env :=
  {| Net.tip_refresh := tip 300;
     Net.tip_idle := tip 305;
     Net.block_reply := reply;
     Net.stop_requested := false |}.

(** The block is not there. *)
Definition env_missing : Net.Env :=
  env_with (λ _, Net.Response 404 (Normal "Not Found")).

(** The network is down. *)
Definition env_down : Net.Env :=
  env_with (λ _, Net.NetworkError "ECONNRESET").

(** The service answers with data that is not a block. *)
Definition env_not_a_block : Net.Env :=
  env_with (λ _, Net.Response 200 (Normal (text "{'height':100}"))).

(** The service answers with the block. *)
Definition env_block : Net.Env :=
  env_with (λ _, Net.Response 200 (Normal block_text)).

Definition msg1 : Db.DbMessage :=
  {| Db.tx_hash := "9xTqn";
     Db.block_height := 100000000;
     Db.timestamp_ns := "1700000000000000000";
     Db.event_type := "message_sent";
     Db.sender := "a.near";
     Db.recipient := "b.near";
     Db.encrypted_body := "c2VjcmV0";
     Db.nonce := "bm9uY2U=";
     Db.recipient_key_version := 1;
     Db.reply_to := None;
     Db.amount := None |}.

(** The key of [msg1] with every other field different. *)
Definition msg2 : Db.DbMessage :=
  {| Db.tx_hash := "9xTqn";
     Db.block_height := 100000007;
     Db.timestamp_ns := "1700000009000000000";
     Db.event_type := "message_sent";
     Db.sender := "a.near";
     Db.recipient := "b.near";
     Db.encrypted_body := "b3RoZXI=";
     Db.nonce := "MTIz";
     Db.recipient_key_version := 2;
     Db.reply_to := Some "9xTqn";
     Db.amount := Some "5" |}.

Definition profile1 : Db.DbProfile :=
  {| Db.account_id := "a.near";
     Db.x25519_pubkey := "K1";
     Db.key_version := 1;
     Db.display_name := None;
     Db.registered_at := "1700000000000000000" |}.

Definition profile2 : Db.DbProfile :=
  {| Db.account_id := "a.near";
     Db.x25519_pubkey := "K2";
     Db.key_version := 2;
     Db.display_name := Some "alice";
     Db.registered_at := "1700000500000000000" |}.

End Demo.

(** ** db.ts: sequences of writes *)

Module Store.

(** A call of one of the writers db.ts exports. *)
Inductive Write : Type :=
  | SaveMessage (msg : Db.DbMessage)
  | SaveProfile (profile : Db.DbProfile)
  | SetLastBlockHeight (height : Z).

Definition write (db : Db.t) (w : Write) : Db.t :=
  match w with
  | SaveMessage msg => Db.saveMessage msg db
  | SaveProfile profile => Db.saveProfile profile db
  | SetLastBlockHeight height => Db.setLastBlockHeight height db
  end.

(** The store after a sequence of calls. *)
Definition run (ws : list Write) (db : Db.t) : Db.t := fold_left write ws db.

(** The call is a [saveProfile] for the account. *)
Definition registers (a : string) (w : Write) : Prop :=
  match w with
  | SaveProfile profile => Db.account_id profile = a
  | _ => False
  end.

End Store.

(** ** db.ts: the message query (src/unnamed/part_000, [getMessages]) *)

Module Query.

(** [DbMessage] of types.ts, as a SELECT returns it: the [id] the storage
    engine gave the row, and the columns that were inserted.  The engine
    gives every row of [messages] an id of its own, larger than the ids
    given before (INTEGER PRIMARY KEY AUTOINCREMENT); an insert that is
    ignored can use one up, so the ids of a table can have gaps. *)
Record DbMessage : Type := {
  id : Z;
  row : Db.DbMessage
}.

(** [after ? ... : ...]: the cursor is applied when [after] is a number
    other than 0 and [NaN]. *)
Definition cursor (after : option number) : option Z :=
  match after with
  | Some (Num a) => if a =? 0 then None else Some a
  | _ => None
  end.

(** [(sender = ? AND recipient = ?) OR (sender = ? AND recipient = ?)] with
    the account and the peer bound in this order and then in the other. *)
Definition in_thread (account peer : string) (m : DbMessage) : bool :=
  (String.eqb (Db.sender (row m)) account
   && String.eqb (Db.recipient (row m)) peer)
  || (String.eqb (Db.sender (row m)) peer
      && String.eqb (Db.recipient (row m)) account).

(** The WHERE clause of the query with a peer: the parenthesized
    condition, and [AND id > ?] when there is a cursor. *)
Definition where_thread (account peer : string) (c : option Z)
    (m : DbMessage) : bool :=
  match c with
  | Some a => in_thread account peer m && (a <? id m)
  | None => in_thread account peer m
  end.

(** The WHERE clause of the query without a peer,
    [sender = ? OR recipient = ?] followed by [AND id > ?] when there is a
    cursor: AND binds tighter than OR. *)
Definition where_account (account : string) (c : option Z) (m : DbMessage)
  : bool :=
  match c with
  | Some a =>
      String.eqb (Db.sender (row m)) account
      || (String.eqb (Db.recipient (row m)) account && (a <? id m))
  | None =>
      String.eqb (Db.sender (row m)) account
      || String.eqb (Db.recipient (row m)) account
  end.

(** ORDER BY block_height ASC, id ASC: the order of two rows.  No two rows
    of a table have the same id, so no two rows of a table are tied. *)
Definition by_height_id (m1 m2 : DbMessage) : Prop :=
  Db.block_height (row m1) < Db.block_height (row m2)
  ∨ (Db.block_height (row m1) = Db.block_height (row m2) ∧ id m1 ≤ id m2).

(** ORDER BY block_height DESC, id DESC *)
Definition by_height_id_desc (m1 m2 : DbMessage) : Prop :=
  by_height_id m2 m1.

#[global] Instance by_height_id_dec (m1 m2 : DbMessage) :
  Decision (by_height_id m1 m2).
Proof. unfold by_height_id. apply _. Defined.

#[global] Instance by_height_id_desc_dec (m1 m2 : DbMessage) :
  Decision (by_height_id_desc m1 m2).
Proof. unfold by_height_id_desc. apply _. Defined.

(** LIMIT n: a negative limit is no limit. *)
Definition limit_rows {A : Type} (n : Z) (l : list A) : list A :=
  if n <? 0 then l else take (Z.to_nat n) l.

(** The operand of LIMIT has to have a 64-bit integer value.  The driver
    binds a number as a double, and the engine takes a double that is an
    integer strictly between -2^63 and 2^63. *)
Definition limit_operand (n : Z) : bool := (- 2 ^ 63 <? n) && (n <? 2 ^ 63).

(** [getMessages(account, peer?, after?, limit = 50)] on the rows of
    [messages].  A limit that is [NaN] is bound as NULL; the engine
    refuses it as the operand of LIMIT, as it refuses a number outside
    the 64-bit integers. *)
Definition getMessages (account : string) (peer : option string)
    (after : option number) (limit : option number) (rows : list DbMessage)
  : completion (list DbMessage) :=
  let selected :=
    if Net.truthy_string peer then
      merge_sort by_height_id
        (filter (λ m, where_thread account (default EmptyString peer)
                        (cursor after) m = true) rows)
    else
      merge_sort by_height_id_desc
        (filter (λ m, where_account account (cursor after) m = true) rows) in
  match default (Num 50) limit with
  | Num n =>
      if limit_operand n then Normal (limit_rows n selected)
      else Throw "SqliteError: datatype mismatch"
  | NaN => Throw "SqliteError: datatype mismatch"
  end.

(** The conversation of two accounts: the rows either of them sent the
    other, in the order of the table. *)
Definition thread (account peer : string) (rows : list DbMessage)
  : list DbMessage :=
  filter (λ m, in_thread account peer m = true) rows.

(** Two rows of a table that was filled by taking the blocks in ascending
    order: the later row has the larger id and a block height that is not
    smaller. *)
Definition stored_in_order (m1 m2 : DbMessage) : Prop :=
  id m1 < id m2 ∧ Db.block_height (row m1) ≤ Db.block_height (row m2).

End Query.

(** ** db.ts: the profile search (src/unnamed/part_000, [searchProfiles]) *)

Module Search.

(** The lower-case form of an ASCII letter; other characters are left. *)
Definition fold_case (c : ascii) : ascii :=
  let n := N_of_ascii c in
  if ((65 <=? n) && (n <=? 90))%N then ascii_of_N (n + 32) else c.

(** [s LIKE p]: [%] stands for any run of characters, [_] for any one
    character, and any other character for itself in either case (the
    case of ASCII letters; there is no escape character). *)
Fixpoint like (p : string) : string → bool :=
  fix like_from (s : string) : bool :=
    match p with
    | EmptyString =>
        match s with EmptyString => true | String _ _ => false end
    | String "%" p' =>
        like p' s
        || match s with
           | EmptyString => false
           | String _ s' => like_from s'
           end
    | String "_" p' =>
        match s with
        | EmptyString => false
        | String _ s' => like p' s'
        end
    | String c p' =>
        match s with
        | EmptyString => false
        | String d s' => Ascii.eqb (fold_case c) (fold_case d) && like p' s'
        end
    end.

(** The template literal that is bound to both parameters: a [%], the
    query, a [%]. *)
Definition pattern (query : string) : string :=
  String "%" (query +:+ "%").

(** [account_id LIKE ? OR display_name LIKE ?]: a display name that is
    NULL matches nothing. *)
Definition matches (query : string) (p : Db.DbProfile) : bool :=
  like (pattern query) (Db.account_id p)
  || match Db.display_name p with
     | Some name => like (pattern query) name
     | None => false
     end.

(** [searchProfiles(query)] on the rows of [profiles] in the order the
    engine visits them: the first 20 that match (LIMIT 20; the query
    gives no order). *)
Definition searchProfiles (query : string) (rows : list Db.DbProfile)
  : list Db.DbProfile :=
  take 20 (filter (λ p, matches query p = true) rows).


End Search.

(** ** index.ts: the routes (src/src/index.ts) *)

Module Index.

(** What a handler passes to [res.json]. *)
Inductive Body : Type :=
  | ErrorBody (error : string)
  | MessagesBody (messages : list Query.DbMessage)
  | ProfilesBody (profiles : list Db.DbProfile)
  | ProfileBody (profile : Db.DbProfile).

(** The response: [res.status(n).json(body)], or [res.json(body)] with the
    status 200 a response starts from. *)
Record Response : Type := {
  status : Z;
  body : Body
}.

(** [Math.min(a, b)] for an integer [b]: [NaN] when [a] is. *)
Definition Math_min (a : number) (b : Z) : number :=
  match a with
  | Num z => Num (Z.min z b)
  | NaN => NaN
  end.

(** [req.query.after ? parseInt(req.query.after, 10) : undefined] *)
Definition after_of (query : gmap string string) : option number :=
  match query !! "after" with
  | Some text =>
      if Net.truthy_string (Some text) then Some (JS.parseInt text) else None
  | None => None
  end.

(** [req.query.limit ? Math.min(parseInt(req.query.limit, 10), 200) : 50] *)
Definition limit_of (query : gmap string string) : number :=
  match query !! "limit" with
  | Some text =>
      if Net.truthy_string (Some text)
      then Math_min (JS.parseInt text) 200
      else Num 50
  | None => Num 50
  end.

(** [app.get('/messages', ...)] on the query parameters of the request,
    each a string when it is given, and the rows of [messages].  An
    exception of the query leaves the handler. *)
Definition get_messages (query : gmap string string)
    (rows : list Query.DbMessage) : completion Response :=
  let account := query !! "account" in
  if negb (Net.truthy_string account) then
    Normal {| status := 400; body := ErrorBody "account is required" |}
  else
    let peer := query !! "with" in
    let after := after_of query in
    let limit := limit_of query in
    let* messages :=
      Query.getMessages (default EmptyString account) peer after
        (Some limit) rows in
    Normal {| status := 200; body := MessagesBody messages |}.

(** [app.get('/profiles/search', ...)] on the query parameters and the
    rows of [profiles]. *)
Definition get_profiles_search (query : gmap string string)
    (rows : list Db.DbProfile) : Response :=
  let q := query !! "q" in
  if negb (Net.truthy_string q) then
    {| status := 400; body := ErrorBody "q is required" |}
  else
    {| status := 200;
       body := ProfilesBody
                 (Search.searchProfiles (default EmptyString q) rows) |}.

(** [app.get('/profiles/:accountId', ...)] on the route parameter and the
    store. *)
Definition get_profile (accountId : string) (db : Db.t) : Response :=
  match Db.getProfile accountId db with
  | None => {| status := 404; body := ErrorBody "profile not found" |}
  | Some profile => {| status := 200; body := ProfileBody profile |}
  end.

End Index.

(** ** Describing a run of the loop *)

Module Run.

Import Net.

(** The heights of the block requests of a run, in the order they were
    made. *)
Definition requested (t : list Effect) : list Z :=
  omap (λ e, match e with FetchBlock h => Some h | _ => None end) t.

(** The requests of a run for the chain tip, counted as
    [Lake.count_fetches] counts those for a block. *)
Definition is_tip (e : Effect) : bool :=
  match e with
  | FetchTip => true
  | _ => false
  end.

Definition count_tips (t : list Effect) : nat :=
  length (filter (λ e, is_tip e = true) t).

(** A pass through the loop body that stays at its height: the checkpoint
    and the two block counters are as before. *)
Definition stays (s s' : State) : Prop :=
  currentHeight s' = currentHeight s
  ∧ Db.sync_state (db s') = Db.sync_state (db s)
  ∧ blocksProcessed s' = blocksProcessed s
  ∧ skippedBlocks s' = skippedBlocks s.

(** A pass that moves to the next height: the block was asked for, the
    height it leaves is the checkpoint, and one of the two counters went up
    by one. *)
Definition advances (t : list Effect) (s s' : State) : Prop :=
  currentHeight s' = currentHeight s + 1
  ∧ Db.getLastBlockHeight (db s') = Num (currentHeight s)
  ∧ (blocksProcessed s' = blocksProcessed s + 1
     ∧ skippedBlocks s' = skippedBlocks s
     ∨ blocksProcessed s' = blocksProcessed s
       ∧ skippedBlocks s' = skippedBlocks s + 1)
  ∧ FetchBlock (currentHeight s) ∈ t.

(** What every pass does: it leaves [running] alone, asks for no block
    but the one at the current height, and stays or advances. *)
Definition pass (iteration : Env → State → list Effect * State) : Prop :=
  ∀ env s,
    let '(t, s') := iteration env s in
    running s' = running s
    ∧ (∀ h, FetchBlock h ∈ t → h = currentHeight s)
    ∧ (stays s s' ∨ advances t s s').

End Run.

(** ** Describing the sink calls of a block *)

Module Events.
Section events.

Context `{Host}.

(** What an event log line does, when it does the same on every store:
    the text after the marker is not JSON and nothing is done, or the line
    carries one recognized event and its row goes to the sink. *)
Definition line_outcome (blockHeight : Z) (timestampNs : string)
    (line : Block.ReceiptExecutionOutcome * string)
    (o : option Parser.Stored) : Prop :=
  match o with
  | Some op => Parser.line_event blockHeight timestampNs line op
  | None => Parser.malformed line
  end.

End events.

(** The sink calls of lines with these outcomes. *)
Definition calls (os : list (option Parser.Stored)) : list Parser.Stored :=
  omap id os.

(** The row of an account after [upsertProfile] with [p], from the row
    before it. *)
Definition keep (old p : Db.DbProfile) : Db.DbProfile :=
  {| Db.account_id := Db.account_id old;
     Db.x25519_pubkey := Db.x25519_pubkey p;
     Db.key_version := Db.key_version p;
     Db.display_name := Db.display_name p;
     Db.registered_at := Db.registered_at old |}.

Definition upsert_row (o : option Db.DbProfile) (p : Db.DbProfile)
  : option Db.DbProfile :=
  Some (match o with Some old => keep old p | None => p end).

(** The profile rows a list of sink calls holds for an account. *)
Definition rows_for (a : string) (ops : list Parser.Stored)
  : list Db.DbProfile :=
  omap (λ op, match op with
              | Parser.StoreProfile p =>
                  if decide (Db.account_id p = a) then Some p else None
              | Parser.StoreMessage _ => None
              end) ops.

End Events.

(** ** Examples for the properties beyond the pipeline *)

Module Sample.

Definition stored (i height : Z) (tx s r : string) : Query.DbMessage :=
  {| Query.id := i;
     Query.row :=
       {| Db.tx_hash := tx;
          Db.block_height := height;
          Db.timestamp_ns := "1700000000000000000";
          Db.event_type := "message_sent";
          Db.sender := s;
          Db.recipient := r;
          Db.encrypted_body := "c2VjcmV0";
          Db.nonce := "bm9uY2U=";
          Db.recipient_key_version := 1;
          Db.reply_to := None;
          Db.amount := None |} |}.

(** A table of five rows among three accounts: the ids have gaps, the
    block heights do not fall. *)
Definition table : list Query.DbMessage :=
  [ stored 1 10 "t1" "a.near" "b.near";
    stored 4 12 "t2" "b.near" "a.near";
    stored 5 12 "t3" "a.near" "c.near";
    stored 6 15 "t4" "c.near" "a.near";
    stored 7 20 "t5" "b.near" "a.near" ].

(** Query parameters of requests to [/messages]. *)
Definition query_account : gmap string string :=
  {[ "account" := "a.near" ]}.

Definition query_limit (limit : string) : gmap string string :=
  {[ "account" := "a.near"; "limit" := limit ]}.

(** Writes of all three kinds; the profile is for an account that is
    registered already. *)
Definition writes : list Store.Write :=
  [ Store.SaveMessage Demo.msg1;
    Store.SaveProfile Demo.profile2;
    Store.SetLastBlockHeight 7 ].

(** An event of the standard with a tag the parser has no case for. *)
Definition group_log : string :=
  Demo.text ("EVENT_JSON:{'standard':'whisper','version':'1.0.0'," +:+
             "'event':'group_created','data':[{'group_id':'g1'," +:+
             "'creator':'a.near','name':'friends'}]}").

(** An event of another standard. *)
Definition nep171_log : string :=
  Demo.text ("EVENT_JSON:{'standard':'nep171','version':'1.0.0'," +:+
             "'event':'nft_mint','data':[{'owner_id':'a.near'}]}").

(** An event with three items, the second of them [null]. *)
Definition partial_log : string :=
  Demo.text ("EVENT_JSON:{'standard':'whisper','version':'1.0.0'," +:+
             "'event':'message_sent','data':[{'from':'a.near'," +:+
             "'to':'b.near','encrypted_body':'c2VjcmV0'," +:+
             "'nonce':'bm9uY2U=','recipient_key_version':1," +:+
             "'reply_to':null},null,{'from':'b.near','to':'a.near'," +:+
             "'encrypted_body':'b3RoZXI=','nonce':'MTIz'," +:+
             "'recipient_key_version':1,'reply_to':null}]}").

Definition outcome_of (executor : string) (lines : list string)
  : Block.ReceiptExecutionOutcome :=
  {| Block.execution_outcome :=
       {| Block.id := "7Yza";
          Block.outcome :=
            {| Block.executor_id := executor;
               Block.logs := lines;
               Block.receipt_ids := [];
               Block.status := [] |} |};
     Block.receipt := [];
     Block.tx_hash := "9xTqn" |}.

Definition block_of (outcomes : list Block.ReceiptExecutionOutcome)
  : Block.NearBlock :=
  {| Block.header :=
       {| Block.height := 100000000;
          Block.timestamp := 1700000000000000000;
          Block.hash := "Fh3k" |};
     Block.shards :=
       [ {| Block.shard_id := 0;
            Block.chunk := None;
            Block.receipt_execution_outcomes := outcomes;
            Block.state_changes := None |} ] |}.

(** An outcome of the indexed contract for which the block service gives
    no transaction hash. *)
Definition outcome_unhashed : Block.ReceiptExecutionOutcome :=
  {| Block.execution_outcome :=
       {| Block.id := "7Yza";
          Block.outcome :=
            {| Block.executor_id := "whisper.kaizap.near";
               Block.logs := [Demo.message_log];
               Block.receipt_ids := [];
               Block.status := [] |} |};
     Block.receipt := [];
     Block.tx_hash := EmptyString |}.

(** A block with a timestamp above 2^53, as every timestamp in
    nanoseconds is: a shard with that outcome, and a shard without
    outcomes. *)
Definition block_late : Block.NearBlock :=
  {| Block.header :=
       {| Block.height := 100000001;
          Block.timestamp := 1700000000123456768;
          Block.hash := "Gj7p" |};
     Block.shards :=
       [ {| Block.shard_id := 0;
            Block.chunk := None;
            Block.receipt_execution_outcomes := [outcome_unhashed];
            Block.state_changes := None |};
         {| Block.shard_id := 1;
            Block.chunk := None;
            Block.receipt_execution_outcomes := [];
            Block.state_changes := None |} ] |}.

(** The body of the response for that block: the outcome has no
    [tx_hash], the chunks are [null], and the second shard has no
    [receipt_execution_outcomes]. *)
Definition block_late_text : string :=
  Demo.text ("{'block':{'header':{'height':100000001," +:+
             "'timestamp':1700000000123456768,'hash':'Gj7p'}}," +:+
             "'shards':[{'shard_id':0,'chunk':null," +:+
             "'receipt_execution_outcomes':[" +:+
             "{'execution_outcome':{'id':'7Yza','outcome':{" +:+
             "'executor_id':'whisper.kaizap.near'," +:+
             "'logs':['" +:+ Demo.escaped_log +:+ "']," +:+
             "'receipt_ids':[],'status':{}}}," +:+
             "'receipt':{}}]},{'shard_id':1,'chunk':null}]}").

(** The row of the event of that block. *)
Definition late_row : Db.DbMessage :=
  {| Db.tx_hash := "7Yza";
     Db.block_height := 100000001;
     Db.timestamp_ns := "1700000000123456800";
     Db.event_type := "message_sent";
     Db.sender := "a.near";
     Db.recipient := "b.near";
     Db.encrypted_body := "c2VjcmV0";
     Db.nonce := "bm9uY2U=";
     Db.recipient_key_version := 1;
     Db.reply_to := None;
     Db.amount := None |}.

(** A block with that timestamp in which an account registers its key. *)
Definition block_key_late : Block.NearBlock :=
  {| Block.header :=
       {| Block.height := 100000002;
          Block.timestamp := 1700000000123456768;
          Block.hash := "Hk8q" |};
     Block.shards :=
       [ {| Block.shard_id := 0;
            Block.chunk := None;
            Block.receipt_execution_outcomes :=
              [outcome_of "whisper.kaizap.near" [Demo.profile_log]];
            Block.state_changes := None |} ] |}.

(** A block in which the event is logged by another contract, and the
    indexed contract logs free text only. *)
Definition block_other : Block.NearBlock :=
  block_of [ outcome_of "other.near" [Demo.message_log];
             outcome_of "whisper.kaizap.near" ["refund 0"] ].

(** The environment of an iteration during which [stopIndexing] is
    called. *)
Definition env_stop : Net.Env :=
  {| Net.tip_refresh := Demo.tip 300;
     Net.tip_idle := Demo.tip 305;
     Net.block_reply := λ _, Net.Response 404 (Normal "Not Found");
     Net.stop_requested := true |}.

Definition bob : Db.DbProfile :=
  {| Db.account_id := "bob.near";
     Db.x25519_pubkey := "K7";
     Db.key_version := 1;
     Db.display_name := Some "Bob Alison";
     Db.registered_at := "1700000100000000000" |}.

Definition carol : Db.DbProfile :=
  {| Db.account_id := "carol.near";
     Db.x25519_pubkey := "K9";
     Db.key_version := 3;
     Db.display_name := Some "Carol";
     Db.registered_at := "1700000200000000000" |}.

(** Three profiles, the first of them without a display name. *)
Definition profiles : list Db.DbProfile := [Demo.profile1; bob; carol].

(** A store with the checkpoint at 99, before lake.ts starts. *)
Definition restarted : Net.State := Net.setLastBlockHeight 99 Demo.fresh.

End Sample.

(** * Properties of the storage contract *)

Module DbFacts.

Import Db.

Lemma insertMessage_present (m : DbMessage) (db : t) :
  msg_key m ∈ keys db → insertMessage m db = db.
Proof. intros Hin. unfold insertMessage. by rewrite decide_True. Qed.

Lemma insertMessage_fresh (m : DbMessage) (db : t) :
  msg_key m ∉ keys db →
  messages (insertMessage m db) = messages db ++ [m].
Proof. intros Hin. unfold insertMessage. by rewrite decide_False. Qed.

Lemma insertMessage_key (m : DbMessage) (db : t) :
  msg_key m ∈ keys (insertMessage m db).
Proof.
  unfold insertMessage. case_decide as Hin; [done|].
  unfold keys; simpl. rewrite fmap_app. set_solver.
Qed.

Lemma rows_with_key_fresh (k : string * string * string * string) (db : t) :
  k ∉ keys db → rows_with_key k db = [].
Proof.
  unfold rows_with_key, keys. induction (messages db) as [|m ms IH]; [done|].
  intros Hk. rewrite fmap_cons, not_elem_of_cons in Hk.
  destruct Hk as [Hne Hk].
  rewrite filter_cons_False by congruence. auto.
Qed.

(** The UNIQUE constraint holds of every store the inserts build. *)
Lemma insertMessage_unique (m : DbMessage) (db : t) :
  NoDup (keys db) → NoDup (keys (insertMessage m db)).
Proof.
  intros Hnd. unfold insertMessage. case_decide as Hin; [done|].
  unfold keys in *; simpl. rewrite fmap_app. apply NoDup_app.
  split_and!; [done| |apply NoDup_singleton].
  intros k Hk Hk'. apply list_elem_of_singleton in Hk'. by subst.
Qed.

(** Under the UNIQUE constraint a stored key has one row. *)
Lemma rows_with_key_unique (k : string * string * string * string) (db : t) :
  NoDup (keys db) → k ∈ keys db → length (rows_with_key k db) = 1%nat.
Proof.
  unfold rows_with_key, keys.
  induction (messages db) as [|m ms IH]; intros Hnd Hin.
  - by apply elem_of_nil in Hin.
  - rewrite fmap_cons in Hnd, Hin. apply NoDup_cons in Hnd as [Hm Hnd].
    destruct (decide (msg_key m = k)) as [Heq | Hne].
    + rewrite filter_cons_True by done. subst k.
      pose proof (rows_with_key_fresh (msg_key m)
                    {| messages := ms; profiles := ∅; sync_state := ∅ |} Hm)
        as Hnone.
      unfold rows_with_key in Hnone. simpl in Hnone. by rewrite Hnone.
    + rewrite filter_cons_False by done.
      apply elem_of_cons in Hin as [Heq | Hin]; [congruence | auto].
Qed.

(** C2. Two calls of [saveMessage] with the same (tx_hash, event_type,
    sender, recipient) and any other fields, on a store that satisfies the
    UNIQUE constraint: the second call leaves the store as the first call
    left it (it is total, so nothing is raised), the store holds exactly
    one row with that key, and when the key was not stored before, that
    row is the row of the first call. *)
Theorem saveMessage_twice (db : t) (m1 m2 : DbMessage) :
  msg_key m2 = msg_key m1 →
  NoDup (keys db) →
  saveMessage m2 (saveMessage m1 db) = saveMessage m1 db
  ∧ length (rows_with_key (msg_key m1) (saveMessage m2 (saveMessage m1 db)))
    = 1%nat
  ∧ (msg_key m1 ∉ keys db →
     rows_with_key (msg_key m1) (saveMessage m2 (saveMessage m1 db)) = [m1]).
Proof.
  intros Hkey Hunique. unfold saveMessage.
  assert (insertMessage m2 (insertMessage m1 db) = insertMessage m1 db)
    as Hnoop.
  { apply insertMessage_present. rewrite Hkey. apply insertMessage_key. }
  rewrite Hnoop. split_and!; [done | |].
  - apply rows_with_key_unique;
      [by apply insertMessage_unique | apply insertMessage_key].
  - intros Hfresh.
    unfold rows_with_key. rewrite insertMessage_fresh by done.
    rewrite filter_app. fold (rows_with_key (msg_key m1) db).
    rewrite rows_with_key_fresh by done. simpl.
    by rewrite filter_cons_True, filter_nil.
Qed.

Lemma upsertProfile_conflict (p old : DbProfile) (db : t) :
  getProfile (account_id p) db = Some old →
  getProfile (account_id p) (upsertProfile p db)
  = Some {| account_id := account_id old;
            x25519_pubkey := x25519_pubkey p;
            key_version := key_version p;
            display_name := display_name p;
            registered_at := registered_at old |}.
Proof.
  unfold getProfile, upsertProfile. intros Hold. simpl.
  by rewrite Hold, lookup_insert_eq.
Qed.

Lemma upsertProfile_new (p : DbProfile) (db : t) :
  getProfile (account_id p) db = None →
  getProfile (account_id p) (upsertProfile p db) = Some p.
Proof.
  unfold getProfile, upsertProfile. intros Hnone. simpl.
  by rewrite Hnone, lookup_insert_eq.
Qed.

Lemma upsertProfile_other (p : DbProfile) (a : string) (db : t) :
  a ≠ account_id p →
  getProfile a (upsertProfile p db) = getProfile a db.
Proof.
  unfold getProfile, upsertProfile. intros Hne. simpl.
  by rewrite lookup_insert_ne.
Qed.

(** C8. An account registered with [p1] (public key K1 at time T1) and
    then saved again with [p2] (K2, V2, D2 at T2): the stored profile has
    the public key, key version and display name of [p2] and the
    registration time of [p1]. *)
Theorem saveProfile_reregister (db : t) (p1 p2 : DbProfile) :
  account_id p2 = account_id p1 →
  getProfile (account_id p1) db = None →
  getProfile (account_id p1) (saveProfile p2 (saveProfile p1 db))
  = Some {| account_id := account_id p1;
            x25519_pubkey := x25519_pubkey p2;
            key_version := key_version p2;
            display_name := display_name p2;
            registered_at := registered_at p1 |}.
Proof.
  intros Hacc Hnew. unfold saveProfile.
  pose proof (upsertProfile_new p1 db Hnew) as Hfirst.
  rewrite <- Hacc in Hfirst.
  pose proof (upsertProfile_conflict p2 p1 _ Hfirst) as Hsecond.
  by rewrite Hacc in Hsecond.
Qed.

Lemma saveMessage_twice_witness :
  (msg_key Demo.msg2 = msg_key Demo.msg1 ∧ NoDup (keys empty))
  ∧ saveMessage Demo.msg2 (saveMessage Demo.msg1 empty)
    = saveMessage Demo.msg1 empty
  ∧ rows_with_key (msg_key Demo.msg1)
      (saveMessage Demo.msg2 (saveMessage Demo.msg1 empty)) = [Demo.msg1].
Proof.
  assert (NoDup (keys empty)) as Hunique by (vm_compute; apply NoDup_nil_2).
  assert (msg_key Demo.msg1 ∉ keys empty) as Hfresh
    by (vm_compute; apply not_elem_of_nil).
  split; [split; [reflexivity | exact Hunique] |].
  destruct (saveMessage_twice empty Demo.msg1 Demo.msg2 eq_refl Hunique)
    as (Hnoop & _ & Hrow).
  split; [exact Hnoop | exact (Hrow Hfresh)].
Defined.

Lemma saveProfile_reregister_witness :
  getProfile "a.near" empty = None
  ∧ getProfile "a.near"
      (saveProfile Demo.profile2 (saveProfile Demo.profile1 empty))
    = Some {| account_id := "a.near";
              x25519_pubkey := "K2";
              key_version := 2;
              display_name := Some "alice";
              registered_at := "1700000000000000000" |}.
Proof.
  split; [reflexivity |].
  apply (saveProfile_reregister empty Demo.profile1 Demo.profile2);
    reflexivity.
Defined.

End DbFacts.

(** * Decimal numerals: [parseInt] reads back what [String] writes *)

Module JSFacts.

Import JS.

Lemma pretty_N_char_digit (d : N) :
  (d < 10)%N →
  is_digit (pretty_N_char d) = true
  ∧ digit_value (pretty_N_char d) = Z.of_N d.
Proof.
  intros Hd.
  assert (d = 0 ∨ d = 1 ∨ d = 2 ∨ d = 3 ∨ d = 4 ∨ d = 5 ∨ d = 6 ∨ d = 7
          ∨ d = 8 ∨ d = 9)%N as Hcases by lia.
  repeat (destruct Hcases as [-> | Hcases]; [by vm_compute |]).
  subst. by vm_compute.
Qed.

(** Reading the digits that [pretty_N_go] puts in front of [s]. *)
Lemma digits_pretty_N_go (x : N) (s : string) :
  ∃ k : nat, ∀ acc,
    digits acc (pretty_N_go x s)
    = digits (acc * 10 ^ Z.of_nat k + Z.of_N x) s.
Proof.
  revert s. induction (N.lt_wf_0 x) as [x _ IH]. intros s.
  destruct (decide (x = 0%N)) as [-> | Hx].
  - exists 0%nat. intros acc. rewrite pretty_N_go_0. f_equal. lia.
  - assert (0 < x)%N as Hpos by lia.
    rewrite pretty_N_go_step by done.
    destruct (IH (x `div` 10)%N (N.div_lt x 10 Hpos eq_refl)
                (String (pretty_N_char (x `mod` 10)) s)) as [k Hk].
    exists (S k). intros acc. rewrite Hk. simpl digits.
    destruct (pretty_N_char_digit (x `mod` 10)%N) as [-> ->].
    { by apply N.mod_lt. }
    f_equal. rewrite Nat2Z.inj_succ, Z.pow_succ_r by lia.
    assert (Z.of_N x
            = 10 * Z.of_N (x `div` 10) + Z.of_N (x `mod` 10)) as Hdm.
    { pose proof (N.div_mod x 10 ltac:(done)) as E.
      apply (f_equal Z.of_N) in E.
      by rewrite N2Z.inj_add, N2Z.inj_mul in E. }
    rewrite Hdm. ring.
Qed.

Lemma pretty_N_go_head (x : N) (s : string) :
  (0 < x)%N →
  ∃ c rest, pretty_N_go x s = String c rest ∧ is_digit c = true.
Proof.
  revert s. induction (N.lt_wf_0 x) as [x _ IH]. intros s Hpos.
  rewrite pretty_N_go_step by done.
  destruct (decide (x `div` 10 = 0)%N) as [Hq | Hq].
  - rewrite Hq, pretty_N_go_0. eexists _, _. split; [done|].
    apply pretty_N_char_digit. by apply N.mod_lt.
  - apply IH; [by apply N.div_lt | by apply N.neq_0_lt_0].
Qed.

Lemma is_space_digit (c : ascii) : is_digit c = true → is_space c = false.
Proof.
  destruct c as [[] [] [] [] [] [] [] []]; by vm_compute.
Qed.

Lemma parseInt_digit_start (c : ascii) (rest : string) :
  is_digit c = true →
  parseInt (String c rest) = Num (digits 0 (String c rest)).
Proof.
  intros Hc. pose proof (is_space_digit c Hc) as Hs.
  destruct c as [[] [] [] [] [] [] [] []];
    try discriminate Hc; clear Hs Hc; unfold parseInt; simpl skip_space;
    cbv beta iota zeta; simpl starts_with_digit;
    f_equal; apply Z.mul_1_l.
Qed.

Lemma parseInt_minus_digit_start (c : ascii) (rest : string) :
  is_digit c = true →
  parseInt (String "-" (String c rest)) = Num (- digits 0 (String c rest)).
Proof.
  intros Hc. unfold parseInt. simpl skip_space. cbv beta iota zeta.
  simpl starts_with_digit. rewrite Hc. f_equal.
Qed.

Lemma parseInt_pretty_pos (p : positive) :
  parseInt (pretty (N.pos p))
  = Num (Z.pos p)
  ∧ parseInt ("-" +:+ pretty (N.pos p)) = Num (Z.neg p).
Proof.
  unfold pretty, pretty_N. rewrite decide_False by done.
  destruct (pretty_N_go_head (N.pos p) EmptyString) as (c & rest & Heq & Hc);
    [done|].
  destruct (digits_pretty_N_go (N.pos p) EmptyString) as [k Hk].
  specialize (Hk 0). rewrite Heq in Hk |- *.
  assert (digits 0 (String c rest) = Z.pos p) as Hv.
  { rewrite Hk. unfold digits. rewrite Z.mul_0_l. done. }
  split.
  - rewrite parseInt_digit_start by done. by rewrite Hv.
  - change ("-" +:+ String c rest) with (String "-" (String c rest)).
    rewrite parseInt_minus_digit_start by done. by rewrite Hv.
Qed.

(** [parseInt(String(n), 10) = n] for every integer. *)
Lemma parseInt_String (n : Z) : parseInt (String_ n) = Num n.
Proof.
  unfold String_, pretty, pretty_Z. destruct n as [|p|p].
  - reflexivity.
  - apply parseInt_pretty_pos.
  - apply parseInt_pretty_pos.
Qed.

(** *** Numbers above 2^53 *)

Lemma to_double_small (n : Z) : Z.abs n < 2 ^ 53 → to_double n = n.
Proof.
  intros Hn. unfold to_double.
  destruct (decide (Z.abs n = 0)) as [H0|H0].
  - rewrite H0. reflexivity.
  - assert (Z.log2 (Z.abs n) < 53) as Hlog.
    { apply Z.log2_lt_pow2; lia. }
    cbv zeta. rewrite (proj2 (Z.leb_le _ _)); [done | lia].
Qed.

Lemma to_double_large (c : Z) : 2 ^ 53 ≤ c → 2 ^ 53 ≤ to_double c.
Proof.
  intros Hc. unfold to_double.
  assert (0 < c) as Hpos by lia.
  rewrite (Z.abs_eq c) by lia.
  assert (53 ≤ Z.log2 c) as Hlog.
  { apply Z.log2_le_pow2; lia. }
  cbv zeta. rewrite (proj2 (Z.leb_gt _ _)) by lia.
  set (shift := Z.log2 c - 52).
  assert (2 ^ 52 ≤ Z.shiftr c shift) as Hq.
  { rewrite Z.shiftr_div_pow2 by lia.
    apply Z.div_le_lower_bound; [apply Z.pow_pos_nonneg; lia|].
    rewrite <- Z.pow_add_r by lia.
    replace (shift + 52) with (Z.log2 c) by lia.
    apply Z.log2_spec. lia. }
  rewrite Z.sgn_pos by lia. rewrite Z.mul_1_l.
  set (q := Z.shiftr c shift) in *.
  assert (∀ q', q ≤ q' → 2 ^ 53 ≤ Z.shiftl q' shift) as Hall.
  { intros q' Hq'. rewrite Z.shiftl_mul_pow2 by lia.
    assert (2 ^ 1 ≤ 2 ^ shift) by (apply Z.pow_le_mono_r; lia).
    change (2 ^ 53) with (2 ^ 52 * 2 ^ 1). apply Z.mul_le_mono_nonneg; lia. }
  repeat case_match; apply Hall; lia.
Qed.

(** Below 2^53 no other integer denotes the same double. *)
Lemma to_double_safe (c v : Z) :
  0 ≤ c → 0 ≤ v < 2 ^ 53 → to_double c = v → c = v.
Proof.
  intros Hc Hv Hd. destruct (decide (c < 2 ^ 53)) as [Hlt|Hge].
  - rewrite to_double_small in Hd by lia. done.
  - pose proof (to_double_large c ltac:(lia)). lia.
Qed.

Lemma shortest_safe (z : nat) (v : Z) :
  0 ≤ v < 2 ^ 53 → shortest z v = v.
Proof.
  intros Hv. induction z as [|z IH].
  - cbn [shortest].
    set (e := 10 ^ Z.of_nat 0).
    assert (0 < e) as He by (apply Z.pow_pos_nonneg; lia).
    assert (0 ≤ v / e * e) as Hlo.
    { apply Z.mul_nonneg_nonneg; [apply Z.div_pos|]; lia. }
    repeat case_match;
      repeat match goal with
             | H : (_ =? _) = true |- _ => apply Z.eqb_eq in H
             | H : _ && _ = true |- _ => apply andb_prop in H as [? ?]
             end;
      try done; by apply to_double_safe; try lia.
  - cbn [shortest].
    set (e := 10 ^ Z.of_nat (S z)).
    assert (0 < e) as He by (apply Z.pow_pos_nonneg; lia).
    assert (0 ≤ v / e * e) as Hlo.
    { apply Z.mul_nonneg_nonneg; [apply Z.div_pos|]; lia. }
    repeat case_match;
      repeat match goal with
             | H : (_ =? _) = true |- _ => apply Z.eqb_eq in H
             | H : _ && _ = true |- _ => apply andb_prop in H as [? ?]
             end;
      try done; by apply to_double_safe; try lia.
Qed.

(** On a safe integer [String] writes all the digits: there
    [Number_toString] is [String_]. *)
Lemma Number_toString_safe (n : Z) :
  safe_integer n → Number_toString n = String_ n.
Proof.
  unfold safe_integer. intros Hn. unfold Number_toString.
  rewrite to_double_small by lia. cbv zeta.
  destruct (Z.eqb_spec (Z.abs n) 0) as [H0|H0].
  { assert (n = 0) as -> by lia. reflexivity. }
  rewrite (proj2 (Z.leb_gt _ _)).
  2:{ assert (2 ^ 53 < 2 ^ 1024) by (apply Z.pow_lt_mono_r; lia). lia. }
  rewrite shortest_safe by lia.
  rewrite (proj2 (Z.ltb_lt _ _)).
  2:{ assert (2 ^ 53 < 10 ^ 21) by done. lia. }
  unfold String_. destruct n as [|p|p]; [done | done |].
  reflexivity.
Qed.

End JSFacts.

(** * The start height *)

Module StartFacts.
Section start.

Context `{Host}.
Import Net.

Lemma getLastBlockHeight_stored (c : Z) (d : Db.t) :
  Db.getSyncState "last_block_height" d = Some (JS.String_ c) →
  Db.getLastBlockHeight d = Num c.
Proof.
  unfold Db.getLastBlockHeight. intros ->. apply JSFacts.parseInt_String.
Qed.

Lemma getSyncState_set (h : Z) (d : Db.t) :
  Db.getSyncState "last_block_height" (Db.setLastBlockHeight h d)
  = Some (JS.String_ h).
Proof.
  unfold Db.getSyncState, Db.setLastBlockHeight, Db.setSyncState. simpl.
  apply lookup_insert_eq.
Qed.

(** The checkpoint written is the checkpoint read. *)
Lemma getLastBlockHeight_set (h : Z) (d : Db.t) :
  Db.getLastBlockHeight (Db.setLastBlockHeight h d) = Num h.
Proof. apply getLastBlockHeight_stored, getSyncState_set. Qed.

Lemma getLastBlockHeight_absent (d : Db.t) :
  Db.getSyncState "last_block_height" d = None →
  Db.getLastBlockHeight d = Num 0.
Proof. unfold Db.getLastBlockHeight. by intros ->. Qed.

Lemma getStartBlockHeight_saved (reply : TipReply) (s : State) (c : Z) :
  Db.getLastBlockHeight (db s) = Num c → 0 < c →
  Lake.getStartBlockHeight reply s = ([], c + 1, s)
  ∧ LakeSrc.getStartBlockHeight reply s = ([], c + 1, s).
Proof.
  intros Hc Hpos. unfold Lake.getStartBlockHeight, LakeSrc.getStartBlockHeight.
  rewrite Hc. by rewrite (proj2 (Z.ltb_lt 0 c) Hpos).
Qed.

Lemma getStartBlockHeight_unsaved (reply : TipReply) (s : State) :
  JS.gt0 (Db.getLastBlockHeight (db s)) = false →
  Lake.getStartBlockHeight reply s = Lake.start_without_checkpoint reply s
  ∧ LakeSrc.getStartBlockHeight reply s
    = LakeSrc.start_without_checkpoint reply s.
Proof.
  unfold Lake.getStartBlockHeight, LakeSrc.getStartBlockHeight.
  destruct (Db.getLastBlockHeight (db s)) as [c|]; simpl; [|done].
  by intros ->.
Qed.

(** The fall-through does not read the store. *)
Lemma start_without_checkpoint_db (reply : TipReply) (s : State) (d : Db.t) :
  fst (Lake.start_without_checkpoint reply (set_db d s))
  = fst (Lake.start_without_checkpoint reply s).
Proof.
  unfold Lake.start_without_checkpoint, Lake.fetchLatestBlockHeight.
  repeat case_match; done.
Qed.

(** C10. A stored checkpoint of 0 cannot be told from no checkpoint:
    [getLastBlockHeight] gives 0 when there is no row and when the row
    holds 0; [getStartBlockHeight] takes the path without a checkpoint for
    every saved value that is not above 0; so a start on a store without a
    checkpoint row and a start on the same store with checkpoint 0 make the
    same requests and resolve the same height, the configured start or the
    chain tip. *)
Theorem checkpoint_zero_as_absent (reply : TipReply) (s : State) :
  Db.getSyncState "last_block_height" (db s) = None →
  Db.getLastBlockHeight (db s) = Num 0
  ∧ Db.getLastBlockHeight (db (setLastBlockHeight 0 s)) = Num 0
  ∧ (∀ s' : State,
       JS.gt0 (Db.getLastBlockHeight (db s')) = false →
       Lake.getStartBlockHeight reply s'
       = Lake.start_without_checkpoint reply s')
  ∧ fst (Lake.getStartBlockHeight reply (setLastBlockHeight 0 s))
    = fst (Lake.getStartBlockHeight reply s).
Proof.
  intros Hnone.
  pose proof (getLastBlockHeight_absent _ Hnone) as Habs.
  pose proof (getLastBlockHeight_set 0 (db s)) as Hzero.
  split_and!; [done | done | |].
  - intros s' Hs'. by apply getStartBlockHeight_unsaved.
  - rewrite (proj1 (getStartBlockHeight_unsaved reply s
                      ltac:(by rewrite Habs))).
    rewrite (proj1 (getStartBlockHeight_unsaved reply (setLastBlockHeight 0 s)
                      ltac:(simpl; by rewrite Hzero))).
    apply start_without_checkpoint_db.
Qed.




End start.

Lemma checkpoint_zero_as_absent_witness :
  Db.getSyncState "last_block_height" (Net.db Demo.fresh) = None
  ∧ Db.getLastBlockHeight (Net.db Demo.fresh) = Num 0
  ∧ Db.getLastBlockHeight (Net.db (Net.setLastBlockHeight 0 Demo.fresh))
    = Num 0
  ∧ fst (@Lake.getStartBlockHeight Demo.host (Demo.tip 500)
           (Net.setLastBlockHeight 0 Demo.fresh))
    = ([Net.FetchTip], 500).
Proof.
  assert (Db.getSyncState "last_block_height" (Net.db Demo.fresh) = None)
    as Hnone by reflexivity.
  destruct (@checkpoint_zero_as_absent Demo.host (Demo.tip 500) Demo.fresh
              Hnone) as (Ha & Hb & _ & Hd).
  split_and!; [exact Hnone | exact Ha | exact Hb |].
  rewrite Hd. reflexivity.
Defined.



End StartFacts.

(** * The fetcher *)

Module FetchFacts.
Section fetch.

Context `{Host}.
Import Net.

Lemma fetchBlock_outcome (height : Z) (replies : nat → HttpReply) (i : nat) :
  Lake.fetchBlock height (replies i)
  = ([FetchBlock height], Lake.attempt_outcome height replies i).
Proof. reflexivity. Qed.

Lemma fetchBlock_outcome_single (height : Z) (replies : nat → HttpReply)
    (i : nat) :
  LakeSrc.fetchBlock height (replies i)
  = ([FetchBlock height], LakeSrc.attempt_outcome height replies i).
Proof. reflexivity. Qed.

Lemma outcome_cases (r : completion json) :
  r = Normal JNull
  ∨ (∃ v, r = Normal v ∧ is_null v = false)
  ∨ (∃ e, r = Throw e).
Proof. destruct r as [[]|e]; naive_solver. Qed.

Ltac attempts_done E0 E1 E2 :=
  split_and!;
  [ lia | lia
  | let i := fresh "i" in
    intros i ?; destruct i as [|[|[|?]]];
    cbn [Nat.sub] in *; try lia; rewrite ?E0, ?E1, ?E2; simpl;
    congruence
  | intros ?; cbn [Nat.sub] in *; try lia; rewrite ?E0, ?E1, ?E2; simpl;
    congruence
  | cbn [Nat.sub]; rewrite ?E0, ?E1, ?E2; reflexivity
  | reflexivity ].

(** The retrying fetch of the revision with catch-up polling. *)
Lemma fetchBlockWithRetry_catchup (height : Z) (replies : nat → HttpReply) :
  ∃ n : nat,
    (1 ≤ n ≤ Lake.MAX_RETRIES)%nat
    ∧ (∀ i, (i < n - 1)%nat →
         Lake.asks_retry (Lake.attempt_outcome height replies i) = true)
    ∧ ((n < Lake.MAX_RETRIES)%nat →
         Lake.asks_retry (Lake.attempt_outcome height replies (n - 1))
         = false)
    ∧ Lake.fetchBlockWithRetry height replies
      = (Lake.attempts_trace height n,
         Lake.attempt_outcome height replies (n - 1))
    ∧ Lake.count_fetches (Lake.attempts_trace height n) = n.
Proof.
  unfold Lake.fetchBlockWithRetry, Lake.MAX_RETRIES.
  cbn [seq Lake.retry_loop]. rewrite !fetchBlock_outcome.
  destruct (outcome_cases (Lake.attempt_outcome height replies 0))
    as [E0 | [(v0 & E0 & N0) | (e0 & E0)]];
  destruct (outcome_cases (Lake.attempt_outcome height replies 1))
    as [E1 | [(v1 & E1 & N1) | (e1 & E1)]];
  destruct (outcome_cases (Lake.attempt_outcome height replies 2))
    as [E2 | [(v2 & E2 & N2) | (e2 & E2)]];
  rewrite E0, ?E1, ?E2;
  cbn -[Lake.backoff Lake.attempts_trace Lake.attempt_outcome
        Lake.count_fetches];
  rewrite ?N0, ?N1, ?N2;
  cbn -[Lake.backoff Lake.attempts_trace Lake.attempt_outcome
        Lake.count_fetches];
  first [ exists 1%nat; by attempts_done E0 E1 E2
        | exists 2%nat; by attempts_done E0 E1 E2
        | exists 3%nat; by attempts_done E0 E1 E2 ].
Qed.

(** The retrying fetch of the revision with a single poll interval. *)
Lemma fetchBlockWithRetry_single (height : Z) (replies : nat → HttpReply) :
  ∃ n : nat,
    (1 ≤ n ≤ LakeSrc.MAX_RETRIES)%nat
    ∧ (∀ i, (i < n - 1)%nat →
         LakeSrc.asks_retry (LakeSrc.attempt_outcome height replies i) = true)
    ∧ ((n < LakeSrc.MAX_RETRIES)%nat →
         LakeSrc.asks_retry (LakeSrc.attempt_outcome height replies (n - 1))
         = false)
    ∧ LakeSrc.fetchBlockWithRetry height replies
      = (LakeSrc.attempts_trace height n,
         LakeSrc.attempt_outcome height replies (n - 1))
    ∧ Lake.count_fetches (LakeSrc.attempts_trace height n) = n.
Proof.
  unfold LakeSrc.fetchBlockWithRetry, LakeSrc.MAX_RETRIES.
  cbn [seq LakeSrc.retry_loop]. rewrite !fetchBlock_outcome_single.
  destruct (LakeSrc.attempt_outcome height replies 0) as [v0|e0] eqn:E0;
  destruct (LakeSrc.attempt_outcome height replies 1) as [v1|e1] eqn:E1;
  destruct (LakeSrc.attempt_outcome height replies 2) as [v2|e2] eqn:E2;
  cbn -[LakeSrc.backoff LakeSrc.attempts_trace LakeSrc.attempt_outcome
        Lake.count_fetches];
  first [ exists 1%nat; by attempts_done E0 E1 E2
        | exists 2%nat; by attempts_done E0 E1 E2
        | exists 3%nat; by attempts_done E0 E1 E2 ].
Qed.

(** C3, as the code has it. A call of [fetchBlockWithRetry] makes [n]
    attempts with [1 ≤ n ≤ MAX_RETRIES]; every attempt before the last one
    asked for a retry and was followed by a sleep of [RETRY_BASE_MS * 2^i]
    before attempt [i + 1]; the call ends before [MAX_RETRIES] attempts only
    on an outcome that does not ask for a retry; and the caller gets the
    outcome of the last attempt: data, no data, or its exception.  In the
    revision with catch-up polling no data and an exception ask for a
    retry; in the revision with a single poll interval only an exception
    does, and no data is returned at once. *)
Theorem fetchBlockWithRetry_attempts (height : Z) (replies : nat → HttpReply) :
  (∃ n : nat,
     (1 ≤ n ≤ Lake.MAX_RETRIES)%nat
     ∧ (∀ i, (i < n - 1)%nat →
          Lake.asks_retry (Lake.attempt_outcome height replies i) = true)
     ∧ ((n < Lake.MAX_RETRIES)%nat →
          Lake.asks_retry (Lake.attempt_outcome height replies (n - 1))
          = false)
     ∧ Lake.fetchBlockWithRetry height replies
       = (Lake.attempts_trace height n,
          Lake.attempt_outcome height replies (n - 1))
     ∧ Lake.count_fetches (Lake.attempts_trace height n) = n)
  ∧ (∃ n : nat,
       (1 ≤ n ≤ LakeSrc.MAX_RETRIES)%nat
       ∧ (∀ i, (i < n - 1)%nat →
            LakeSrc.asks_retry (LakeSrc.attempt_outcome height replies i)
            = true)
       ∧ ((n < LakeSrc.MAX_RETRIES)%nat →
            LakeSrc.asks_retry
              (LakeSrc.attempt_outcome height replies (n - 1)) = false)
       ∧ LakeSrc.fetchBlockWithRetry height replies
         = (LakeSrc.attempts_trace height n,
            LakeSrc.attempt_outcome height replies (n - 1))
       ∧ Lake.count_fetches (LakeSrc.attempts_trace height n) = n).
Proof.
  split; [apply fetchBlockWithRetry_catchup | apply fetchBlockWithRetry_single].
Qed.

(** C4, as the code has it. In the revision with catch-up polling
    [fetchBlock] returns [null], and raises nothing, on a status other than
    200, on a body that [JSON.parse] rejects, and on a parsed object whose
    [error] member is truthy; the three give the same result, the one a
    missing block gives; an object whose [error] member is absent or falsy
    is returned as data.  In the revision with a single poll interval only
    a status other than 200 gives [null]: a body that does not parse
    raises, and every parsed body is returned as data. *)
Theorem fetchBlock_no_data (height : Z) :
  (∀ (status : Z) (body : completion string),
     status ≠ 200 →
     Lake.fetchBlock height (Response status body)
     = ([FetchBlock height], Normal JNull)
     ∧ LakeSrc.fetchBlock height (Response status body)
       = ([FetchBlock height], Normal JNull))
  ∧ (∀ text : string,
       JSON_parse text = None →
       Lake.fetchBlock height (Response 200 (Normal text))
       = ([FetchBlock height], Normal JNull)
       ∧ LakeSrc.fetchBlock height (Response 200 (Normal text))
         = ([FetchBlock height], Throw "SyntaxError"))
  ∧ (∀ (text : string) (ms : list (string * json)) (e : json),
       JSON_parse text = Some (JObj ms) →
       JS.member "error" ms = Some e → JS.truthy e = true →
       Lake.fetchBlock height (Response 200 (Normal text))
       = ([FetchBlock height], Normal JNull)
       ∧ LakeSrc.fetchBlock height (Response 200 (Normal text))
         = ([FetchBlock height], Normal (JObj ms)))
  ∧ (∀ (text : string) (ms : list (string * json)),
       (2 ≤ String.length text)%nat →
       JSON_parse text = Some (JObj ms) →
       JS.truthy_val (JS.member "error" ms) = false →
       Lake.fetchBlock height (Response 200 (Normal text))
       = ([FetchBlock height], Normal (JObj ms))).
Proof.
  unfold Lake.fetchBlock, LakeSrc.fetchBlock, LakeSrc.res_json. split_and!.
  - intros status body Hs. by rewrite (proj2 (Z.eqb_neq status 200) Hs).
  - intros text Hp. simpl. rewrite Hp. split; [by case_match | done].
  - intros text ms e Hp He Ht. simpl. rewrite Hp. simpl. rewrite He.
    simpl. rewrite Ht. split; [by case_match | done].
  - intros text ms Hlen Hp He. simpl. rewrite Hp. simpl. rewrite He.
    destruct text as [|a [|b text]]; simpl in Hlen; [lia | lia | done].
Qed.

End fetch.

(** C3 as stated fails in two places. In the revision with catch-up
    polling the caller does not always get data or no data: when the last
    attempt raises, its exception is raised again.  In the revision with a
    single poll interval no data does not lead to a sleep and another
    attempt. *)
Lemma fetchBlockWithRetry_other_outcomes :
  ¬ (∀ (H : Host) (height : Z) (replies : nat → Net.HttpReply),
       ∃ v, snd (Lake.fetchBlockWithRetry height replies) = Normal v)
  ∧ ¬ (∀ (H : Host) (height : Z) (replies : nat → Net.HttpReply),
         snd (LakeSrc.fetchBlock height (replies 0%nat)) = Normal JNull →
         Net.Sleep (LakeSrc.backoff 0)
         ∈ fst (LakeSrc.fetchBlockWithRetry height replies)).
Proof.
  split.
  - intros Hclaim.
    destruct (Hclaim Demo.host 7 (λ _, Net.NetworkError "ECONNRESET"))
      as [v Hv].
    vm_compute in Hv. discriminate Hv.
  - intros Hclaim.
    specialize (Hclaim Demo.host 7
                  (λ _, Net.Response 404 (Normal "Not Found")) eq_refl).
    vm_compute in Hclaim. apply list_elem_of_singleton in Hclaim.
    discriminate Hclaim.
Qed.

(** C4 as stated fails for a body whose [error] member is falsy: the
    member is there, and the body is returned as data.  In the revision
    with a single poll interval it fails as well for a body that does not
    parse, which raises. *)
Lemma fetchBlock_falsy_error :
  ¬ (∀ (H : Host) (height : Z) (text : string) (ms : list (string * json))
       (e : json),
       JSON_parse text = Some (JObj ms) →
       JS.member "error" ms = Some e →
       snd (Lake.fetchBlock height (Net.Response 200 (Normal text)))
       = Normal JNull)
  ∧ ¬ (∀ (H : Host) (height : Z) (text : string),
         JSON_parse text = None →
         snd (LakeSrc.fetchBlock height (Net.Response 200 (Normal text)))
         = Normal JNull).
Proof.
  split.
  - intros Hclaim.
    specialize (Hclaim Demo.host 7 (Demo.text "{'error':false}")
                  [("error", JBool false)] (JBool false) eq_refl eq_refl).
    vm_compute in Hclaim. discriminate Hclaim.
  - intros Hclaim.
    specialize (Hclaim Demo.host 7 "<html>" eq_refl).
    vm_compute in Hclaim. discriminate Hclaim.
Qed.

Lemma fetchBlock_no_data_witness :
  @Lake.fetchBlock Demo.host 7 (Net.Response 404 (Normal "Not Found"))
  = ([Net.FetchBlock 7], Normal JNull)
  ∧ @Lake.fetchBlock Demo.host 7 (Net.Response 200 (Normal "<html>"))
    = ([Net.FetchBlock 7], Normal JNull)
  ∧ @Lake.fetchBlock Demo.host 7
      (Net.Response 200 (Normal (Demo.text "{'error':'rate limit'}")))
    = ([Net.FetchBlock 7], Normal JNull)
  ∧ @Lake.fetchBlock Demo.host 7
      (Net.Response 200 (Normal (Demo.text "{'error':false}")))
    = ([Net.FetchBlock 7], Normal (JObj [("error", JBool false)])).
Proof.
  destruct (@fetchBlock_no_data Demo.host 7) as (Hs & Hp & He & Hd).
  split_and!.
  - apply Hs. lia.
  - apply Hp. reflexivity.
  - apply (He _ [("error", JStr "rate limit")] (JStr "rate limit"));
      reflexivity.
  - apply Hd; [simpl; lia | reflexivity | reflexivity].
Defined.

Lemma fetchBlockWithRetry_attempts_witness :
  @Lake.fetchBlockWithRetry Demo.host 7
    (λ i, match i with
          | O => Net.Response 429 (Normal "Too Many Requests")
          | S O => Net.NetworkError "ECONNRESET"
          | _ => Net.Response 200 (Normal (Demo.text "{'block':null}"))
          end)
  = ([Net.FetchBlock 7; Net.Sleep 1000; Net.FetchBlock 7; Net.Sleep 2000;
      Net.FetchBlock 7],
     Normal (JObj [("block", JNull)])).
Proof.
  destruct (@fetchBlockWithRetry_attempts Demo.host 7
              (λ i, match i with
                    | O => Net.Response 429 (Normal "Too Many Requests")
                    | S O => Net.NetworkError "ECONNRESET"
                    | _ => Net.Response 200
                             (Normal (Demo.text "{'block':null}"))
                    end))
    as [(n & Hn & Hretry & Hstop & Hrun & Hcount) _].
  rewrite Hrun. unfold Lake.MAX_RETRIES in Hn, Hstop.
  destruct n as [|[|[|[|n]]]]; try lia.
  - specialize (Hstop ltac:(lia)). vm_compute in Hstop.
    discriminate Hstop.
  - specialize (Hstop ltac:(lia)). vm_compute in Hstop.
    discriminate Hstop.
  - reflexivity.
Defined.

End FetchFacts.

(** * The parser leaves the checkpoint alone *)

Module ParserFrame.
Section frame.

Context `{Host}.

Lemma fold_left_invariant {A B : Type} (P : A → Prop) (f : A → B → A)
    (l : list B) (a : A) :
  (∀ a b, P a → P (f a b)) → P a → P (fold_left f l a).
Proof.
  intros Hf. revert a. induction l as [|b l IH]; simpl; auto.
Qed.

Lemma saveMessage_sync_state (a : Sink.MessageArgs) (d d' : Db.t) :
  Parser.saveMessage a d = Normal d' →
  Db.sync_state d' = Db.sync_state d.
Proof.
  unfold Parser.saveMessage, Db.saveMessage, Db.insertMessage.
  destruct (Sink.typed_message a) as [row|].
  - intros [= <-]. by case_decide.
  - destruct (ill_typed_message a (Db.messages d)); simpl; [|done].
    by intros [= <-].
Qed.

Lemma saveProfile_sync_state (a : Sink.ProfileArgs) (d d' : Db.t) :
  Parser.saveProfile a d = Normal d' →
  Db.sync_state d' = Db.sync_state d.
Proof.
  unfold Parser.saveProfile, Db.saveProfile, Db.upsertProfile.
  destruct (Sink.typed_profile a) as [row|].
  - by intros [= <-].
  - destruct (ill_typed_profile a (Db.profiles d)); simpl; [|done].
    by intros [= <-].
Qed.

Lemma cbind_Normal {A B : Type} (m : completion A) (k : A → completion B)
    (b : B) :
  cbind m k = Normal b → ∃ a, m = Normal a ∧ k a = Normal b.
Proof. destruct m as [a|e]; simpl; [eauto | done]. Qed.

Lemma handle_item_sync_state (event : json) (txHash : string) (h : Z)
    (ts : string) (item : json) (st st' : Parser.state) :
  Parser.handle_item event txHash h ts item st = Normal st' →
  Db.sync_state (fst st') = Db.sync_state (fst st).
Proof.
  destruct st as [d n]. unfold Parser.handle_item.
  intros Hrun. apply cbind_Normal in Hrun as (tag & _ & Hrun).
  repeat case_match;
    repeat (apply cbind_Normal in Hrun as (? & ? & Hrun));
    simplify_eq/=; eauto using saveMessage_sync_state, saveProfile_sync_state.
Qed.

Lemma for_items_sync_state (body : json → Parser.state → completion Parser.state)
    (items : list json) (st : Parser.state) :
  (∀ item st st', body item st = Normal st' →
                  Db.sync_state (fst st') = Db.sync_state (fst st)) →
  Db.sync_state (fst (fst (Parser.for_items body items st)))
  = Db.sync_state (fst st).
Proof.
  intros Hbody. revert st. induction items as [|item items IH]; [done|].
  intros st. simpl. destruct (body item st) as [st'|e] eqn:E; [|done].
  rewrite IH. eauto.
Qed.

Lemma try_event_sync_state (reo : Block.ReceiptExecutionOutcome) (h : Z)
    (ts log : string) (st : Parser.state) :
  Db.sync_state (fst (fst (Parser.try_event reo h ts log st)))
  = Db.sync_state (fst st).
Proof.
  unfold Parser.try_event. repeat case_match; try done.
  apply for_items_sync_state. intros. by eapply handle_item_sync_state.
Qed.

Lemma parseBlock_sync_state (b : Block.NearBlock) (d : Db.t) :
  Db.sync_state (fst (Parser.parseBlock b d)) = Db.sync_state d.
Proof.
  unfold Parser.parseBlock.
  apply (fold_left_invariant
           (λ st, Db.sync_state (fst st) = Db.sync_state d)); [|done].
  intros st shard Hst. unfold Parser.handle_shard.
  destruct (Block.receipt_execution_outcomes shard) as [|reo reos]; [done|].
  apply (fold_left_invariant
           (λ st, Db.sync_state (fst st) = Db.sync_state d)); [|done].
  clear st Hst. intros st r Hst. unfold Parser.handle_outcome.
  case_match; [done|]. destruct (Block.logs _) as [|l ls]; [done|].
  apply (fold_left_invariant
           (λ st, Db.sync_state (fst st) = Db.sync_state d)); [|done].
  clear st Hst. intros st log Hst. unfold Parser.handle_log.
  case_match; [done|]. by rewrite try_event_sync_state.
Qed.

(** Whatever the block data, [parseBlock] does not write [sync_state]. *)
Lemma loop_parseBlock_sync_state (data : json) (d : Db.t) :
  Db.sync_state (fst (Loop.parseBlock data d)) = Db.sync_state d.
Proof.
  unfold Loop.parseBlock. destruct (Block.as_NearBlock data) as [b|].
  - pose proof (parseBlock_sync_state b d) as Hb.
    by destruct (Parser.parseBlock b d).
  - by destruct (ill_shaped_block data _) as [[ms ps] r].
Qed.

End frame.
End ParserFrame.

(** * The polling loop *)

Module LoopFacts.
Section loop.

Context `{Host}.
Import Net.

Lemma refresh_frame (env : Env) (s s0 : State) (t0 : list Effect) :
  Lake.refresh env s = (t0, s0) →
  currentHeight s0 = currentHeight s ∧ db s0 = db s
  ∧ skippedBlocks s0 = skippedBlocks s
  ∧ blocksProcessed s0 = blocksProcessed s.
Proof.
  unfold Lake.refresh, Lake.fetchLatestBlockHeight.
  repeat case_match; intros; simplify_eq/=; done.
Qed.

Lemma refresh_frame_single (env : Env) (s s0 : State) (t0 : list Effect) :
  LakeSrc.refresh env s = (t0, s0) →
  currentHeight s0 = currentHeight s ∧ db s0 = db s
  ∧ skippedBlocks s0 = skippedBlocks s
  ∧ blocksProcessed s0 = blocksProcessed s.
Proof.
  unfold LakeSrc.refresh, LakeSrc.fetchLatestBlockHeight.
  repeat case_match; intros; simplify_eq/=; done.
Qed.

Lemma fetchBlockWithRetry_head (height : Z) (replies : nat → HttpReply) :
  ∃ t r, Lake.fetchBlockWithRetry height replies
         = (FetchBlock height :: t, r).
Proof.
  unfold Lake.fetchBlockWithRetry, Lake.MAX_RETRIES.
  cbn [seq Lake.retry_loop]. unfold Lake.fetchBlock at 1.
  repeat case_match; simplify_eq/=; eauto.
Qed.

Lemma not_at_tip (s0 : State) :
  currentHeight s0 ≤ latestKnownHeight s0 →
  (currentHeight s0 >? latestKnownHeight s0) = false.
Proof. intros Hle. rewrite Z.gtb_ltb. by apply Z.ltb_ge. Qed.

Lemma at_tip (s0 : State) :
  latestKnownHeight s0 < currentHeight s0 →
  (currentHeight s0 >? latestKnownHeight s0) = true.
Proof. intros Hlt. rewrite Z.gtb_ltb. by apply Z.ltb_lt. Qed.

(** An iteration that is not at the tip asks for the block at the current
    height first. *)
Lemma iteration_fetches_current (env : Env) (s s0 : State)
    (t0 : list Effect) :
  Lake.refresh env s = (t0, s0) →
  currentHeight s0 ≤ latestKnownHeight s0 →
  ∃ rest, fst (Lake.iteration env s)
          = t0 ++ FetchBlock (currentHeight s) :: rest.
Proof.
  intros Hr Htip. destruct (refresh_frame _ _ _ _ Hr) as (Hh & _).
  unfold Lake.iteration. rewrite Hr, (not_at_tip _ Htip).
  destruct (fetchBlockWithRetry_head (currentHeight s0) (block_reply env))
    as (t & r & ->). rewrite Hh.
  repeat case_match; simplify_eq/=; eauto.
Qed.

(** *** The four ways through the loop body *)

Lemma iteration_at_tip (env : Env) (s s0 : State) (t0 : list Effect) :
  Lake.refresh env s = (t0, s0) →
  latestKnownHeight s0 < currentHeight s0 →
  ∃ s', Lake.iteration env s
        = (t0 ++ [Sleep Lake.IDLE_INTERVAL_MS; FetchTip], s')
    ∧ currentHeight s' = currentHeight s.
Proof.
  intros Hr Htip. destruct (refresh_frame _ _ _ _ Hr) as (Hh & _).
  unfold Lake.iteration. rewrite Hr, (at_tip _ Htip).
  unfold Lake.fetchLatestBlockHeight.
  repeat case_match; simplify_eq/=; eexists; (split; [reflexivity|done]).
Qed.

Lemma iteration_missing (env : Env) (s s0 : State) (t0 t1 : list Effect) :
  Lake.refresh env s = (t0, s0) →
  currentHeight s0 ≤ latestKnownHeight s0 →
  Lake.fetchBlockWithRetry (currentHeight s0) (block_reply env)
  = (t1, Normal JNull) →
  ∃ s', Lake.iteration env s = (t0 ++ t1, s')
    ∧ currentHeight s' = currentHeight s + 1
    ∧ Db.getLastBlockHeight (db s') = Num (currentHeight s)
    ∧ Db.messages (db s') = Db.messages (db s)
    ∧ Db.profiles (db s') = Db.profiles (db s)
    ∧ skippedBlocks s' = skippedBlocks s + 1
    ∧ blocksProcessed s' = blocksProcessed s.
Proof.
  intros Hr Htip Hfetch.
  destruct (refresh_frame _ _ _ _ Hr) as (Hh & Hdb & Hsk & Hbp).
  unfold Lake.iteration. rewrite Hr, (not_at_tip _ Htip), Hfetch.
  cbn [is_null]. eexists. split; [reflexivity|].
  simpl. rewrite Hh, Hdb, Hsk, Hbp.
  split_and!; try done. apply StartFacts.getLastBlockHeight_set.
Qed.

Lemma iteration_missing_single (env : Env) (s s0 : State)
    (t0 t1 : list Effect) :
  LakeSrc.refresh env s = (t0, s0) →
  currentHeight s0 ≤ latestKnownHeight s0 →
  LakeSrc.fetchBlockWithRetry (currentHeight s0) (block_reply env)
  = (t1, Normal JNull) →
  ∃ s', LakeSrc.iteration env s = (t0 ++ t1, s')
    ∧ currentHeight s' = currentHeight s + 1
    ∧ Db.getLastBlockHeight (db s') = Num (currentHeight s)
    ∧ Db.messages (db s') = Db.messages (db s)
    ∧ Db.profiles (db s') = Db.profiles (db s)
    ∧ skippedBlocks s' = skippedBlocks s + 1
    ∧ blocksProcessed s' = blocksProcessed s.
Proof.
  intros Hr Htip Hfetch.
  destruct (refresh_frame_single _ _ _ _ Hr) as (Hh & Hdb & Hsk & Hbp).
  unfold LakeSrc.iteration. rewrite Hr, (not_at_tip _ Htip), Hfetch.
  cbn [is_null]. eexists. split; [reflexivity|].
  simpl. rewrite Hh, Hdb, Hsk, Hbp.
  split_and!; try done. apply StartFacts.getLastBlockHeight_set.
Qed.

Lemma iteration_failed (env : Env) (s s0 : State) (t0 t1 : list Effect)
    (e : string) :
  Lake.refresh env s = (t0, s0) →
  currentHeight s0 ≤ latestKnownHeight s0 →
  (Lake.fetchBlockWithRetry (currentHeight s0) (block_reply env)
   = (t1, Throw e)
   ∨ ∃ data,
       Lake.fetchBlockWithRetry (currentHeight s0) (block_reply env)
       = (t1, Normal data)
       ∧ is_null data = false
       ∧ snd (Loop.parseBlock data (db s0)) = Throw e) →
  ∃ s', Lake.iteration env s = (t0 ++ t1 ++ [Sleep 5000], s')
    ∧ currentHeight s' = currentHeight s
    ∧ Db.sync_state (db s') = Db.sync_state (db s).
Proof.
  intros Hr Htip Herr.
  destruct (refresh_frame _ _ _ _ Hr) as (Hh & Hdb & _).
  unfold Lake.iteration. rewrite Hr, (not_at_tip _ Htip).
  destruct Herr as [-> | (data & -> & Hnull & Hparse)].
  - eexists. split; [reflexivity|]. by rewrite Hh, Hdb.
  - rewrite Hnull.
    pose proof (ParserFrame.loop_parseBlock_sync_state data (db s0))
      as Hsync.
    destruct (Loop.parseBlock data (db s0)) as [d' r]. simpl in *.
    subst r. eexists. split; [reflexivity|]. simpl.
    by rewrite Hh, Hsync, Hdb.
Qed.

Lemma iteration_failed_single (env : Env) (s s0 : State)
    (t0 t1 : list Effect) (e : string) :
  LakeSrc.refresh env s = (t0, s0) →
  currentHeight s0 ≤ latestKnownHeight s0 →
  (LakeSrc.fetchBlockWithRetry (currentHeight s0) (block_reply env)
   = (t1, Throw e)
   ∨ ∃ data,
       LakeSrc.fetchBlockWithRetry (currentHeight s0) (block_reply env)
       = (t1, Normal data)
       ∧ is_null data = false
       ∧ snd (Loop.parseBlock data (db s0)) = Throw e) →
  ∃ s', LakeSrc.iteration env s = (t0 ++ t1 ++ [Sleep 5000], s')
    ∧ currentHeight s' = currentHeight s
    ∧ Db.sync_state (db s') = Db.sync_state (db s).
Proof.
  intros Hr Htip Herr.
  destruct (refresh_frame_single _ _ _ _ Hr) as (Hh & Hdb & _).
  unfold LakeSrc.iteration. rewrite Hr, (not_at_tip _ Htip).
  destruct Herr as [-> | (data & -> & Hnull & Hparse)].
  - eexists. split; [reflexivity|]. by rewrite Hh, Hdb.
  - rewrite Hnull.
    pose proof (ParserFrame.loop_parseBlock_sync_state data (db s0))
      as Hsync.
    destruct (Loop.parseBlock data (db s0)) as [d' r]. simpl in *.
    subst r. eexists. split; [reflexivity|]. simpl.
    by rewrite Hh, Hsync, Hdb.
Qed.

Lemma iteration_processed (env : Env) (s s0 : State) (t0 t1 : list Effect)
    (data : json) (eventsFound : Z) :
  Lake.refresh env s = (t0, s0) →
  currentHeight s0 ≤ latestKnownHeight s0 →
  Lake.fetchBlockWithRetry (currentHeight s0) (block_reply env)
  = (t1, Normal data) →
  is_null data = false →
  snd (Loop.parseBlock data (db s0)) = Normal eventsFound →
  ∃ s', Lake.iteration env s
        = (t0 ++ t1 ++
           [Sleep (if latestKnownHeight s' - currentHeight s'
                      >? Lake.CATCHUP_THRESHOLD
                   then Lake.CATCHUP_INTERVAL_MS
                   else Lake.POLL_INTERVAL_MS)], s')
    ∧ currentHeight s' = currentHeight s + 1
    ∧ latestKnownHeight s' = latestKnownHeight s0.
Proof.
  intros Hr Htip Hfetch Hnull Hparse.
  destruct (refresh_frame _ _ _ _ Hr) as (Hh & _).
  unfold Lake.iteration. rewrite Hr, (not_at_tip _ Htip), Hfetch, Hnull.
  destruct (Loop.parseBlock data (db s0)) as [d' r]. simpl in Hparse.
  subst r. eexists. split; [reflexivity|].
  case_match; simpl; by rewrite ?Hh.
Qed.

(** After a processed block the revision with a single poll interval
    sleeps [POLL_INTERVAL_MS] whatever the distance to the tip. *)
Lemma iteration_processed_single (env : Env) (s s0 : State)
    (t0 t1 : list Effect) (data : json) (eventsFound : Z) :
  LakeSrc.refresh env s = (t0, s0) →
  currentHeight s0 ≤ latestKnownHeight s0 →
  LakeSrc.fetchBlockWithRetry (currentHeight s0) (block_reply env)
  = (t1, Normal data) →
  is_null data = false →
  snd (Loop.parseBlock data (db s0)) = Normal eventsFound →
  fst (LakeSrc.iteration env s)
  = t0 ++ t1 ++ [Sleep LakeSrc.POLL_INTERVAL_MS].
Proof.
  intros Hr Htip Hfetch Hnull Hparse. unfold LakeSrc.iteration.
  rewrite Hr, (not_at_tip _ Htip), Hfetch, Hnull.
  destruct (Loop.parseBlock data (db s0)) as [d' r]. simpl in Hparse.
  by subst r.
Qed.

(** *** The loop and the checkpoint *)

(** C6. When the retrying fetch of the block at the current height ends
    with [null], the iteration writes the current height as the
    checkpoint and goes on to the next height; it stores no event, and it
    ends without the delay of the error handler: nothing was raised.  Both
    revisions of lake.ts do so. *)
Theorem missing_block_skipped (env : Env) (s s0 : State)
    (t0 t1 : list Effect) :
  currentHeight s0 ≤ latestKnownHeight s0 →
  (Lake.refresh env s = (t0, s0) →
   Lake.fetchBlockWithRetry (currentHeight s0) (block_reply env)
   = (t1, Normal JNull) →
   ∃ s', Lake.iteration env s = (t0 ++ t1, s')
     ∧ currentHeight s' = currentHeight s + 1
     ∧ Db.getLastBlockHeight (db s') = Num (currentHeight s)
     ∧ Db.messages (db s') = Db.messages (db s)
     ∧ Db.profiles (db s') = Db.profiles (db s)
     ∧ skippedBlocks s' = skippedBlocks s + 1
     ∧ blocksProcessed s' = blocksProcessed s)
  ∧ (LakeSrc.refresh env s = (t0, s0) →
     LakeSrc.fetchBlockWithRetry (currentHeight s0) (block_reply env)
     = (t1, Normal JNull) →
     ∃ s', LakeSrc.iteration env s = (t0 ++ t1, s')
       ∧ currentHeight s' = currentHeight s + 1
       ∧ Db.getLastBlockHeight (db s') = Num (currentHeight s)
       ∧ Db.messages (db s') = Db.messages (db s)
       ∧ Db.profiles (db s') = Db.profiles (db s)
       ∧ skippedBlocks s' = skippedBlocks s + 1
       ∧ blocksProcessed s' = blocksProcessed s).
Proof.
  intros Htip. split; intros Hr Hfetch.
  - by apply (iteration_missing env s s0 t0 t1).
  - by apply (iteration_missing_single env s s0 t0 t1).
Qed.

Lemma refresh_running (env : Env) (s s0 : State) (t0 : list Effect) :
  Lake.refresh env s = (t0, s0) → running s0 = running s.
Proof.
  unfold Lake.refresh, Lake.fetchLatestBlockHeight.
  repeat case_match; intros; simplify_eq/=; done.
Qed.

(** A pass that fails leaves [running] as it was. *)
Lemma iteration_failed_running (env : Env) (s s0 : State)
    (t0 t1 : list Effect) (e : string) :
  Lake.refresh env s = (t0, s0) →
  currentHeight s0 ≤ latestKnownHeight s0 →
  (Lake.fetchBlockWithRetry (currentHeight s0) (block_reply env)
   = (t1, Throw e)
   ∨ ∃ data,
       Lake.fetchBlockWithRetry (currentHeight s0) (block_reply env)
       = (t1, Normal data)
       ∧ is_null data = false
       ∧ snd (Loop.parseBlock data (db s0)) = Throw e) →
  running (snd (Lake.iteration env s)) = running s.
Proof.
  intros Hr Htip Herr. pose proof (refresh_running _ _ _ _ Hr) as Hrun.
  unfold Lake.iteration. rewrite Hr, (not_at_tip _ Htip).
  destruct Herr as [-> | (data & -> & Hnull & Hparse)]; [done|].
  rewrite Hnull.
  destruct (Loop.parseBlock data (db s0)) as [d' r]. simpl in *.
  by subst r.
Qed.

(** C1. When the retrying fetch raises (its last attempt failed), or the
    block was fetched and [parseBlock] raises, the iteration ends with the
    fixed delay of 5000 ms, the current height is the same, the
    checkpoint is as it was, and the next iteration that is not at the
    tip asks for the same height again.  The loop makes that iteration:
    while [running] holds and [stopIndexing] was not called, the run of
    [while (running)] goes from the failed pass and its delay to the next
    pass, whose request for a block is for the height that failed. *)
Theorem error_retries_same_height (env : Env) (s s0 : State)
    (t0 t1 : list Effect) (e : string) :
  Lake.refresh env s = (t0, s0) →
  currentHeight s0 ≤ latestKnownHeight s0 →
  (Lake.fetchBlockWithRetry (currentHeight s0) (block_reply env)
   = (t1, Throw e)
   ∨ ∃ data,
       Lake.fetchBlockWithRetry (currentHeight s0) (block_reply env)
       = (t1, Normal data)
       ∧ is_null data = false
       ∧ snd (Loop.parseBlock data (db s0)) = Throw e) →
  ∃ s', Lake.iteration env s = (t0 ++ t1 ++ [Sleep 5000], s')
    ∧ currentHeight s' = currentHeight s
    ∧ Db.sync_state (db s') = Db.sync_state (db s)
    ∧ Db.getLastBlockHeight (db s') = Db.getLastBlockHeight (db s)
    ∧ (∀ (env' : Env) (s0' : State) (t0' : list Effect),
         Lake.refresh env' s' = (t0', s0') →
         currentHeight s0' ≤ latestKnownHeight s0' →
         ∃ rest, fst (Lake.iteration env' s')
                 = t0' ++ FetchBlock (currentHeight s) :: rest)
    ∧ (running s = true →
       stop_requested env = false →
       ∀ (env' : Env) (envs : list Env) (s0' : State) (t0' : list Effect),
         Lake.refresh env' s' = (t0', s0') →
         currentHeight s0' ≤ latestKnownHeight s0' →
         ∃ rest,
           fst (Lake.loop (env :: env' :: envs) s)
           = (t0 ++ t1 ++ [Sleep 5000])
               ++ t0' ++ FetchBlock (currentHeight s) :: rest).
Proof.
  intros Hr Htip Herr.
  pose proof (iteration_failed_running _ _ _ _ _ _ Hr Htip Herr) as Hrun.
  destruct (iteration_failed _ _ _ _ _ _ Hr Htip Herr)
    as (s' & Hit & Hcur & Hsync).
  rewrite Hit in Hrun. simpl in Hrun.
  assert (∀ (env' : Env) (s0' : State) (t0' : list Effect),
            Lake.refresh env' s' = (t0', s0') →
            currentHeight s0' ≤ latestKnownHeight s0' →
            ∃ rest, fst (Lake.iteration env' s')
                    = t0' ++ FetchBlock (currentHeight s) :: rest) as Hnext.
  { intros env' s0' t0' Hr' Htip'. rewrite <- Hcur.
    by eapply iteration_fetches_current. }
  exists s'. split_and!; try done.
  - unfold Db.getLastBlockHeight, Db.getSyncState. by rewrite Hsync.
  - intros Hrunning Hstop env' envs s0' t0' Hr' Htip'.
    destruct (Hnext env' s0' t0' Hr' Htip') as [rest Hrest].
    cbn [Lake.loop]. rewrite Hrunning, Hit, Hstop, Hrun, Hrunning.
    destruct (Lake.iteration env' s') as [t s1]. simpl in Hrest. subst t.
    destruct (Lake.loop envs _) as [t' s3]. cbn [fst].
    exists (rest ++ t'). by rewrite <- !app_assoc.
Qed.

(** C5, as the code has it. At the tip (the current height is above the
    cached tip) an iteration sleeps the idle interval and asks for the tip
    again.  An iteration that processes a block increments the height and
    then sleeps the catch-up interval when the cached tip minus the
    current height is above the threshold, and the poll interval
    otherwise.  An iteration that skips a missing block ends with the
    fetch, without a sleep of its own, and one that fails sleeps 5000 ms.
    The revision with a single poll interval sleeps that interval after
    every processed block. *)
Theorem adaptive_interval (env : Env) (s s0 : State) (t0 : list Effect) :
  Lake.refresh env s = (t0, s0) →
  (latestKnownHeight s0 < currentHeight s0 →
   ∃ s', Lake.iteration env s
         = (t0 ++ [Sleep Lake.IDLE_INTERVAL_MS; FetchTip], s')
     ∧ currentHeight s' = currentHeight s)
  ∧ (currentHeight s0 ≤ latestKnownHeight s0 →
     ∀ (t1 : list Effect) (data : json) (eventsFound : Z),
       Lake.fetchBlockWithRetry (currentHeight s0) (block_reply env)
       = (t1, Normal data) →
       is_null data = false →
       snd (Loop.parseBlock data (db s0)) = Normal eventsFound →
       (∃ s', Lake.iteration env s
              = (t0 ++ t1 ++
                 [Sleep (if latestKnownHeight s' - currentHeight s'
                            >? Lake.CATCHUP_THRESHOLD
                         then Lake.CATCHUP_INTERVAL_MS
                         else Lake.POLL_INTERVAL_MS)], s')
          ∧ currentHeight s' = currentHeight s + 1
          ∧ latestKnownHeight s' = latestKnownHeight s0)
       ∧ ∀ (u0 u1 : list Effect) (r0 : State),
           LakeSrc.refresh env s = (u0, r0) →
           currentHeight r0 ≤ latestKnownHeight r0 →
           LakeSrc.fetchBlockWithRetry (currentHeight r0) (block_reply env)
           = (u1, Normal data) →
           snd (Loop.parseBlock data (db r0)) = Normal eventsFound →
           fst (LakeSrc.iteration env s)
           = u0 ++ u1 ++ [Sleep LakeSrc.POLL_INTERVAL_MS])
  ∧ (currentHeight s0 ≤ latestKnownHeight s0 →
     ∀ t1 : list Effect,
       Lake.fetchBlockWithRetry (currentHeight s0) (block_reply env)
       = (t1, Normal JNull) →
       fst (Lake.iteration env s) = t0 ++ t1)
  ∧ (currentHeight s0 ≤ latestKnownHeight s0 →
     ∀ (t1 : list Effect) (e : string),
       (Lake.fetchBlockWithRetry (currentHeight s0) (block_reply env)
        = (t1, Throw e)
        ∨ ∃ data,
            Lake.fetchBlockWithRetry (currentHeight s0) (block_reply env)
            = (t1, Normal data)
            ∧ is_null data = false
            ∧ snd (Loop.parseBlock data (db s0)) = Throw e) →
       fst (Lake.iteration env s) = t0 ++ t1 ++ [Sleep 5000]).
Proof.
  intros Hr. split_and!.
  - by apply iteration_at_tip.
  - intros Htip t1 data n Hfetch Hnull Hparse. split.
    + by eapply iteration_processed.
    + intros u0 u1 r0 Hr' Htip' Hfetch' Hparse'.
      by apply (iteration_processed_single env s r0 u0 u1 data n).
  - intros Htip t1 Hfetch.
    destruct (iteration_missing _ _ _ _ _ Hr Htip Hfetch) as (s' & -> & _).
    done.
  - intros Htip t1 e Herr.
    destruct (iteration_failed _ _ _ _ _ _ Hr Htip Herr) as (s' & -> & _).
    done.
Qed.

End loop.

(** C5 as stated fails on an iteration that skips a missing block: away
    from the tip, its last effect is the third request for the block, not a
    sleep of the catch-up or the poll interval. *)
Lemma interval_not_on_every_iteration :
  ¬ (∀ (H : Host) (env : Net.Env) (s s0 : Net.State) (t0 : list Net.Effect),
       Lake.refresh env s = (t0, s0) →
       Net.currentHeight s0 ≤ Net.latestKnownHeight s0 →
       last (fst (Lake.iteration env s))
       = Some (Net.Sleep Lake.CATCHUP_INTERVAL_MS)
       ∨ last (fst (Lake.iteration env s))
         = Some (Net.Sleep Lake.POLL_INTERVAL_MS)).
Proof.
  intros Hclaim.
  destruct (Hclaim Demo.host Demo.env_missing Demo.behind Demo.behind []
              eq_refl ltac:(simpl; lia)) as [Hlast | Hlast];
    vm_compute in Hlast; discriminate Hlast.
Qed.

Lemma missing_block_skipped_witness :
  ∃ s', @Lake.iteration Demo.host Demo.env_missing Demo.behind
        = ([Net.FetchBlock 100; Net.Sleep 1000; Net.FetchBlock 100;
            Net.Sleep 2000; Net.FetchBlock 100], s')
    ∧ Net.currentHeight s' = 101
    ∧ Db.getLastBlockHeight (Net.db s') = Num 100.
Proof.
  destruct (@missing_block_skipped Demo.host Demo.env_missing Demo.behind
              Demo.behind []
              [Net.FetchBlock 100; Net.Sleep 1000; Net.FetchBlock 100;
               Net.Sleep 2000; Net.FetchBlock 100]
              ltac:(simpl; lia)) as [Hskip _].
  destruct (Hskip eq_refl eq_refl) as (s' & Hit & Hh & Hck & _).
  exists s'. split_and!; [exact Hit | exact Hh | exact Hck].
Defined.

Lemma error_retries_same_height_witness :
  (* the fetch raises on its last attempt *)
  (∃ s', @Lake.iteration Demo.host Demo.env_down Demo.behind
         = ([Net.FetchBlock 100; Net.Sleep 1000; Net.FetchBlock 100;
             Net.Sleep 2000; Net.FetchBlock 100; Net.Sleep 5000], s')
     ∧ Net.currentHeight s' = 100
     ∧ Db.getLastBlockHeight (Net.db s') = Num 0)
  (* the parser raises *)
  ∧ (∃ s', @Lake.iteration Demo.host Demo.env_not_a_block Demo.behind
           = ([Net.FetchBlock 100; Net.Sleep 5000], s')
       ∧ Net.currentHeight s' = 100
       ∧ Db.getLastBlockHeight (Net.db s') = Num 0)
  (* the loop, over two passes: the second asks for block 100 again *)
  ∧ (∃ rest,
       fst (@Lake.loop Demo.host [Demo.env_down; Demo.env_down] Demo.behind)
       = [Net.FetchBlock 100; Net.Sleep 1000; Net.FetchBlock 100;
          Net.Sleep 2000; Net.FetchBlock 100; Net.Sleep 5000]
           ++ [] ++ Net.FetchBlock 100 :: rest)
  ∧ @Lake.loop Demo.host [Demo.env_not_a_block; Demo.env_down] Demo.behind
    = ([Net.FetchBlock 100; Net.Sleep 5000;
        Net.FetchBlock 100; Net.Sleep 1000; Net.FetchBlock 100;
        Net.Sleep 2000; Net.FetchBlock 100; Net.Sleep 5000],
       Demo.behind).
Proof.
  split_and!.
  - destruct (@error_retries_same_height Demo.host Demo.env_down
                Demo.behind Demo.behind []
                [Net.FetchBlock 100; Net.Sleep 1000; Net.FetchBlock 100;
                 Net.Sleep 2000; Net.FetchBlock 100] "ECONNRESET"
                eq_refl ltac:(simpl; lia) (or_introl eq_refl))
      as (s' & Hit & Hh & _ & Hck & _).
    exists s'. split_and!; [exact Hit | exact Hh | exact Hck].
  - destruct (@error_retries_same_height Demo.host Demo.env_not_a_block
                Demo.behind Demo.behind [] [Net.FetchBlock 100] "TypeError"
                eq_refl ltac:(simpl; lia)
                (or_intror (ex_intro _ (JObj [("height", JNum 100)])
                              (conj eq_refl (conj eq_refl eq_refl)))))
      as (s' & Hit & Hh & _ & Hck & _).
    exists s'. split_and!; [exact Hit | exact Hh | exact Hck].
  - destruct (@error_retries_same_height Demo.host Demo.env_down
                Demo.behind Demo.behind []
                [Net.FetchBlock 100; Net.Sleep 1000; Net.FetchBlock 100;
                 Net.Sleep 2000; Net.FetchBlock 100] "ECONNRESET"
                eq_refl ltac:(simpl; lia) (or_introl eq_refl))
      as (s' & Hit & _ & _ & _ & _ & Hloop).
    injection Hit as <-.
    exact (Hloop eq_refl eq_refl Demo.env_down [] Demo.behind [] eq_refl
             ltac:(simpl; lia)).
  - reflexivity.
Defined.

Lemma adaptive_interval_witness :
  (* far behind the tip: 300 - 101 > 100 *)
  (∃ s', @Lake.iteration Demo.host Demo.env_block Demo.behind
         = ([Net.FetchBlock 100; Net.Sleep 50], s'))
  (* near the tip: 150 - 101 <= 100 *)
  ∧ (∃ s', @Lake.iteration Demo.host Demo.env_block Demo.near_tip
           = ([Net.FetchBlock 100; Net.Sleep 350], s'))
  (* past the tip: 100 > 99 *)
  ∧ (∃ s', @Lake.iteration Demo.host Demo.env_block Demo.past_tip
           = ([Net.Sleep 1000; Net.FetchTip], s'))
  (* a missing block *)
  ∧ fst (@Lake.iteration Demo.host Demo.env_missing Demo.behind)
    = [Net.FetchBlock 100; Net.Sleep 1000; Net.FetchBlock 100;
       Net.Sleep 2000; Net.FetchBlock 100]
  (* data that is not a block *)
  ∧ fst (@Lake.iteration Demo.host Demo.env_not_a_block Demo.behind)
    = [Net.FetchBlock 100; Net.Sleep 5000].
Proof.
  split_and!.
  - destruct (@adaptive_interval Demo.host Demo.env_block Demo.behind
                Demo.behind [] eq_refl) as (_ & Hbehind & _).
    destruct (Hbehind ltac:(simpl; lia) [Net.FetchBlock 100]
                (default JNull (JsonText.parse Demo.block_text)) 1
                eq_refl eq_refl eq_refl) as [(s' & Hit & Hh & Htip) _].
    exists s'. rewrite Hit, Hh, Htip. reflexivity.
  - destruct (@adaptive_interval Demo.host Demo.env_block Demo.near_tip
                Demo.near_tip [] eq_refl) as (_ & Hnear & _).
    destruct (Hnear ltac:(simpl; lia) [Net.FetchBlock 100]
                (default JNull (JsonText.parse Demo.block_text)) 1
                eq_refl eq_refl eq_refl) as [(s' & Hit & Hh & Htip) _].
    exists s'. rewrite Hit, Hh, Htip. reflexivity.
  - destruct (@adaptive_interval Demo.host Demo.env_block Demo.past_tip
                Demo.past_tip [] eq_refl) as (Hpast & _).
    destruct (Hpast ltac:(simpl; lia)) as (s' & Hit & _).
    exists s'. exact Hit.
  - destruct (@adaptive_interval Demo.host Demo.env_missing Demo.behind
                Demo.behind [] eq_refl) as (_ & _ & Hmiss & _).
    apply (Hmiss ltac:(simpl; lia)
             [Net.FetchBlock 100; Net.Sleep 1000; Net.FetchBlock 100;
              Net.Sleep 2000; Net.FetchBlock 100] eq_refl).
  - destruct (@adaptive_interval Demo.host Demo.env_not_a_block Demo.behind
                Demo.behind [] eq_refl) as (_ & _ & _ & Hfail).
    apply (Hfail ltac:(simpl; lia) [Net.FetchBlock 100] "TypeError").
    right. exists (JObj [("height", JNum 100)]). by split_and!.
Defined.

End LoopFacts.

(** * The parser *)

Module ParserFacts.
Section facts.

Context `{Host}.

Lemma fold_left_bind {A B C : Type} (f : A → C → A) (g : B → list C)
    (l : list B) (a : A) :
  fold_left f (l ≫= g) a = fold_left (λ a x, fold_left f (g x) a) l a.
Proof.
  revert a. induction l as [|x l IH]; intros a; [done|].
  rewrite bind_cons, fold_left_app. simpl. apply IH.
Qed.

Lemma fold_left_ext {A B : Type} (f g : A → B → A) (l : list B) (a : A) :
  (∀ a b, f a b = g a b) → fold_left f l a = fold_left g l a.
Proof.
  intros Hfg. revert a. induction l as [|b l IH]; intros a; [done|].
  simpl. by rewrite Hfg, IH.
Qed.

Lemma handle_logs_lines (reo : Block.ReceiptExecutionOutcome) (h : Z)
    (ts : string) (logs : list string) (st : Parser.state) :
  fold_left (Parser.handle_log reo h ts) logs st
  = fold_left (Parser.handle_line h ts)
      ((λ log, (reo, log))
         <$> filter (λ log, JS.startsWith log Parser.marker = true) logs)
      st.
Proof.
  revert st. induction logs as [|log logs IH]; intros st; [done|].
  simpl. rewrite IH. unfold Parser.handle_log, Parser.handle_line.
  rewrite filter_cons.
  destruct (JS.startsWith log Parser.marker) eqn:E; simpl; done.
Qed.

Lemma handle_outcome_lines (h : Z) (ts : string) (st : Parser.state)
    (reo : Block.ReceiptExecutionOutcome) :
  Parser.handle_outcome h ts st reo
  = fold_left (Parser.handle_line h ts) (Parser.outcome_lines reo) st.
Proof.
  unfold Parser.handle_outcome, Parser.outcome_lines.
  destruct (String.eqb _ Parser.CONTRACT_ID); cbn [negb]; [|done].
  rewrite <- handle_logs_lines.
  by destruct (Block.logs _) as [|log logs].
Qed.

Lemma handle_shard_lines (h : Z) (ts : string) (st : Parser.state)
    (shard : Block.Shard) :
  Parser.handle_shard h ts st shard
  = fold_left (Parser.handle_line h ts)
      (Block.receipt_execution_outcomes shard ≫= Parser.outcome_lines) st.
Proof.
  unfold Parser.handle_shard. rewrite fold_left_bind.
  destruct (Block.receipt_execution_outcomes shard) as [|reo reos] eqn:E;
    [done|].
  apply fold_left_ext. intros. apply handle_outcome_lines.
Qed.

(** The three nested loops visit the event log lines one after the other,
    each from the state the one before left. *)
Lemma parseBlock_lines (b : Block.NearBlock) (db : Db.t) :
  Parser.parseBlock b db
  = fold_left
      (Parser.handle_line (Block.height (Block.header b))
         (JS.Number_toString (Block.timestamp (Block.header b))))
      (Parser.event_lines b) (db, 0).
Proof.
  unfold Parser.parseBlock, Parser.event_lines. rewrite fold_left_bind.
  apply fold_left_ext. intros. apply handle_shard_lines.
Qed.

Lemma handle_line_malformed (h : Z) (ts : string) (st : Parser.state)
    (line : Block.ReceiptExecutionOutcome * string) :
  Parser.malformed line → Parser.handle_line h ts st line = st.
Proof.
  unfold Parser.malformed, Parser.handle_line, Parser.try_event.
  by intros ->.
Qed.

(** The three cases of the [switch], on an item whose fields have the
    declared types, and a tag outside them. *)
Lemma handle_item_message_sent (event item : json) (txHash : string)
    (h : Z) (ts : string) (a : Sink.MessageArgs) (row : Db.DbMessage)
    (db : Db.t) (n : Z) :
  JS.prop event "event" = Normal (Some (JStr "message_sent")) →
  Parser.message_args txHash h ts "message_sent" false item = Normal a →
  Sink.typed_message a = Some row →
  Parser.handle_item event txHash h ts item (db, n)
  = Normal (Db.saveMessage row db, n + 1).
Proof.
  intros Htag Ha Hrow. unfold Parser.handle_item. rewrite Htag. simpl.
  rewrite Ha. simpl. unfold Parser.saveMessage. by rewrite Hrow.
Qed.

Lemma handle_item_message_sent_with_payment (event item : json)
    (txHash : string) (h : Z) (ts : string) (a : Sink.MessageArgs)
    (row : Db.DbMessage) (db : Db.t) (n : Z) :
  JS.prop event "event"
  = Normal (Some (JStr "message_sent_with_payment")) →
  Parser.message_args txHash h ts "message_sent_with_payment" true item
  = Normal a →
  Sink.typed_message a = Some row →
  Parser.handle_item event txHash h ts item (db, n)
  = Normal (Db.saveMessage row db, n + 1).
Proof.
  intros Htag Ha Hrow. unfold Parser.handle_item. rewrite Htag. simpl.
  rewrite Ha. simpl. unfold Parser.saveMessage. by rewrite Hrow.
Qed.

Lemma handle_item_key_registered (event item : json) (txHash : string)
    (h : Z) (ts : string) (a : Sink.ProfileArgs) (row : Db.DbProfile)
    (db : Db.t) (n : Z) :
  JS.prop event "event" = Normal (Some (JStr "key_registered")) →
  Parser.profile_args ts item = Normal a →
  Sink.typed_profile a = Some row →
  Parser.handle_item event txHash h ts item (db, n)
  = Normal (Db.saveProfile row db, n + 1).
Proof.
  intros Htag Ha Hrow. unfold Parser.handle_item. rewrite Htag. simpl.
  rewrite Ha. simpl. unfold Parser.saveProfile. by rewrite Hrow.
Qed.

Lemma handle_item_other_tag (event item : json) (txHash : string)
    (h : Z) (ts : string) (tag : jsval) (st : Parser.state) :
  JS.prop event "event" = Normal tag →
  JS.strict_eq_str tag "message_sent" = false →
  JS.strict_eq_str tag "message_sent_with_payment" = false →
  JS.strict_eq_str tag "key_registered" = false →
  Parser.handle_item event txHash h ts item st = Normal st.
Proof.
  intros Htag H1 H2 H3. destruct st as [db n].
  unfold Parser.handle_item. rewrite Htag. simpl. by rewrite H1, H2, H3.
Qed.

Lemma handle_item_recognized (event item : json) (txHash : string)
    (h : Z) (ts : string) (op : Parser.Stored) (db : Db.t) (n : Z) :
  Parser.recognized event txHash h ts item op →
  Parser.handle_item event txHash h ts item (db, n)
  = Normal (Parser.apply_stored db op, n + 1).
Proof.
  intros [a row Htag Ha Hrow | a row Htag Ha Hrow | a row Htag Ha Hrow];
    simpl.
  - by eapply handle_item_message_sent.
  - by eapply handle_item_message_sent_with_payment.
  - by eapply handle_item_key_registered.
Qed.

Lemma handle_line_event (h : Z) (ts : string) (db : Db.t) (n : Z)
    (line : Block.ReceiptExecutionOutcome * string) (op : Parser.Stored) :
  Parser.line_event h ts line op →
  Parser.handle_line h ts (db, n) line = (Parser.apply_stored db op, n + 1).
Proof.
  intros (event & item & Hparse & Hstd & Hdata & Hitem).
  pose proof (handle_item_recognized _ _ _ _ _ _ db n Hitem) as Hrun.
  unfold Parser.handle_line, Parser.try_event.
  rewrite Hparse, Hstd.
  change (JS.strict_eq_str (Some (JStr "whisper")) "whisper") with true.
  cbn [negb]. rewrite Hdata. cbn [cbind Parser.iterate Parser.for_items].
  by rewrite Hrun.
Qed.

Lemma handle_lines_events (h : Z) (ts : string)
    (lines : list (Block.ReceiptExecutionOutcome * string))
    (ops : list Parser.Stored) (db : Db.t) (n : Z) :
  Forall2 (Parser.line_event h ts) lines ops →
  fold_left (Parser.handle_line h ts) lines (db, n)
  = (fold_left Parser.apply_stored ops db, n + Z.of_nat (length ops)).
Proof.
  intros Hall. revert db n.
  induction Hall as [|line op lines ops Hline _ IH]; intros db n.
  - simpl. f_equal. lia.
  - simpl fold_left. rewrite (handle_line_event _ _ _ _ _ _ Hline), IH.
    f_equal. simpl length. lia.
Qed.

Lemma apply_stored_row_count (db : Db.t) (op : Parser.Stored) :
  Parser.not_stored db op →
  Parser.row_count (Parser.apply_stored db op) = S (Parser.row_count db).
Proof.
  destruct op as [row|row]; unfold Parser.row_count; simpl; intros Hnew.
  - unfold Db.saveMessage. rewrite DbFacts.insertMessage_fresh by done.
    unfold Db.insertMessage. rewrite decide_False by done. simpl.
    rewrite length_app. simpl. lia.
  - unfold Db.saveProfile, Db.upsertProfile. simpl. rewrite Hnew.
    rewrite map_size_insert_None by done. lia.
Qed.

Lemma apply_stored_not_stored (db : Db.t) (op op' : Parser.Stored) :
  Parser.stored_id op ≠ Parser.stored_id op' →
  Parser.not_stored db op' →
  Parser.not_stored (Parser.apply_stored db op) op'.
Proof.
  destruct op as [row|row], op' as [row'|row']; simpl; intros Hne Hnew.
  - unfold Db.saveMessage, Db.insertMessage. case_decide; [done|].
    unfold Db.keys in *. simpl. rewrite fmap_app. simpl.
    rewrite elem_of_app, list_elem_of_singleton. intros [?|?]; [done|].
    congruence.
  - unfold Db.saveMessage, Db.insertMessage. by case_decide.
  - done.
  - unfold Db.saveProfile, Db.upsertProfile. simpl.
    rewrite lookup_insert_ne; [done | congruence].
Qed.

(** Sink calls for rows that are new and differ from each other add one
    row each. *)
Lemma apply_all_row_count (ops : list Parser.Stored) (db : Db.t) :
  NoDup (Parser.stored_id <$> ops) →
  Forall (Parser.not_stored db) ops →
  Parser.row_count (fold_left Parser.apply_stored ops db)
  = (Parser.row_count db + length ops)%nat.
Proof.
  revert db. induction ops as [|op ops IH]; intros db Hnd Hnew.
  - simpl. lia.
  - rewrite fmap_cons in Hnd. apply NoDup_cons in Hnd as [Hop Hnd].
    apply Forall_cons in Hnew as [Hnew Hrest].
    simpl fold_left. rewrite IH; [| done |].
    + rewrite apply_stored_row_count by done. simpl. lia.
    + rewrite Forall_forall in Hrest |- *. intros op' Hin.
      apply apply_stored_not_stored; [|by apply Hrest].
      intros Heq. apply Hop. rewrite Heq. by apply list_elem_of_fmap_2.
Qed.

(** C7. [parseBlock] handles the event log lines of a block one after the
    other, each from the state the line before left, and returns: nothing
    a line does ends the traversal.  A line whose text after the marker is
    not JSON changes neither the store nor the count.  So for a block
    with N event log lines, one of them malformed and each of the others
    carrying one recognized event, the store is the result of the N - 1
    sink calls of the other lines, in order, and the count is N - 1; when
    these events are for rows that are new and differ from each other, the
    store has N - 1 rows more. *)
Theorem parse_isolation (b : Block.NearBlock) (db : Db.t) :
  let h := Block.height (Block.header b) in
  let ts := JS.Number_toString (Block.timestamp (Block.header b)) in
  Parser.parseBlock b db
  = fold_left (Parser.handle_line h ts) (Parser.event_lines b) (db, 0)
  ∧ (∀ st line,
       Parser.malformed line → Parser.handle_line h ts st line = st)
  ∧ (∀ l1 bad l2 ops,
       Parser.event_lines b = l1 ++ bad :: l2 →
       Parser.malformed bad →
       Forall2 (Parser.line_event h ts) (l1 ++ l2) ops →
       Parser.parseBlock b db
       = (fold_left Parser.apply_stored ops db,
          Z.of_nat (length (Parser.event_lines b)) - 1)
       ∧ length ops = (length (Parser.event_lines b) - 1)%nat
       ∧ (NoDup (Parser.stored_id <$> ops) →
          Forall (Parser.not_stored db) ops →
          Parser.row_count (fst (Parser.parseBlock b db))
          = (Parser.row_count db + (length (Parser.event_lines b) - 1))%nat)).
Proof.
  intros h ts. split_and!.
  - apply parseBlock_lines.
  - intros st line. apply handle_line_malformed.
  - intros l1 bad l2 ops Hlines Hbad Hgood.
    pose proof (Forall2_length _ _ _ Hgood) as Hlen.
    rewrite parseBlock_lines. fold h ts. rewrite Hlines.
    apply Forall2_app_inv_l in Hgood as (ops1 & ops2 & H1 & H2 & ->).
    rewrite fold_left_app. simpl fold_left.
    rewrite (handle_lines_events _ _ _ _ _ _ H1).
    rewrite (handle_line_malformed _ _ _ _ Hbad).
    rewrite (handle_lines_events _ _ _ _ _ _ H2).
    rewrite <- fold_left_app. rewrite !length_app in *. simpl length.
    split_and!; [f_equal; lia | lia |].
    intros Hnd Hnew. simpl fst. rewrite apply_all_row_count by done.
    rewrite length_app. lia.
Qed.

End facts.

Lemma parse_isolation_witness :
  length (@Parser.event_lines Demo.host Demo.block3) = 3%nat
  ∧ @Parser.parseBlock Demo.host Demo.block3 Db.empty
    = ({| Db.messages :=
            [ {| Db.tx_hash := "9xTqn";
                 Db.block_height := 100000000;
                 Db.timestamp_ns := "1700000000000000000";
                 Db.event_type := "message_sent";
                 Db.sender := "a.near";
                 Db.recipient := "b.near";
                 Db.encrypted_body := "c2VjcmV0";
                 Db.nonce := "bm9uY2U=";
                 Db.recipient_key_version := 1;
                 Db.reply_to := None;
                 Db.amount := None |} ];
          Db.profiles :=
            {[ "a.near" :=
                 {| Db.account_id := "a.near";
                    Db.x25519_pubkey := "K1";
                    Db.key_version := 1;
                    Db.display_name := None;
                    Db.registered_at := "1700000000000000000" |} ]};
          Db.sync_state := ∅ |}, 2).
Proof.
  split; [reflexivity |].
  destruct (@parse_isolation Demo.host Demo.block3 Db.empty)
    as (_ & _ & Hiso).
  destruct (Hiso [(Demo.outcome3, Demo.message_log)]
              (Demo.outcome3, Demo.broken_log)
              [(Demo.outcome3, Demo.profile_log)]
              [Parser.StoreMessage
                 {| Db.tx_hash := "9xTqn";
                    Db.block_height := 100000000;
                    Db.timestamp_ns := "1700000000000000000";
                    Db.event_type := "message_sent";
                    Db.sender := "a.near";
                    Db.recipient := "b.near";
                    Db.encrypted_body := "c2VjcmV0";
                    Db.nonce := "bm9uY2U=";
                    Db.recipient_key_version := 1;
                    Db.reply_to := None;
                    Db.amount := None |};
               Parser.StoreProfile
                 {| Db.account_id := "a.near";
                    Db.x25519_pubkey := "K1";
                    Db.key_version := 1;
                    Db.display_name := None;
                    Db.registered_at := "1700000000000000000" |}])
    as [Hrun _].
  - reflexivity.
  - reflexivity.
  - repeat constructor.
    + eexists _, _. split_and!; [reflexivity | reflexivity | reflexivity |].
      eapply Parser.recognized_message_sent; reflexivity.
    + eexists _, _. split_and!; [reflexivity | reflexivity | reflexivity |].
      eapply Parser.recognized_key_registered; reflexivity.
  - rewrite Hrun. reflexivity.
Defined.

End ParserFacts.

(** * Sequences of writes to the store *)

Module StoreFacts.

Import Db Store.

(** X1. The checkpoint written is the checkpoint read, for every height
    that is a safe integer: [getLastBlockHeight] after
    [setLastBlockHeight(h)] is [h], and the row holds the numeral that
    [String] writes for [h].  A later write replaces an earlier one, and
    the write touches nothing but the [last_block_height] row of
    [sync_state].  (The bound is needed: from 10^21 on [String] writes an
    exponent, of which [parseInt] reads the first digits only.) *)
Theorem checkpoint_round_trip (h h' : Z) (db : t) :
  JS.safe_integer h →
  getLastBlockHeight (setLastBlockHeight h db) = Num h
  ∧ getSyncState "last_block_height" (setLastBlockHeight h db)
    = Some (JS.Number_toString h)
  ∧ setLastBlockHeight h (setLastBlockHeight h' db) = setLastBlockHeight h db
  ∧ messages (setLastBlockHeight h db) = messages db
  ∧ profiles (setLastBlockHeight h db) = profiles db
  ∧ ∀ k, k ≠ "last_block_height" →
         getSyncState k (setLastBlockHeight h db) = getSyncState k db.
Proof.
  intros Hsafe. split_and!; try done.
  2:{ unfold getSyncState, setLastBlockHeight, setSyncState. simpl.
      by rewrite lookup_insert_eq, JSFacts.Number_toString_safe. }
  - unfold getLastBlockHeight, getSyncState, setLastBlockHeight, setSyncState.
    simpl. rewrite lookup_insert_eq. apply JSFacts.parseInt_String.
  - unfold setLastBlockHeight, setSyncState. simpl. f_equal.
    apply insert_insert_eq.
  - intros k Hk. unfold getSyncState, setLastBlockHeight, setSyncState.
    simpl. by rewrite lookup_insert_ne.
Qed.

Lemma run_app (ws1 ws2 : list Write) (db : t) :
  run (ws1 ++ ws2) db = run ws2 (run ws1 db).
Proof. apply fold_left_app. Qed.

Lemma write_messages (w : Write) (db : t) :
  messages (write db w) = messages db
  ∨ ∃ msg, w = SaveMessage msg ∧ (msg_key msg ∉ keys db)
           ∧ messages (write db w) = (messages db ++ [msg]).
Proof.
  destruct w as [msg|p|h]; simpl; [|by left..].
  unfold saveMessage, insertMessage. case_decide; [by left|].
  right. by exists msg.
Qed.

(** X2. Whatever sequence of [saveMessage], [saveProfile] and
    [setLastBlockHeight] calls is made, the rows that [messages] held
    stay, unchanged and in their order, at the front of the table; the
    UNIQUE constraint goes on holding; and every row of the table was
    there before or is the row of one of the [saveMessage] calls. *)
Theorem messages_append_only (ws : list Write) (db : t) :
  (messages db) `prefix_of` (messages (run ws db))
  ∧ (NoDup (keys db) → NoDup (keys (run ws db)))
  ∧ (∀ m, m ∈ messages (run ws db) →
          m ∈ messages db ∨ SaveMessage m ∈ ws).
Proof.
  revert db. induction ws as [|w ws IH]; intros db.
  - simpl. split_and!; [done | done | auto].
  - change (run (w :: ws) db) with (run ws (write db w)).
    destruct (IH (write db w)) as (Hpre & Hnd & Hin).
    destruct (write_messages w db) as [Hsame | (msg & -> & Hfresh & Happ)].
    + unfold keys in *. rewrite Hsame in *. split_and!; [done | done |].
      intros m Hm. destruct (Hin m Hm) as [?|?]; [by left|].
      right. by right.
    + split_and!.
      * etrans; [|done]. rewrite Happ. by apply prefix_app_r.
      * intros Hnodup. apply Hnd. simpl.
        by apply DbFacts.insertMessage_unique.
      * intros m Hm. destruct (Hin m Hm) as [Hm' | Hm']; [|right; by right].
        rewrite Happ in Hm'. apply elem_of_app in Hm' as [?|Hm'];
          [by left|].
        apply list_elem_of_singleton in Hm' as ->. right. by left.
Qed.

Lemma write_profile_kept (w : Write) (db : t) (a : string) (p : DbProfile) :
  getProfile a db = Some p →
  ∃ p', getProfile a (write db w) = Some p'
    ∧ registered_at p' = registered_at p
    ∧ account_id p' = account_id p.
Proof.
  intros Hp. destruct w as [msg|q|h]; simpl.
  - exists p. unfold saveMessage, insertMessage. by case_decide.
  - unfold saveProfile. destruct (decide (a = account_id q)) as [-> | Hne].
    + rewrite (DbFacts.upsertProfile_conflict q p db Hp). eauto.
    + rewrite DbFacts.upsertProfile_other by done. eauto.
  - by exists p.
Qed.

Lemma write_profile_other (w : Write) (db : t) (a : string) :
  ¬ registers a w → getProfile a (write db w) = getProfile a db.
Proof.
  intros Hw. destruct w as [msg|q|h]; simpl.
  - unfold saveMessage, insertMessage. by case_decide.
  - apply DbFacts.upsertProfile_other. naive_solver.
  - done.
Qed.

Lemma run_profile_kept (ws : list Write) (db : t) (a : string)
    (p : DbProfile) :
  getProfile a db = Some p →
  ∃ p', getProfile a (run ws db) = Some p'
    ∧ registered_at p' = registered_at p
    ∧ account_id p' = account_id p.
Proof.
  revert db p. induction ws as [|w ws IH]; intros db p Hp; [by exists p|].
  destruct (write_profile_kept w db a p Hp) as (p1 & Hp1 & Hr1 & Ha1).
  destruct (IH (write db w) p1 Hp1) as (p' & Hp' & Hr' & Ha').
  exists p'. split_and!; [done | congruence | congruence].
Qed.

Lemma run_profile_other (ws : list Write) (db : t) (a : string) :
  Forall (λ w, ¬ registers a w) ws →
  getProfile a (run ws db) = getProfile a db.
Proof.
  intros Hws. revert db. induction Hws as [|w ws Hw Hws IH]; intros db;
    [done|].
  change (run (w :: ws) db) with (run ws (write db w)).
  by rewrite IH, write_profile_other.
Qed.

(** X3. A registered account stays registered through every sequence of
    writes, with the registration time it had: no call removes a profile
    or changes [registered_at].  The public key, key version and display
    name served for the account are those of the last [saveProfile] call
    for it, and the row is as it was when there was none. *)
Theorem profile_after_writes (ws : list Write) (db : t) (a : string)
    (p : DbProfile) :
  getProfile a db = Some p →
  ∃ p', getProfile a (run ws db) = Some p'
    ∧ registered_at p' = registered_at p
    ∧ account_id p' = account_id p
    ∧ (Forall (λ w, ¬ registers a w) ws → p' = p)
    ∧ (∀ ws1 q ws2,
         ws = ws1 ++ SaveProfile q :: ws2 →
         account_id q = a →
         Forall (λ w, ¬ registers a w) ws2 →
         x25519_pubkey p' = x25519_pubkey q
         ∧ key_version p' = key_version q
         ∧ display_name p' = display_name q).
Proof.
  intros Hp.
  destruct (run_profile_kept ws db a p Hp) as (p' & Hp' & Hr & Ha).
  exists p'. split_and!; [done..| |].
  - intros Hnone. rewrite run_profile_other, Hp in Hp' by done. congruence.
  - intros ws1 q ws2 -> Hq Hrest.
    rewrite run_app in Hp'.
    change (run (SaveProfile q :: ws2) (run ws1 db))
      with (run ws2 (saveProfile q (run ws1 db))) in Hp'.
    rewrite run_profile_other in Hp' by done.
    destruct (run_profile_kept ws1 db a p Hp) as (p1 & Hp1 & _).
    subst a. unfold saveProfile in Hp'.
    rewrite (DbFacts.upsertProfile_conflict q p1 _ Hp1) in Hp'.
    by injection Hp' as <-.
Qed.

(** X29. An account no [saveProfile] call was made for is not found:
    the handler of [/profiles/:accountId] answers 404 for it after every
    sequence of other writes.  From its first [saveProfile] call on the
    handler answers 200, and the row it serves has the [registered_at] of
    that first call, whatever calls follow. *)
Theorem profile_found_once_registered (ws : list Write) (db : t)
    (a : string) :
  getProfile a db = None →
  (Forall (λ w, ¬ registers a w) ws →
   Index.get_profile a (run ws db)
   = {| Index.status := 404;
        Index.body := Index.ErrorBody "profile not found" |})
  ∧ (∀ ws1 q ws2,
       ws = ws1 ++ SaveProfile q :: ws2 →
       account_id q = a →
       Forall (λ w, ¬ registers a w) ws1 →
       ∃ p', Index.get_profile a (run ws db)
             = {| Index.status := 200; Index.body := Index.ProfileBody p' |}
         ∧ account_id p' = a
         ∧ registered_at p' = registered_at q).
Proof.
  intros Hnone. unfold Index.get_profile. split.
  - intros Hws. by rewrite run_profile_other, Hnone.
  - intros ws1 q ws2 -> Hq Hws1. rewrite run_app.
    change (run (SaveProfile q :: ws2) (run ws1 db))
      with (run ws2 (saveProfile q (run ws1 db))).
    assert (getProfile a (saveProfile q (run ws1 db)) = Some q) as Hfirst.
    { subst a. apply DbFacts.upsertProfile_new.
      by rewrite run_profile_other. }
    destruct (run_profile_kept ws2 _ a q Hfirst) as (p' & -> & Hr & Ha).
    exists p'. split_and!; [done | congruence | done].
Qed.

Lemma checkpoint_round_trip_witness :
  getLastBlockHeight (setLastBlockHeight 152300417 empty) = Num 152300417
  ∧ getLastBlockHeight
      (setLastBlockHeight 8 (setLastBlockHeight 152300417 empty)) = Num 8.
Proof.
  destruct (checkpoint_round_trip 152300417 0 empty ltac:(by split))
    as (Hread & _).
  destruct (checkpoint_round_trip 8 152300417 empty ltac:(by split))
    as (Hagain & _ & Hover & _).
  split; [exact Hread |]. rewrite Hover. exact Hagain.
Defined.

Lemma messages_append_only_witness :
  messages (run Sample.writes (saveMessage Demo.msg2 empty)) = [Demo.msg2]
  ∧ (messages (saveMessage Demo.msg2 empty))
      `prefix_of` (messages (run Sample.writes (saveMessage Demo.msg2 empty))).
Proof.
  split; [reflexivity |].
  apply (messages_append_only Sample.writes (saveMessage Demo.msg2 empty)).
Defined.

Lemma profile_after_writes_witness :
  getProfile "a.near" (saveProfile Demo.profile1 empty) = Some Demo.profile1
  ∧ ∃ p', getProfile "a.near"
            (run Sample.writes (saveProfile Demo.profile1 empty)) = Some p'
      ∧ registered_at p' = "1700000000000000000"
      ∧ x25519_pubkey p' = "K2".
Proof.
  split; [reflexivity |].
  destruct (profile_after_writes Sample.writes
              (saveProfile Demo.profile1 empty) "a.near" Demo.profile1
              eq_refl) as (p' & Hp' & Hr & _ & _ & Hlast).
  exists p'. split_and!; [exact Hp' | exact Hr |].
  apply (Hlast [SaveMessage Demo.msg1] Demo.profile2
           [SetLastBlockHeight 7] eq_refl eq_refl).
  repeat constructor. simpl. tauto.
Defined.

Lemma profile_found_once_registered_witness :
  Index.status (Index.get_profile "a.near" (run [SaveMessage Demo.msg1] empty))
  = 404
  ∧ ∃ p', Index.get_profile "a.near"
            (run (SaveProfile Demo.profile1 :: Sample.writes) empty)
          = {| Index.status := 200; Index.body := Index.ProfileBody p' |}
      ∧ registered_at p' = "1700000000000000000".
Proof.
  split.
  - destruct (profile_found_once_registered [SaveMessage Demo.msg1] empty
                "a.near" eq_refl) as [Hmissing _].
    rewrite Hmissing; [reflexivity |]. repeat constructor. simpl. tauto.
  - destruct (profile_found_once_registered
                (SaveProfile Demo.profile1 :: Sample.writes) empty
                "a.near" eq_refl) as [_ Hfound].
    destruct (Hfound [] Demo.profile1 Sample.writes eq_refl eq_refl
                ltac:(constructor)) as (p' & Hp' & _ & Hr).
    exists p'. split; [exact Hp' | exact Hr].
Defined.

End StoreFacts.

(** * The message query *)

Module QueryFacts.

Import Query.

#[local] Instance by_height_id_total : Total by_height_id.
Proof. intros m1 m2. unfold by_height_id. lia. Qed.

#[local] Instance by_height_id_trans : Transitive by_height_id.
Proof. intros m1 m2 m3. unfold by_height_id. lia. Qed.

#[local] Instance by_height_id_desc_total : Total by_height_id_desc.
Proof. intros m1 m2. unfold by_height_id_desc, by_height_id. lia. Qed.

#[local] Instance by_height_id_desc_trans : Transitive by_height_id_desc.
Proof. intros m1 m2 m3. unfold by_height_id_desc, by_height_id. lia. Qed.

Lemma limit_rows_length {A : Type} (n : Z) (l : list A) :
  0 ≤ n → (length (limit_rows n l) ≤ Z.to_nat n)%nat.
Proof.
  intros Hn. unfold limit_rows. rewrite (proj2 (Z.ltb_ge n 0) Hn).
  rewrite length_take. lia.
Qed.

Lemma limit_rows_all {A : Type} (n : Z) (l : list A) :
  n < 0 → limit_rows n l = l.
Proof. intros Hn. unfold limit_rows. by rewrite (proj2 (Z.ltb_lt n 0) Hn). Qed.

Lemma limit_rows_sublist {A : Type} (n : Z) (l : list A) :
  limit_rows n l `sublist_of` l.
Proof. unfold limit_rows. case_match; [done | apply sublist_take]. Qed.

(** The first rows of a sorted list are sorted. *)
Lemma limit_rows_sorted {A : Type} (R : relation A) `{!Transitive R} (n : Z)
    (l : list A) :
  Sorted R l → Sorted R (limit_rows n l).
Proof.
  intros Hl. unfold limit_rows. case_match; [done|].
  apply StronglySorted_Sorted,
    (StronglySorted_app_1_l _ _ (drop (Z.to_nat n) l)).
  rewrite take_drop. by apply Sorted_StronglySorted.
Qed.

Lemma where_thread_spec (account peer : string) (c : option Z)
    (m : DbMessage) :
  where_thread account peer c m = true
  ↔ in_thread account peer m = true ∧ ∀ a, c = Some a → a < id m.
Proof.
  unfold where_thread. destruct c as [a|].
  - rewrite andb_true_iff, Z.ltb_lt. naive_solver.
  - naive_solver.
Qed.

Lemma where_account_spec (account : string) (c : option Z) (m : DbMessage) :
  where_account account c m = true
  ↔ Db.sender (row m) = account
    ∨ (Db.recipient (row m) = account ∧ ∀ a, c = Some a → a < id m).
Proof.
  unfold where_account. destruct c as [a|];
    rewrite orb_true_iff, ?andb_true_iff, ?Z.ltb_lt, !String.eqb_eq;
    naive_solver.
Qed.

Lemma in_thread_comm (account peer : string) (m : DbMessage) :
  in_thread account peer m = in_thread peer account m.
Proof. unfold in_thread. apply orb_comm. Qed.

Lemma limit_operand_spec (n : Z) :
  limit_operand n = true ↔ - 2 ^ 63 < n < 2 ^ 63.
Proof. unfold limit_operand. by rewrite andb_true_iff, !Z.ltb_lt. Qed.

Lemma limit_operand_refused (n : Z) :
  n ≤ - 2 ^ 63 ∨ 2 ^ 63 ≤ n → limit_operand n = false.
Proof.
  intros Hn. apply not_true_is_false. rewrite limit_operand_spec. lia.
Qed.

(** The query with a peer that is not the empty string. *)
Lemma getMessages_peer (account peer : string) (after : option number)
    (limit : option number) (rows : list DbMessage) :
  peer ≠ EmptyString →
  getMessages account (Some peer) after limit rows
  = match default (Num 50) limit with
    | Num n =>
        if limit_operand n then
          Normal (limit_rows n
                    (merge_sort by_height_id
                       (filter (λ m, where_thread account peer (cursor after) m
                                     = true) rows)))
        else Throw "SqliteError: datatype mismatch"
    | NaN => Throw "SqliteError: datatype mismatch"
    end.
Proof.
  intros Hpeer. unfold getMessages. simpl.
  by rewrite (proj2 (String.eqb_neq peer EmptyString) Hpeer).
Qed.

(** A limit that the engine does not take as a 64-bit integer. *)
Lemma getMessages_refused (account : string) (peer : option string)
    (after : option number) (limit : option number) (n : Z)
    (rows : list DbMessage) :
  default (Num 50) limit = Num n →
  n ≤ - 2 ^ 63 ∨ 2 ^ 63 ≤ n →
  getMessages account peer after limit rows
  = Throw "SqliteError: datatype mismatch".
Proof.
  intros Hlimit Hn. unfold getMessages.
  by rewrite Hlimit, (limit_operand_refused n Hn).
Qed.

(** X4. With a limit that has a 64-bit integer value, the query with a
    peer returns rows of the table only, each between the account and the
    peer in one direction or the other and, when there is a cursor, with
    an id above it; they come in ascending order of block height, then id;
    with a limit that is not negative there are at most that many (at
    most 50 when none is given); and with a negative limit no row that
    qualifies is left out.  A limit at or beyond -2^63 or 2^63 is refused
    by the engine, and the query raises. *)
Theorem getMessages_thread (account peer : string) (after : option number)
    (limit : option number) (n : Z) (rows : list DbMessage) :
  peer ≠ EmptyString →
  default (Num 50) limit = Num n →
  (- 2 ^ 63 < n < 2 ^ 63 →
   ∃ l, getMessages account (Some peer) after limit rows = Normal l
     ∧ (∀ m, m ∈ l →
          m ∈ rows ∧ in_thread account peer m = true
          ∧ ∀ a, cursor after = Some a → a < id m)
     ∧ Sorted by_height_id l
     ∧ (0 ≤ n → (length l ≤ Z.to_nat n)%nat)
     ∧ (n < 0 →
        ∀ m, m ∈ rows → in_thread account peer m = true →
             (∀ a, cursor after = Some a → a < id m) → m ∈ l))
  ∧ (n ≤ - 2 ^ 63 ∨ 2 ^ 63 ≤ n →
     getMessages account (Some peer) after limit rows
     = Throw "SqliteError: datatype mismatch").
Proof.
  intros Hpeer Hlimit. split; [|by apply getMessages_refused].
  intros Hn. rewrite getMessages_peer, Hlimit by done.
  rewrite (proj2 (limit_operand_spec n) Hn).
  eexists. split; [reflexivity|].
  set (sel := filter _ rows).
  assert (∀ m, m ∈ merge_sort by_height_id sel
               ↔ m ∈ rows ∧ where_thread account peer (cursor after) m = true)
    as Hin.
  { intros m. rewrite merge_sort_Permutation. unfold sel.
    rewrite list_elem_of_filter. naive_solver. }
  split_and!.
  - intros m Hm.
    apply (λ H, elem_of_sublist _ _ _ H (limit_rows_sublist n _)) in Hm.
    apply Hin in Hm as [Hrows Hw]. apply where_thread_spec in Hw.
    naive_solver.
  - apply limit_rows_sorted; [apply _|].
    apply (Sorted_merge_sort by_height_id).
  - apply limit_rows_length.
  - intros Hneg m Hrows Ht Hc. rewrite limit_rows_all by done.
    apply Hin. split; [done|]. by apply where_thread_spec.
Qed.

(** X5. The two parties of a conversation get the same rows in the same
    order: the query for an account with a peer is the query for the peer
    with the account. *)
Theorem getMessages_symmetric (account peer : string) (after : option number)
    (limit : option number) (rows : list DbMessage) :
  account ≠ EmptyString → peer ≠ EmptyString →
  getMessages account (Some peer) after limit rows
  = getMessages peer (Some account) after limit rows.
Proof.
  intros Ha Hp. rewrite !getMessages_peer by done.
  assert (filter (λ m, where_thread account peer (cursor after) m = true) rows
          = filter (λ m, where_thread peer account (cursor after) m = true)
              rows) as ->; [|done].
  apply list_filter_iff. intros m. unfold where_thread.
  by rewrite in_thread_comm.
Qed.

(** X6. In the query without a peer (none given, or the empty string) the
    cursor holds back received rows only: with a limit that has a 64-bit
    integer value, the rows returned are rows the account sent, whatever
    their id, and rows it received with an id above the cursor, in
    descending order of block height, then id; with a negative limit
    these are all returned.  A limit at or beyond -2^63 or 2^63 is refused
    by the engine, and the query raises. *)
Theorem getMessages_account_cursor (account : string) (peer : option string)
    (a : Z) (limit : option number) (n : Z) (rows : list DbMessage) :
  Net.truthy_string peer = false →
  a ≠ 0 →
  default (Num 50) limit = Num n →
  (- 2 ^ 63 < n < 2 ^ 63 →
   ∃ l, getMessages account peer (Some (Num a)) limit rows = Normal l
     ∧ (∀ m, m ∈ l →
          m ∈ rows
          ∧ (Db.sender (row m) = account
             ∨ (Db.recipient (row m) = account ∧ a < id m)))
     ∧ Sorted by_height_id_desc l
     ∧ (0 ≤ n → (length l ≤ Z.to_nat n)%nat)
     ∧ (n < 0 →
        ∀ m, m ∈ rows →
             (Db.sender (row m) = account
              ∨ (Db.recipient (row m) = account ∧ a < id m)) ↔ m ∈ l))
  ∧ (n ≤ - 2 ^ 63 ∨ 2 ^ 63 ≤ n →
     getMessages account peer (Some (Num a)) limit rows
     = Throw "SqliteError: datatype mismatch").
Proof.
  intros Hpeer Ha Hlimit. split; [|by apply getMessages_refused].
  intros Hn. unfold getMessages. rewrite Hlimit, Hpeer.
  rewrite (proj2 (limit_operand_spec n) Hn).
  unfold cursor. rewrite (proj2 (Z.eqb_neq a 0) Ha).
  eexists. split; [reflexivity|].
  set (sel := filter _ rows).
  assert (∀ m, m ∈ merge_sort by_height_id_desc sel
               ↔ m ∈ rows
                 ∧ (Db.sender (row m) = account
                    ∨ (Db.recipient (row m) = account ∧ a < id m))) as Hin.
  { intros m. rewrite merge_sort_Permutation. unfold sel.
    rewrite list_elem_of_filter, where_account_spec. naive_solver. }
  split_and!.
  - intros m Hm.
    apply (λ H, elem_of_sublist _ _ _ H (limit_rows_sublist n _)) in Hm.
    by apply Hin.
  - apply limit_rows_sorted; [apply _|].
    apply (Sorted_merge_sort by_height_id_desc).
  - apply limit_rows_length.
  - intros Hneg m Hrows. rewrite limit_rows_all by done. rewrite Hin.
    naive_solver.
Qed.

(** *** Pages *)

Lemma StronglySorted_filter {A : Type} (R : relation A) (P : A → Prop)
    `{∀ x, Decision (P x)} (l : list A) :
  StronglySorted R l → StronglySorted R (filter P l).
Proof.
  induction 1 as [|x l Hl IH Hx]; [constructor|].
  rewrite filter_cons. case_decide; [|done].
  constructor; [done|].
  rewrite Forall_forall in Hx |- *. intros y Hy.
  apply list_elem_of_filter in Hy as [_ Hy]. auto.
Qed.

Lemma stored_in_order_id (l : list DbMessage) (m1 m2 : DbMessage) :
  StronglySorted stored_in_order l →
  m1 ∈ l → m2 ∈ l → id m1 = id m2 → m1 = m2.
Proof.
  induction 1 as [|x l Hl IH Hx]; intros H1 H2 Hid.
  - by apply elem_of_nil in H1.
  - rewrite Forall_forall in Hx.
    apply elem_of_cons in H1 as [-> | H1], H2 as [-> | H2]; [done | | | auto].
    + destruct (Hx _ H2). lia.
    + destruct (Hx _ H1). lia.
Qed.

Lemma stored_in_order_sorted (l : list DbMessage) :
  StronglySorted stored_in_order l → StronglySorted by_height_id l.
Proof.
  induction 1 as [|x l Hl IH Hx]; constructor; [done|].
  eapply Forall_impl; [done|]. unfold stored_in_order, by_height_id.
  intros m ?. lia.
Qed.

(** Rows stored in the order of their blocks are in the order the query
    with a peer asks for. *)
Lemma merge_sort_stored_in_order (l : list DbMessage) :
  StronglySorted stored_in_order l → merge_sort by_height_id l = l.
Proof.
  intros Hl.
  apply (StronglySorted_unique_strong by_height_id).
  - intros m1 m2 H1 H2 H12 H21.
    rewrite merge_sort_Permutation in H1.
    apply (stored_in_order_id l); [done..|].
    unfold by_height_id in *. lia.
  - apply Sorted_StronglySorted; [exact by_height_id_trans|].
    apply (Sorted_merge_sort by_height_id).
  - by apply stored_in_order_sorted.
  - apply merge_sort_Permutation.
Qed.

Lemma filter_all {A : Type} (P : A → Prop) `{∀ x, Decision (P x)}
    (l : list A) :
  Forall P l → filter P l = l.
Proof.
  induction 1 as [|x l Hx Hl IH]; [done|].
  by rewrite filter_cons_True, IH.
Qed.

Lemma filter_after_drop (l : list DbMessage) (k : nat) (m : DbMessage) :
  StronglySorted stored_in_order l →
  l !! k = Some m →
  filter (λ x, id m < id x) l = drop (S k) l.
Proof.
  intros Hl. revert k. induction Hl as [|x l Hl IH Hx]; intros k Hk;
    [done|].
  destruct k as [|k]; simplify_eq/=.
  - rewrite filter_cons_False by lia. apply filter_all.
    eapply Forall_impl; [done|]. intros y [? _]. done.
  - rewrite Forall_forall in Hx.
    destruct (Hx m (list_elem_of_lookup_2 _ _ _ Hk)) as [? _].
    rewrite filter_cons_False by lia. by apply IH.
Qed.

(** X7. On a table whose rows were stored in the order of their blocks
    (ids grow, block heights do not fall), paging through a conversation
    with the id of the last row seen as the cursor loses and repeats
    nothing: the first page is the first [n] rows of the conversation, and
    the page after the row at position [k] is the [n] rows that follow
    it, for every page size [n] below 2^63.  From 2^63 on the engine
    refuses the limit, and the query raises. *)
Theorem getMessages_pages (account peer : string) (n : Z)
    (rows : list DbMessage) :
  peer ≠ EmptyString →
  0 ≤ n →
  StronglySorted stored_in_order rows →
  (n < 2 ^ 63 →
   getMessages account (Some peer) None (Some (Num n)) rows
   = Normal (take (Z.to_nat n) (thread account peer rows))
   ∧ ∀ (k : nat) (m : DbMessage),
       thread account peer rows !! k = Some m →
       id m ≠ 0 →
       getMessages account (Some peer) (Some (Num (id m))) (Some (Num n))
         rows
       = Normal (take (Z.to_nat n) (drop (S k) (thread account peer rows))))
  ∧ (2 ^ 63 ≤ n →
     getMessages account (Some peer) None (Some (Num n)) rows
     = Throw "SqliteError: datatype mismatch").
Proof.
  intros Hpeer Hn Hrows. split;
    [|intros Hbig; apply (getMessages_refused _ _ _ _ n); [done | by right]].
  intros Hsmall.
  pose proof (StronglySorted_filter stored_in_order
                (λ m, in_thread account peer m = true) rows Hrows) as Hthread.
  fold (thread account peer rows) in Hthread.
  assert (limit_operand n = true) as Hop by (apply limit_operand_spec; lia).
  rewrite !getMessages_peer by done.
  cbn [default from_option Datatypes.id cursor]. rewrite Hop.
  unfold limit_rows. rewrite (proj2 (Z.ltb_ge n 0) Hn). split.
  - fold (thread account peer rows).
    by rewrite merge_sort_stored_in_order.
  - intros k m Hk Hid. rewrite getMessages_peer by done.
    cbn [default from_option Datatypes.id cursor]. rewrite Hop.
    unfold limit_rows.
    rewrite (proj2 (Z.eqb_neq (id m) 0) Hid),
      (proj2 (Z.ltb_ge n 0) Hn).
    assert (filter (λ x, where_thread account peer (Some (id m)) x = true)
              rows
            = drop (S k) (thread account peer rows)) as ->.
    { rewrite <- (filter_after_drop _ k m) by done.
      unfold thread. rewrite list_filter_filter.
      apply list_filter_iff. intros x. unfold where_thread.
      rewrite andb_true_iff, Z.ltb_lt. naive_solver. }
    rewrite merge_sort_stored_in_order; [done|].
    rewrite <- (take_drop (S k) (thread account peer rows)) in Hthread.
    by apply StronglySorted_app_1_r in Hthread.
Qed.

(** *** From the writer to the reader *)

(** Two rows of a table under the UNIQUE constraint that have the same
    key are one row. *)
Lemma unique_key (ms : list Db.DbMessage) (m1 m2 : Db.DbMessage) :
  NoDup (Db.msg_key <$> ms) →
  m1 ∈ ms → m2 ∈ ms → Db.msg_key m1 = Db.msg_key m2 → m1 = m2.
Proof.
  induction ms as [|x ms IH]; intros Hnd H1 H2 Hkey.
  - by apply elem_of_nil in H1.
  - rewrite fmap_cons in Hnd. apply NoDup_cons in Hnd as [Hx Hnd].
    apply elem_of_cons in H1 as [-> | H1], H2 as [-> | H2]; [done | | | auto].
    + destruct Hx. rewrite Hkey. by apply list_elem_of_fmap_2.
    + destruct Hx. rewrite <- Hkey. by apply list_elem_of_fmap_2.
Qed.

(** X8. A message handed to [saveMessage] can be read back by both of its
    parties, with the content of the first save of its key.  Whatever ids
    the engine gave the rows, the query of the sender with the recipient
    as peer and the query of the recipient with the sender as peer return
    the same rows when the limit cuts nothing off.  When the key of the
    message was new, the message is among them as it was passed, field by
    field.  When a row with the key was stored before, that row is among
    them as it was, and under the UNIQUE constraint no other row with the
    key is: nothing of the message that came second is served. *)
Theorem saved_message_listed (msg : Db.DbMessage) (db : Db.t)
    (rows : list DbMessage) :
  row <$> rows = Db.messages (Db.saveMessage msg db) →
  Db.sender msg ≠ EmptyString →
  Db.recipient msg ≠ EmptyString →
  ∃ l,
    getMessages (Db.sender msg) (Some (Db.recipient msg)) None
      (Some (Num (-1))) rows = Normal l
    ∧ getMessages (Db.recipient msg) (Some (Db.sender msg)) None
        (Some (Num (-1))) rows = Normal l
    ∧ ((Db.msg_key msg ∉ Db.keys db) → ∃ m, m ∈ l ∧ row m = msg)
    ∧ (∀ first,
         first ∈ Db.messages db →
         Db.msg_key first = Db.msg_key msg →
         (∃ m, m ∈ l ∧ row m = first)
         ∧ (NoDup (Db.keys db) →
            ∀ m, m ∈ l → Db.msg_key (row m) = Db.msg_key msg →
                 row m = first)).
Proof.
  intros Hrows Hs Hr.
  rewrite !getMessages_peer by done.
  cbn [default from_option Datatypes.id cursor].
  change (limit_operand (-1)) with true. cbv iota.
  rewrite !limit_rows_all by lia.
  set (l := merge_sort by_height_id
              (filter (λ m, where_thread (Db.sender msg) (Db.recipient msg)
                              None m = true) rows)).
  exists l. split; [reflexivity|].
  assert (∀ m, m ∈ l
               ↔ m ∈ rows
                 ∧ in_thread (Db.sender msg) (Db.recipient msg) m = true)
    as Hl.
  { intros m. unfold l. rewrite merge_sort_Permutation.
    rewrite list_elem_of_filter. simpl. naive_solver. }
  assert (∀ r, r ∈ Db.messages (Db.saveMessage msg db) →
               Db.msg_key r = Db.msg_key msg →
               ∃ m, m ∈ l ∧ row m = r) as Hlisted.
  { intros r Hin Hkey. rewrite <- Hrows in Hin.
    apply list_elem_of_fmap in Hin as (m & -> & Hin).
    exists m. split; [|done]. apply Hl. split; [done|].
    unfold in_thread. unfold Db.msg_key in Hkey.
    injection Hkey as _ _ -> ->. by rewrite !String.eqb_refl. }
  split_and!.
  - unfold l. do 2 f_equal.
    apply list_filter_iff. intros x. simpl. by rewrite in_thread_comm.
  - intros Hnew. apply Hlisted; [|done].
    unfold Db.saveMessage, Db.insertMessage. rewrite decide_False by done.
    simpl. apply elem_of_app. right. by apply list_elem_of_singleton.
  - intros first Hfirst Hkey.
    assert (Db.msg_key msg ∈ Db.keys db) as Hold.
    { rewrite <- Hkey. by apply list_elem_of_fmap_2. }
    assert (Db.saveMessage msg db = db) as Hsame
      by (by apply DbFacts.insertMessage_present).
    rewrite Hsame in Hrows, Hlisted. split; [by apply Hlisted|].
    intros Hnd m Hm Hmkey. apply Hl in Hm as [Hm _].
    apply (unique_key (Db.messages db)); [done | | done | congruence].
    rewrite <- Hrows. by apply list_elem_of_fmap_2.
Qed.

Lemma getMessages_thread_witness :
  getMessages "a.near" (Some "b.near") (Some (Num 1)) None Sample.table
  = Normal [Sample.stored 4 12 "t2" "b.near" "a.near";
            Sample.stored 7 20 "t5" "b.near" "a.near"]
  ∧ (∃ l, getMessages "a.near" (Some "b.near") (Some (Num 1)) None
            Sample.table = Normal l
       ∧ (length l ≤ 50)%nat ∧ Sorted by_height_id l)
  ∧ getMessages "a.near" (Some "b.near") None
      (Some (Num (-100000000000000000000))) Sample.table
    = Throw "SqliteError: datatype mismatch".
Proof.
  split; [reflexivity |].
  destruct (getMessages_thread "a.near" "b.near" (Some (Num 1)) None 50
              Sample.table ltac:(discriminate) eq_refl) as [Hrows _].
  destruct (Hrows ltac:(lia)) as (l & Hl & _ & Hsorted & Hlen & _).
  destruct (getMessages_thread "a.near" "b.near" None
              (Some (Num (-100000000000000000000)))
              (-100000000000000000000) Sample.table
              ltac:(discriminate) eq_refl) as [_ Hrefused].
  split.
  - exists l. split_and!; [exact Hl | apply Hlen; lia | exact Hsorted].
  - apply Hrefused. lia.
Defined.

Lemma getMessages_symmetric_witness :
  getMessages "b.near" (Some "a.near") None None Sample.table
  = Normal [Sample.stored 1 10 "t1" "a.near" "b.near";
            Sample.stored 4 12 "t2" "b.near" "a.near";
            Sample.stored 7 20 "t5" "b.near" "a.near"].
Proof.
  rewrite <- (getMessages_symmetric "a.near" "b.near" None None Sample.table
                ltac:(discriminate) ltac:(discriminate)).
  reflexivity.
Defined.

Lemma getMessages_account_cursor_witness :
  getMessages "a.near" None (Some (Num 100)) None Sample.table
  = Normal [Sample.stored 5 12 "t3" "a.near" "c.near";
            Sample.stored 1 10 "t1" "a.near" "b.near"]
  ∧ (∃ l, getMessages "a.near" None (Some (Num 100)) (Some (Num (-1)))
            Sample.table = Normal l
       ∧ Sample.stored 1 10 "t1" "a.near" "b.near" ∈ l)
  ∧ getMessages "a.near" None (Some (Num 100))
      (Some (Num (-100000000000000000000))) Sample.table
    = Throw "SqliteError: datatype mismatch".
Proof.
  split; [reflexivity |].
  destruct (getMessages_account_cursor "a.near" None 100 (Some (Num (-1)))
              (-1) Sample.table eq_refl ltac:(lia) eq_refl) as [Hrows _].
  destruct (Hrows ltac:(lia)) as (l & Hl & _ & _ & _ & Hall).
  destruct (getMessages_account_cursor "a.near" None 100
              (Some (Num (-100000000000000000000)))
              (-100000000000000000000) Sample.table eq_refl ltac:(lia)
              eq_refl) as [_ Hrefused].
  split.
  - exists l. split; [exact Hl |].
    apply Hall; [lia | by left | by left].
  - apply Hrefused. lia.
Defined.

Lemma getMessages_pages_witness :
  getMessages "a.near" (Some "b.near") None (Some (Num 2)) Sample.table
  = Normal [Sample.stored 1 10 "t1" "a.near" "b.near";
            Sample.stored 4 12 "t2" "b.near" "a.near"]
  ∧ getMessages "a.near" (Some "b.near") (Some (Num 4)) (Some (Num 2))
      Sample.table
    = Normal [Sample.stored 7 20 "t5" "b.near" "a.near"].
Proof.
  assert (StronglySorted stored_in_order Sample.table) as Hrows.
  { repeat constructor; simpl; lia. }
  destruct (getMessages_pages "a.near" "b.near" 2 Sample.table
              ltac:(discriminate) ltac:(lia) Hrows) as [Hpages _].
  destruct (Hpages ltac:(lia)) as [Hfirst Hnext].
  split; [rewrite Hfirst; reflexivity |].
  exact (eq_trans
           (Hnext 1%nat (Sample.stored 4 12 "t2" "b.near" "a.near") eq_refl
              ltac:(simpl; lia))
           eq_refl).
Defined.

Lemma saved_message_listed_witness :
  (* the key is new: the message is served as it was passed *)
  (∃ l, getMessages "b.near" (Some "a.near") None (Some (Num (-1)))
          [ {| id := 1; row := Demo.msg1 |} ] = Normal l
     ∧ ∃ m, m ∈ l ∧ row m = Demo.msg1)
  (* the key is stored: the row of the first save is served *)
  ∧ (∃ l, getMessages "a.near" (Some "b.near") None (Some (Num (-1)))
            [ {| id := 1; row := Demo.msg1 |} ] = Normal l
       ∧ ∀ m, m ∈ l → Db.msg_key (row m) = Db.msg_key Demo.msg2 →
              row m = Demo.msg1).
Proof.
  split.
  - destruct (saved_message_listed Demo.msg1 Db.empty
                [ {| id := 1; row := Demo.msg1 |} ] eq_refl
                ltac:(discriminate) ltac:(discriminate))
      as (l & _ & Hl & Hnew & _).
    exists l. split; [exact Hl |]. apply Hnew. apply not_elem_of_nil.
  - destruct (saved_message_listed Demo.msg2
                (Db.saveMessage Demo.msg1 Db.empty)
                [ {| id := 1; row := Demo.msg1 |} ] eq_refl
                ltac:(discriminate) ltac:(discriminate))
      as (l & Hl & _ & _ & Hold).
    exists l. split; [exact Hl |].
    destruct (Hold Demo.msg1) as [_ Hunique].
    + apply list_elem_of_singleton. reflexivity.
    + reflexivity.
    + apply Hunique. apply NoDup_singleton.
Defined.

End QueryFacts.

(** * The route that serves messages *)

Module IndexFacts.

Import Index.

Lemma limit_of_absent (query : gmap string string) :
  Net.truthy_string (query !! "limit") = false → limit_of query = Num 50.
Proof.
  unfold limit_of. destruct (query !! "limit") as [text|]; [|done].
  by intros ->.
Qed.

Lemma limit_of_number (query : gmap string string) (text : string) (n : Z) :
  query !! "limit" = Some text → JS.parseInt text = Num n →
  limit_of query = Num (Z.min n 200).
Proof.
  unfold limit_of. intros -> Hn. destruct text as [|c text]; [done|].
  simpl. by rewrite Hn.
Qed.

Lemma getMessages_length (account : string) (peer : option string)
    (after : option number) (n : Z) (rows : list Query.DbMessage) :
  0 ≤ n < 2 ^ 63 →
  ∃ l, Query.getMessages account peer after (Some (Num n)) rows = Normal l
    ∧ (length l ≤ Z.to_nat n)%nat.
Proof.
  intros Hn. unfold Query.getMessages.
  cbn [default from_option Datatypes.id].
  rewrite (proj2 (QueryFacts.limit_operand_spec n)) by lia.
  eexists. split; [done|].
  apply QueryFacts.limit_rows_length. lia.
Qed.

(** The handler on a request that names an account. *)
Lemma get_messages_account (query : gmap string string)
    (rows : list Query.DbMessage) (account : string) :
  query !! "account" = Some account → account ≠ EmptyString →
  get_messages query rows
  = let* messages :=
      Query.getMessages account (query !! "with") (after_of query)
        (Some (limit_of query)) rows in
    Normal {| status := 200; body := MessagesBody messages |}.
Proof.
  intros Hacc Hne. unfold get_messages. rewrite Hacc. simpl.
  by rewrite (proj2 (String.eqb_neq account EmptyString) Hne).
Qed.

(** X9. A request to [/messages] that names an account and gives no
    [limit], or one that reads as a number that is not negative, is
    answered with status 200 and at most 200 rows: at most 50 when no
    limit is given, and never more than the limit asked for. *)
Theorem messages_limit_cap (query : gmap string string)
    (rows : list Query.DbMessage) (account : string) :
  query !! "account" = Some account → account ≠ EmptyString →
  (Net.truthy_string (query !! "limit") = false
   ∨ ∃ text n, query !! "limit" = Some text ∧ JS.parseInt text = Num n
               ∧ 0 ≤ n) →
  ∃ l, get_messages query rows
       = Normal {| status := 200; body := MessagesBody l |}
    ∧ (length l ≤ 200)%nat
    ∧ (Net.truthy_string (query !! "limit") = false → (length l ≤ 50)%nat)
    ∧ (∀ text n, query !! "limit" = Some text → JS.parseInt text = Num n →
                 (length l ≤ Z.to_nat n)%nat).
Proof.
  intros Hacc Hne Hlimit. rewrite (get_messages_account _ _ _ Hacc Hne).
  destruct Hlimit as [Habs | (text & n & Htext & Hn & Hpos)].
  - rewrite (limit_of_absent _ Habs).
    destruct (getMessages_length account (query !! "with") (after_of query)
                50 rows ltac:(lia)) as (l & -> & Hlen).
    exists l. split_and!; [done | lia | lia |].
    intros text n Htext Hn. rewrite Htext in Habs.
    destruct text; [done | discriminate Habs].
  - rewrite (limit_of_number _ _ _ Htext Hn).
    destruct (getMessages_length account (query !! "with") (after_of query)
                (Z.min n 200) rows ltac:(lia)) as (l & -> & Hlen).
    exists l. split_and!; [done | lia | |].
    + rewrite Htext. destruct text; [done | discriminate].
    + intros text' n' Htext' Hn'. rewrite Htext in Htext'.
      injection Htext' as <-. rewrite Hn in Hn'. injection Hn' as <-. lia.
Qed.

(** X10. A [limit] that reads as a negative number lifts the cap: the
    minimum of a negative number and 200 is that number, and a negative
    LIMIT is no limit.  A request with such a limit above -2^53, where the
    number read is the number written, and neither [with] nor [after], is
    answered with every row the account sent or received.  A limit at or
    below -2^63 has no 64-bit integer value: the query raises, and the
    handler sends no response of its own. *)
Theorem messages_limit_below_zero (query : gmap string string)
    (rows : list Query.DbMessage) (account text : string) (n : Z) :
  query !! "account" = Some account → account ≠ EmptyString →
  query !! "limit" = Some text → JS.parseInt text = Num n →
  Net.truthy_string (query !! "with") = false →
  query !! "after" = None →
  (- 2 ^ 53 < n < 0 →
   ∃ l, get_messages query rows
        = Normal {| status := 200; body := MessagesBody l |}
     ∧ l ≡ₚ filter (λ m, Db.sender (Query.row m) = account
                         ∨ Db.recipient (Query.row m) = account) rows)
  ∧ (n ≤ - 2 ^ 63 →
     get_messages query rows = Throw "SqliteError: datatype mismatch").
Proof.
  intros Hacc Hne Htext Hn Hwith Hafter.
  rewrite (get_messages_account _ _ _ Hacc Hne).
  rewrite (limit_of_number _ _ _ Htext Hn).
  unfold after_of. rewrite Hafter. split.
  - intros Hneg. unfold Query.getMessages. rewrite Hwith.
    cbn [default from_option Datatypes.id Query.cursor].
    rewrite (proj2 (QueryFacts.limit_operand_spec (Z.min n 200))) by lia.
    cbn [cbind]. eexists. split; [reflexivity|].
    rewrite QueryFacts.limit_rows_all by lia.
    rewrite merge_sort_Permutation.
    erewrite list_filter_iff; [done|].
    intros m. simpl. by rewrite orb_true_iff, !String.eqb_eq.
  - intros Hlow.
    rewrite (QueryFacts.getMessages_refused _ _ _ _ (Z.min n 200));
      [done | done | lia].
Qed.


Lemma messages_limit_cap_witness :
  (∃ l, get_messages (Sample.query_limit "1000") Sample.table
        = Normal {| status := 200; body := MessagesBody l |}
     ∧ (length l ≤ 200)%nat)
  ∧ get_messages (Sample.query_limit "2") Sample.table
    = Normal {| status := 200;
                body := MessagesBody
                          [Sample.stored 7 20 "t5" "b.near" "a.near";
                           Sample.stored 6 15 "t4" "c.near" "a.near"] |}.
Proof.
  split; [|reflexivity].
  destruct (messages_limit_cap (Sample.query_limit "1000") Sample.table
              "a.near" eq_refl ltac:(discriminate)) as (l & Hl & Hcap & _).
  - right. exists "1000", 1000. split_and!; [reflexivity | reflexivity | lia].
  - exists l. split; [exact Hl | exact Hcap].
Defined.

Lemma messages_limit_below_zero_witness :
  get_messages (Sample.query_limit "-1") Sample.table
  = Normal {| status := 200;
              body := MessagesBody
                        [Sample.stored 7 20 "t5" "b.near" "a.near";
                         Sample.stored 6 15 "t4" "c.near" "a.near";
                         Sample.stored 5 12 "t3" "a.near" "c.near";
                         Sample.stored 4 12 "t2" "b.near" "a.near";
                         Sample.stored 1 10 "t1" "a.near" "b.near"] |}
  ∧ (∃ l, get_messages (Sample.query_limit "-1") Sample.table
          = Normal {| status := 200; body := MessagesBody l |}
       ∧ length l = 5%nat)
  ∧ get_messages (Sample.query_limit "-100000000000000000000") Sample.table
    = Throw "SqliteError: datatype mismatch".
Proof.
  split; [reflexivity |].
  destruct (messages_limit_below_zero (Sample.query_limit "-1") Sample.table
              "a.near" "-1" (-1) eq_refl ltac:(discriminate) eq_refl eq_refl
              eq_refl eq_refl) as [Hall _].
  destruct (Hall ltac:(lia)) as (l & Hl & Hperm).
  destruct (messages_limit_below_zero
              (Sample.query_limit "-100000000000000000000") Sample.table
              "a.near" "-100000000000000000000" (-100000000000000000000)
              eq_refl ltac:(discriminate) eq_refl eq_refl eq_refl eq_refl)
    as [_ Hrefused].
  split.
  - exists l. split; [exact Hl |].
    apply Permutation_length in Hperm. rewrite Hperm. reflexivity.
  - apply Hrefused. lia.
Defined.


End IndexFacts.

(** * The profile search *)

Module SearchFacts.

Import Search.

Lemma like_unfold (p s : string) :
  like p s
  = match p with
    | EmptyString =>
        match s with EmptyString => true | String _ _ => false end
    | String "%" p' =>
        like p' s
        || match s with
           | EmptyString => false
           | String _ s' => like p s'
           end
    | String "_" p' =>
        match s with
        | EmptyString => false
        | String _ s' => like p' s'
        end
    | String c p' =>
        match s with
        | EmptyString => false
        | String d s' => Ascii.eqb (fold_case c) (fold_case d) && like p' s'
        end
    end.
Proof. destruct p as [|c p]; destruct s; reflexivity. Qed.

Lemma like_percent (p s : string) :
  like (String "%" p) s
  = like p s
    || match s with
       | EmptyString => false
       | String _ s' => like (String "%" p) s'
       end.
Proof. by rewrite like_unfold at 1. Qed.


Lemma like_all (s : string) : like "%" s = true.
Proof.
  induction s as [|c s IH]; [done|].
  rewrite like_percent, IH. apply orb_true_r.
Qed.




(** X24. The wildcard characters of a query are not escaped.  The handler
    of [/profiles/search] refuses a request without a query, or with the
    empty one, with status 400; the query [%] is answered with the first
    20 profiles of the table, whatever their account ids and display
    names are. *)
Theorem search_wildcard (rows : list Db.DbProfile)
    (query : gmap string string) :
  (Net.truthy_string (query !! "q") = false →
   Index.get_profiles_search query rows
   = {| Index.status := 400; Index.body := Index.ErrorBody "q is required" |})
  ∧ searchProfiles "%" rows = take 20 rows
  ∧ (query !! "q" = Some "%" →
     Index.get_profiles_search query rows
     = {| Index.status := 200;
          Index.body := Index.ProfilesBody (take 20 rows) |}).
Proof.
  assert (searchProfiles "%" rows = take 20 rows) as Hall.
  { unfold searchProfiles. f_equal. induction rows as [|p rows IH]; [done|].
    rewrite filter_cons_True, IH; [done|].
    unfold matches, pattern. simpl append.
    by rewrite (like_percent "%%"), (like_percent "%"), like_all. }
  split_and!; [|done|].
  - intros Hq. unfold Index.get_profiles_search. by rewrite Hq.
  - intros Hq. unfold Index.get_profiles_search. rewrite Hq. simpl.
    by rewrite Hall.
Qed.


Lemma search_wildcard_witness :
  Index.get_profiles_search {[ "q" := "%" ]} Sample.profiles
  = {| Index.status := 200;
       Index.body := Index.ProfilesBody Sample.profiles |}
  ∧ Index.get_profiles_search ∅ Sample.profiles
    = {| Index.status := 400; Index.body := Index.ErrorBody "q is required" |}.
Proof.
  destruct (search_wildcard Sample.profiles {[ "q" := "%" ]})
    as (_ & _ & Hall).
  destruct (search_wildcard Sample.profiles ∅) as (Hnone & _).
  split; [exact (Hall eq_refl) | exact (Hnone eq_refl)].
Defined.

End SearchFacts.

(** * Runs of the loop *)

Module RunFacts.
Section run.

Context `{Host}.
Import Net.

Lemma getLastBlockHeight_sync_state (d d' : Db.t) :
  Db.sync_state d' = Db.sync_state d →
  Db.getLastBlockHeight d' = Db.getLastBlockHeight d.
Proof. unfold Db.getLastBlockHeight, Db.getSyncState. by intros ->. Qed.

Lemma attempts_trace_heights (height h : Z) (n : nat) :
  FetchBlock h ∈ Lake.attempts_trace height n → h = height.
Proof.
  induction n as [|[|n] IH]; simpl.
  - by intros ?%elem_of_nil.
  - intros Hin%list_elem_of_singleton. congruence.
  - rewrite elem_of_app. intros [Hin | Hin]; [by apply IH|].
    set_solver.
Qed.

Lemma fetchBlockWithRetry_heights (height : Z) (replies : nat → HttpReply)
    (h : Z) :
  FetchBlock h ∈ fst (Lake.fetchBlockWithRetry height replies) → h = height.
Proof.
  destruct (FetchFacts.fetchBlockWithRetry_catchup height replies)
    as (n & _ & _ & _ & -> & _).
  apply attempts_trace_heights.
Qed.

Lemma fetchLatestBlockHeight_frame (reply : TipReply) (s : State) :
  let '(t, tip, s') := Lake.fetchLatestBlockHeight reply s in
  t = [FetchTip] ∧ tip = latestKnownHeight s'
  ∧ s' = set_latestKnownHeight tip s.
Proof.
  unfold Lake.fetchLatestBlockHeight. destruct s.
  repeat case_match; simplify_eq/=; done.
Qed.


Lemma refresh_state (env : Env) (s : State) :
  ∃ tip, Lake.refresh env s
         = (if Z.rem (blocksProcessed s) 200 =? 0 then [FetchTip] else [],
            set_latestKnownHeight tip s).
Proof.
  unfold Lake.refresh. case_match.
  - pose proof (fetchLatestBlockHeight_frame (tip_refresh env) s) as Hf.
    destruct (Lake.fetchLatestBlockHeight (tip_refresh env) s)
      as [[t tip] s'].
    destruct Hf as (-> & _ & ->). exists tip. by destruct s.
  - exists (latestKnownHeight s). by destruct s.
Qed.

Lemma iteration_pass : Run.pass Lake.iteration.
Proof.
  intros env s. unfold Lake.iteration.
  destruct (refresh_state env s) as [tip ->].
  set (t0 := if Z.rem _ _ =? 0 then _ else _).
  assert (∀ h, FetchBlock h ∉ t0) as Ht0.
  { intros h. unfold t0. case_match; set_solver. }
  cbn [currentHeight latestKnownHeight set_latestKnownHeight].
  destruct (currentHeight s >? tip).
  - pose proof (fetchLatestBlockHeight_frame (tip_idle env)
                  (set_latestKnownHeight tip s)) as Hf.
    destruct (Lake.fetchLatestBlockHeight _ _) as [[t1 tip'] s1].
    destruct Hf as (-> & _ & ->). cbv beta iota.
    split_and!; [done | set_solver |].
    left. by unfold Run.stays.
  - pose proof (fetchBlockWithRetry_heights (currentHeight s)
                  (block_reply env)) as Hheights.
    destruct (FetchFacts.fetchBlockWithRetry_catchup (currentHeight s)
                (block_reply env)) as (n & Hn & _ & _ & Hrun & _).
    destruct (Lake.fetchBlockWithRetry _ _) as [t1 r].
    assert (FetchBlock (currentHeight s) ∈ t1) as Hfetched.
    { injection Hrun as -> _. destruct n as [|[|n]]; [lia | |]; simpl;
        set_solver. }
    simpl in Hheights.
    assert (∀ l h, FetchBlock h ∈ t0 ++ t1 ++ l →
                   (∀ h', FetchBlock h' ∉ l) → h = currentHeight s) as Hall.
    { intros l h. rewrite !elem_of_app. intros [?|[?|?]] Hl;
        [by destruct (Ht0 h) | auto | by destruct (Hl h)]. }
    destruct r as [blockData|e].
    + destruct (is_null blockData) eqn:Hnull.
      * cbv beta iota zeta. split_and!; [done | |].
        { intros h Hh. apply (Hall [] h); [by rewrite app_nil_r | set_solver]. }
        right. unfold Run.advances. simpl.
        split_and!; [done | apply StartFacts.getLastBlockHeight_set
                    | by right | set_solver].
      * pose proof (ParserFrame.loop_parseBlock_sync_state blockData (db s))
          as Hsync.
        cbn [db set_latestKnownHeight].
        destruct (Loop.parseBlock blockData (db s)) as [db' [eventsFound|e]];
          cbv beta iota zeta.
        -- split_and!.
           ++ by case_match.
           ++ intros h Hh. apply (Hall _ h Hh). set_solver.
           ++ right. unfold Run.advances.
              case_match; simpl;
                (split_and!; [done | apply StartFacts.getLastBlockHeight_set
                             | by left | set_solver]).
        -- split_and!; [done | |].
           { intros h Hh. apply (Hall _ h Hh). set_solver. }
           left. by unfold Run.stays.
    + cbv beta iota. split_and!; [done | |].
      { intros h Hh. apply (Hall _ h Hh). set_solver. }
      left. by unfold Run.stays.
Qed.


Lemma attempts_trace_heights_single (height h : Z) (n : nat) :
  FetchBlock h ∈ LakeSrc.attempts_trace height n → h = height.
Proof.
  induction n as [|[|n] IH]; simpl.
  - by intros ?%elem_of_nil.
  - intros Hin%list_elem_of_singleton. congruence.
  - rewrite elem_of_app. intros [Hin | Hin]; [by apply IH|].
    set_solver.
Qed.

Lemma fetchBlockWithRetry_heights_single (height : Z) (replies : nat → HttpReply)
    (h : Z) :
  FetchBlock h ∈ fst (LakeSrc.fetchBlockWithRetry height replies) → h = height.
Proof.
  destruct (FetchFacts.fetchBlockWithRetry_single height replies)
    as (n & _ & _ & _ & -> & _).
  apply attempts_trace_heights_single.
Qed.

Lemma fetchLatestBlockHeight_frame_single (reply : TipReply) (s : State) :
  let '(t, tip, s') := LakeSrc.fetchLatestBlockHeight reply s in
  t = [FetchTip] ∧ tip = latestKnownHeight s'
  ∧ s' = set_latestKnownHeight tip s.
Proof.
  unfold LakeSrc.fetchLatestBlockHeight. destruct s.
  repeat case_match; simplify_eq/=; done.
Qed.


Lemma refresh_state_single (env : Env) (s : State) :
  ∃ tip, LakeSrc.refresh env s
         = (if Z.rem (blocksProcessed s) 500 =? 0 then [FetchTip] else [],
            set_latestKnownHeight tip s).
Proof.
  unfold LakeSrc.refresh. case_match.
  - pose proof (fetchLatestBlockHeight_frame_single (tip_refresh env) s) as Hf.
    destruct (LakeSrc.fetchLatestBlockHeight (tip_refresh env) s)
      as [[t tip] s'].
    destruct Hf as (-> & _ & ->). exists tip. by destruct s.
  - exists (latestKnownHeight s). by destruct s.
Qed.

Lemma iteration_pass_single : Run.pass LakeSrc.iteration.
Proof.
  intros env s. unfold LakeSrc.iteration.
  destruct (refresh_state_single env s) as [tip ->].
  set (t0 := if Z.rem _ _ =? 0 then _ else _).
  assert (∀ h, FetchBlock h ∉ t0) as Ht0.
  { intros h. unfold t0. case_match; set_solver. }
  cbn [currentHeight latestKnownHeight set_latestKnownHeight].
  destruct (currentHeight s >? tip).
  - pose proof (fetchLatestBlockHeight_frame_single (tip_idle env)
                  (set_latestKnownHeight tip s)) as Hf.
    destruct (LakeSrc.fetchLatestBlockHeight _ _) as [[t1 tip'] s1].
    destruct Hf as (-> & _ & ->). cbv beta iota.
    split_and!; [done | set_solver |].
    left. by unfold Run.stays.
  - pose proof (fetchBlockWithRetry_heights_single (currentHeight s)
                  (block_reply env)) as Hheights.
    destruct (FetchFacts.fetchBlockWithRetry_single (currentHeight s)
                (block_reply env)) as (n & Hn & _ & _ & Hrun & _).
    destruct (LakeSrc.fetchBlockWithRetry _ _) as [t1 r].
    assert (FetchBlock (currentHeight s) ∈ t1) as Hfetched.
    { injection Hrun as -> _. destruct n as [|[|n]]; [lia | |]; simpl;
        set_solver. }
    simpl in Hheights.
    assert (∀ l h, FetchBlock h ∈ t0 ++ t1 ++ l →
                   (∀ h', FetchBlock h' ∉ l) → h = currentHeight s) as Hall.
    { intros l h. rewrite !elem_of_app. intros [?|[?|?]] Hl;
        [by destruct (Ht0 h) | auto | by destruct (Hl h)]. }
    destruct r as [blockData|e].
    + destruct (is_null blockData) eqn:Hnull.
      * cbv beta iota zeta. split_and!; [done | |].
        { intros h Hh. apply (Hall [] h); [by rewrite app_nil_r | set_solver]. }
        right. unfold Run.advances. simpl.
        split_and!; [done | apply StartFacts.getLastBlockHeight_set
                    | by right | set_solver].
      * pose proof (ParserFrame.loop_parseBlock_sync_state blockData (db s))
          as Hsync.
        cbn [db set_latestKnownHeight].
        destruct (Loop.parseBlock blockData (db s)) as [db' [eventsFound|e]];
          cbv beta iota zeta.
        -- split_and!.
           ++ by case_match.
           ++ intros h Hh. apply (Hall _ h Hh). set_solver.
           ++ right. unfold Run.advances.
              case_match; simpl;
                (split_and!; [done | apply StartFacts.getLastBlockHeight_set
                             | by left | set_solver]).
        -- split_and!; [done | |].
           { intros h Hh. apply (Hall _ h Hh). set_solver. }
           left. by unfold Run.stays.
    + cbv beta iota. split_and!; [done | |].
      { intros h Hh. apply (Hall _ h Hh). set_solver. }
      left. by unfold Run.stays.
Qed.



End run.

(** *** Loops built from a pass *)

Section loops.

Import Net.

Variable iteration : Env → State → list Effect * State.
Variable loop : list Env → State → list Effect * State.

Hypothesis loop_nil : ∀ s, loop [] s = ([], s).
Hypothesis loop_cons : ∀ env rest s,
  loop (env :: rest) s
  = if running s then
      let '(t, s1) := iteration env s in
      let s2 := if stop_requested env then set_running false s1 else s1 in
      let '(t', s3) := loop rest s2 in
      (t ++ t', s3)
    else ([], s).
Hypothesis iteration_pass : Run.pass iteration.

Lemma elem_of_requested (t : list Effect) (h : Z) :
  h ∈ Run.requested t ↔ FetchBlock h ∈ t.
Proof.
  unfold Run.requested. rewrite list_elem_of_omap. split.
  - intros (e & He & Hh). destruct e; simplify_eq/=. done.
  - intros Hin. by exists (FetchBlock h).
Qed.

Lemma requested_app (t t' : list Effect) :
  Run.requested (t ++ t') = Run.requested t ++ Run.requested t'.
Proof. apply omap_app. Qed.

(** The state a pass is followed from, when [stopIndexing] was or was not
    called while it ran. *)
Lemma after_pass (b : bool) (s1 : State) :
  let s2 := if b then set_running false s1 else s1 in
  currentHeight s2 = currentHeight s1 ∧ db s2 = db s1
  ∧ blocksProcessed s2 = blocksProcessed s1
  ∧ skippedBlocks s2 = skippedBlocks s1.
Proof. by destruct b. Qed.

Lemma loop_summary (envs : list Env) (s : State) :
  let '(t, s') := loop envs s in
  (* the height does not fall and every step is accounted for *)
  currentHeight s ≤ currentHeight s'
  ∧ blocksProcessed s ≤ blocksProcessed s'
  ∧ skippedBlocks s ≤ skippedBlocks s'
  ∧ currentHeight s' - currentHeight s
    = (blocksProcessed s' - blocksProcessed s)
      + (skippedBlocks s' - skippedBlocks s)
  (* the checkpoint follows the height *)
  ∧ (Db.getLastBlockHeight (db s) = Num (currentHeight s - 1) →
     Db.getLastBlockHeight (db s') = Num (currentHeight s' - 1))
  ∧ (currentHeight s' = currentHeight s →
     Db.sync_state (db s') = Db.sync_state (db s))
  (* the requests *)
  ∧ StronglySorted Z.le (Run.requested t)
  ∧ (∀ h, h ∈ Run.requested t → currentHeight s ≤ h ≤ currentHeight s')
  ∧ (∀ h, currentHeight s ≤ h < currentHeight s' → h ∈ Run.requested t).
Proof.
  revert s. induction envs as [|env rest IH]; intros s.
  - rewrite loop_nil. split_and!; try done; try lia.
    + constructor.
    + by intros h ?%elem_of_nil.
  - rewrite loop_cons. destruct (running s).
    2:{ split_and!; try done; try lia.
        + constructor.
        + by intros h ?%elem_of_nil. }
    pose proof (iteration_pass env s) as Hpass.
    destruct (iteration env s) as [t s1].
    destruct Hpass as (_ & Hheights & Hstep).
    pose proof (after_pass (stop_requested env) s1) as Hafter.
    cbv zeta in Hafter. cbv zeta.
    set (s2 := if stop_requested env then set_running false s1 else s1) in *.
    destruct Hafter as (Hh2 & Hdb2 & Hbp2 & Hsk2).
    specialize (IH s2). destruct (loop rest s2) as [t' s3].
    destruct IH as (Hmono & Hbp & Hsk & Hacc & Hck & Hsame & Hsorted & Hrange
                    & Hcover).
    rewrite Hh2, Hdb2, Hbp2, Hsk2 in *.
    assert (∀ h, h ∈ Run.requested t → h = currentHeight s) as Hreq.
    { intros h. rewrite elem_of_requested. apply Hheights. }
    rewrite requested_app.
    destruct Hstep as [(Hh1 & Hsync & Hbp1 & Hsk1)
                      | (Hh1 & Hck1 & Hcount & Hfetched)].
    + rewrite Hh1, Hbp1, Hsk1 in *. split_and!; try done.
      * intros Hinv. apply Hck.
        by rewrite (getLastBlockHeight_sync_state _ _ Hsync).
      * intros Heq. by rewrite Hsame.
      * apply StronglySorted_app_2; [| |done].
        -- intros h1 h2 H1 H2. rewrite (Hreq _ H1).
           by apply Hrange.
        -- clear -Hreq. induction (Run.requested t) as [|h l IHl];
             constructor.
           ++ apply IHl. intros ??. apply Hreq. by right.
           ++ rewrite Forall_forall. intros h' Hh'.
              rewrite (Hreq h), (Hreq h'); [done | by right | by left].
      * intros h. rewrite elem_of_app. intros [Hin | Hin]; [|by apply Hrange].
        rewrite (Hreq _ Hin). lia.
      * intros h Hh. rewrite elem_of_app. right. by apply Hcover.
    + rewrite Hh1 in *. split_and!; try lia.
      * intros _. apply Hck. rewrite Hck1. f_equal. lia.
      * apply StronglySorted_app_2; [| |done].
        -- intros h1 h2 H1 H2. rewrite (Hreq _ H1).
           apply Hrange in H2. lia.
        -- clear -Hreq. induction (Run.requested t) as [|h l IHl];
             constructor.
           ++ apply IHl. intros ??. apply Hreq. by right.
           ++ rewrite Forall_forall. intros h' Hh'.
              rewrite (Hreq h), (Hreq h'); [done | by right | by left].
      * intros h. rewrite elem_of_app. intros [Hin | Hin].
        -- rewrite (Hreq _ Hin). lia.
        -- apply Hrange in Hin. lia.
      * intros h Hh. rewrite elem_of_app.
        destruct (decide (h = currentHeight s)) as [-> | Hne].
        -- left. by apply elem_of_requested.
        -- right. apply Hcover. lia.
Qed.


Lemma loop_stopped (envs : list Env) (s : State) :
  running s = false → loop envs s = ([], s).
Proof.
  intros Hrun. destruct envs as [|env rest]; [apply loop_nil|].
  by rewrite loop_cons, Hrun.
Qed.

Lemma loop_stops (pre : list Env) (env : Env) (rest : list Env) (s : State) :
  Forall (λ e, stop_requested e = false) pre →
  stop_requested env = true →
  running s = true →
  loop (pre ++ env :: rest) s = loop (pre ++ [env]) s
  ∧ running (snd (loop (pre ++ [env]) s)) = false.
Proof.
  intros Hpre Henv. revert s.
  induction Hpre as [|e pre He Hpre IH]; intros s Hrun.
  - simpl. rewrite !loop_cons, Hrun, Henv.
    destruct (iteration env s) as [t s1]. cbv zeta.
    rewrite !loop_stopped by done. done.
  - simpl. rewrite !loop_cons, Hrun, He.
    pose proof (iteration_pass e s) as Hpass.
    destruct (iteration e s) as [t s1]. destruct Hpass as (Hrun1 & _).
    rewrite Hrun in Hrun1. cbv zeta. destruct (IH s1 Hrun1) as [-> Hstop].
    by destruct (loop (pre ++ [env]) s1).
Qed.

End loops.

(** *** The two revisions *)

Section revisions.

Context `{Host}.
Import Net.

Lemma loop_summary_catchup (envs : list Env) (s : State) :
  let '(t, s') := Lake.loop envs s in
  currentHeight s ≤ currentHeight s'
  ∧ blocksProcessed s ≤ blocksProcessed s'
  ∧ skippedBlocks s ≤ skippedBlocks s'
  ∧ currentHeight s' - currentHeight s
    = (blocksProcessed s' - blocksProcessed s)
      + (skippedBlocks s' - skippedBlocks s)
  ∧ (Db.getLastBlockHeight (db s) = Num (currentHeight s - 1) →
     Db.getLastBlockHeight (db s') = Num (currentHeight s' - 1))
  ∧ (currentHeight s' = currentHeight s →
     Db.sync_state (db s') = Db.sync_state (db s))
  ∧ StronglySorted Z.le (Run.requested t)
  ∧ (∀ h, h ∈ Run.requested t → currentHeight s ≤ h ≤ currentHeight s')
  ∧ (∀ h, currentHeight s ≤ h < currentHeight s' → h ∈ Run.requested t).
Proof.
  apply (loop_summary Lake.iteration Lake.loop); [done | done |].
  apply iteration_pass.
Qed.

Lemma loop_summary_single (envs : list Env) (s : State) :
  let '(t, s') := LakeSrc.loop envs s in
  currentHeight s ≤ currentHeight s'
  ∧ blocksProcessed s ≤ blocksProcessed s'
  ∧ skippedBlocks s ≤ skippedBlocks s'
  ∧ currentHeight s' - currentHeight s
    = (blocksProcessed s' - blocksProcessed s)
      + (skippedBlocks s' - skippedBlocks s)
  ∧ (Db.getLastBlockHeight (db s) = Num (currentHeight s - 1) →
     Db.getLastBlockHeight (db s') = Num (currentHeight s' - 1))
  ∧ (currentHeight s' = currentHeight s →
     Db.sync_state (db s') = Db.sync_state (db s))
  ∧ StronglySorted Z.le (Run.requested t)
  ∧ (∀ h, h ∈ Run.requested t → currentHeight s ≤ h ≤ currentHeight s')
  ∧ (∀ h, currentHeight s ≤ h < currentHeight s' → h ∈ Run.requested t).
Proof.
  apply (loop_summary LakeSrc.iteration LakeSrc.loop); [done | done |].
  apply iteration_pass_single.
Qed.

(** The state in which [startIndexing] enters the loop. *)
Lemma startIndexing_enters (start_reply tip_reply : TipReply)
    (envs : list Env) (s : State) :
  running s = false →
  ∃ s5, Lake.startIndexing start_reply tip_reply envs s
        = (fst (fst (Lake.getStartBlockHeight start_reply
                       (set_running true s)))
           ++ [FetchTip] ++ fst (Lake.loop envs s5),
           snd (Lake.loop envs s5))
    ∧ currentHeight s5
      = snd (fst (Lake.getStartBlockHeight start_reply (set_running true s)))
    ∧ db s5 = db s ∧ running s5 = true
    ∧ blocksProcessed s5 = 0 ∧ skippedBlocks s5 = 0 ∧ totalEvents s5 = 0.
Proof.
  intros Hrun. unfold Lake.startIndexing. rewrite Hrun.
  assert (db (snd (Lake.getStartBlockHeight start_reply (set_running true s)))
          = db s
          ∧ running (snd (Lake.getStartBlockHeight start_reply
                            (set_running true s))) = true) as Hstart.
  { unfold Lake.getStartBlockHeight, Lake.start_without_checkpoint,
      Lake.fetchLatestBlockHeight.
    repeat case_match; simplify_eq/=; done. }
  destruct (Lake.getStartBlockHeight start_reply (set_running true s))
    as [[t1 start] s1].
  simpl in Hstart. destruct Hstart as [Hdb Hrun1].
  pose proof (fetchLatestBlockHeight_frame tip_reply
                (set_currentHeight start s1)) as Hf.
  destruct (Lake.fetchLatestBlockHeight tip_reply
              (set_currentHeight start s1)) as [[t2 tip] s3].
  destruct Hf as (-> & _ & ->).
  eexists. split.
  - destruct (Lake.loop envs _) as [t3 s6] eqn:E. simpl. by rewrite E.
  - simpl. done.
Qed.

Lemma startIndexing_enters_single (start_reply tip_reply : TipReply)
    (envs : list Env) (s : State) :
  running s = false →
  ∃ s5, LakeSrc.startIndexing start_reply tip_reply envs s
        = (fst (fst (LakeSrc.getStartBlockHeight start_reply
                       (set_running true s)))
           ++ [FetchTip] ++ fst (LakeSrc.loop envs s5),
           snd (LakeSrc.loop envs s5))
    ∧ currentHeight s5
      = snd (fst (LakeSrc.getStartBlockHeight start_reply
                    (set_running true s)))
    ∧ db s5 = db s ∧ running s5 = true
    ∧ blocksProcessed s5 = 0 ∧ skippedBlocks s5 = 0 ∧ totalEvents s5 = 0.
Proof.
  intros Hrun. unfold LakeSrc.startIndexing. rewrite Hrun.
  assert (db (snd (LakeSrc.getStartBlockHeight start_reply
                     (set_running true s))) = db s
          ∧ running (snd (LakeSrc.getStartBlockHeight start_reply
                            (set_running true s))) = true) as Hstart.
  { unfold LakeSrc.getStartBlockHeight, LakeSrc.start_without_checkpoint,
      LakeSrc.fetchLatestBlockHeight.
    repeat case_match; simplify_eq/=; done. }
  destruct (LakeSrc.getStartBlockHeight start_reply (set_running true s))
    as [[t1 start] s1].
  simpl in Hstart. destruct Hstart as [Hdb Hrun1].
  pose proof (fetchLatestBlockHeight_frame_single tip_reply
                (set_currentHeight start s1)) as Hf.
  destruct (LakeSrc.fetchLatestBlockHeight tip_reply
              (set_currentHeight start s1)) as [[t2 tip] s3].
  destruct Hf as (-> & _ & ->).
  eexists. split.
  - destruct (LakeSrc.loop envs _) as [t3 s6] eqn:E. simpl. by rewrite E.
  - simpl. done.
Qed.

(** X13. A start from a store whose checkpoint [c] is above 0, followed by
    any number of passes through the loop, whatever the environment
    answers: the loop is at a height of [c + 1] or more, the checkpoint in
    the store is that height minus one, and a start from the store as it
    is now resumes at that height without a request.  Both revisions of
    lake.ts. *)
Theorem restart_resumes (start_reply tip_reply again : TipReply)
    (envs : list Env) (s : State) (c : Z) :
  Db.getSyncState "last_block_height" (db s) = Some (JS.String_ c) →
  0 < c →
  running s = false →
  (let s' := snd (Lake.startIndexing start_reply tip_reply envs s) in
   c + 1 ≤ currentHeight s'
   ∧ Db.getLastBlockHeight (db s') = Num (currentHeight s' - 1)
   ∧ Lake.getStartBlockHeight again s' = ([], currentHeight s', s'))
  ∧ (let s' := snd (LakeSrc.startIndexing start_reply tip_reply envs s) in
     c + 1 ≤ currentHeight s'
     ∧ Db.getLastBlockHeight (db s') = Num (currentHeight s' - 1)
     ∧ LakeSrc.getStartBlockHeight again s' = ([], currentHeight s', s')).
Proof.
  intros Hc Hpos Hrun.
  pose proof (StartFacts.getLastBlockHeight_stored c (db s) Hc) as Hck.
  destruct (StartFacts.getStartBlockHeight_saved start_reply
              (set_running true s) c Hck Hpos) as [Hs Hs'].
  split.
  - destruct (startIndexing_enters start_reply tip_reply envs s Hrun)
      as (s5 & -> & Hh & Hdb & _).
    rewrite Hs in Hh. simpl in Hh. simpl.
    pose proof (loop_summary_catchup envs s5) as Hloop.
    destruct (Lake.loop envs s5) as [t s']. simpl.
    destruct Hloop as (Hmono & _ & _ & _ & Hinv & _).
    rewrite Hh, Hdb in *.
    assert (Db.getLastBlockHeight (db s') = Num (currentHeight s' - 1))
      as Hck' by (apply Hinv; rewrite Hck; f_equal; lia).
    split_and!; [lia | done |].
    destruct (StartFacts.getStartBlockHeight_saved again s'
                (currentHeight s' - 1) Hck' ltac:(lia)) as [-> _].
    do 2 f_equal. lia.
  - destruct (startIndexing_enters_single start_reply tip_reply envs s Hrun)
      as (s5 & -> & Hh & Hdb & _).
    rewrite Hs' in Hh. simpl in Hh. simpl.
    pose proof (loop_summary_single envs s5) as Hloop.
    destruct (LakeSrc.loop envs s5) as [t s']. simpl.
    destruct Hloop as (Hmono & _ & _ & _ & Hinv & _).
    rewrite Hh, Hdb in *.
    assert (Db.getLastBlockHeight (db s') = Num (currentHeight s' - 1))
      as Hck' by (apply Hinv; rewrite Hck; f_equal; lia).
    split_and!; [lia | done |].
    destruct (StartFacts.getStartBlockHeight_saved again s'
                (currentHeight s' - 1) Hck' ltac:(lia)) as [_ ->].
    do 2 f_equal. lia.
Qed.


(** X14. From its start the loop accounts for every height it leaves
    behind: the current height is the start height plus the number of
    blocks processed plus the number of blocks skipped, and neither
    counter is negative.  Both revisions of lake.ts. *)
Theorem heights_accounted (start_reply tip_reply : TipReply)
    (envs : list Env) (s : State) :
  running s = false →
  (let start :=
     snd (fst (Lake.getStartBlockHeight start_reply (set_running true s))) in
   let s' := snd (Lake.startIndexing start_reply tip_reply envs s) in
   currentHeight s' = start + blocksProcessed s' + skippedBlocks s'
   ∧ 0 ≤ blocksProcessed s' ∧ 0 ≤ skippedBlocks s')
  ∧ (let start :=
       snd (fst (LakeSrc.getStartBlockHeight start_reply
                   (set_running true s))) in
     let s' := snd (LakeSrc.startIndexing start_reply tip_reply envs s) in
     currentHeight s' = start + blocksProcessed s' + skippedBlocks s'
     ∧ 0 ≤ blocksProcessed s' ∧ 0 ≤ skippedBlocks s').
Proof.
  intros Hrun. split.
  - destruct (startIndexing_enters start_reply tip_reply envs s Hrun)
      as (s5 & -> & Hh & _ & _ & Hbp & Hsk & _).
    pose proof (loop_summary_catchup envs s5) as Hloop.
    destruct (Lake.loop envs s5) as [t s']. simpl.
    destruct Hloop as (_ & ? & ? & ? & _). lia.
  - destruct (startIndexing_enters_single start_reply tip_reply envs s Hrun)
      as (s5 & -> & Hh & _ & _ & Hbp & Hsk & _).
    pose proof (loop_summary_single envs s5) as Hloop.
    destruct (LakeSrc.loop envs s5) as [t s']. simpl.
    destruct Hloop as (_ & ? & ? & ? & _). lia.
Qed.

(** X15. The loop asks for blocks in ascending order of height and
    passes no height without asking for it: the heights of its block
    requests, in the order they were made, do not fall; each lies between
    the height the loop was entered with and the height it was left with;
    and every height from the first up to, not including, the last was
    asked for.  Both revisions of lake.ts. *)
Theorem blocks_requested_in_order (envs : list Env) (s : State) :
  (let t := fst (Lake.loop envs s) in
   let s' := snd (Lake.loop envs s) in
   StronglySorted Z.le (Run.requested t)
   ∧ (∀ h, h ∈ Run.requested t → currentHeight s ≤ h ≤ currentHeight s')
   ∧ (∀ h, currentHeight s ≤ h < currentHeight s' → h ∈ Run.requested t))
  ∧ (let t := fst (LakeSrc.loop envs s) in
     let s' := snd (LakeSrc.loop envs s) in
     StronglySorted Z.le (Run.requested t)
     ∧ (∀ h, h ∈ Run.requested t →
             currentHeight s ≤ h ≤ currentHeight s')
     ∧ (∀ h, currentHeight s ≤ h < currentHeight s' →
             h ∈ Run.requested t)).
Proof.
  split.
  - pose proof (loop_summary_catchup envs s) as Hloop.
    destruct (Lake.loop envs s) as [t s']. simpl. naive_solver.
  - pose proof (loop_summary_single envs s) as Hloop.
    destruct (LakeSrc.loop envs s) as [t s']. simpl. naive_solver.
Qed.

(** X17. [stopIndexing] ends the loop at the next test of [running]: the
    pass during which it is called runs to its end, the passes that would
    have followed are not made, and [running] is false afterwards; a loop
    entered after [stopIndexing] does nothing.  Both revisions of
    lake.ts. *)
Theorem stop_ends_loop (pre : list Env) (env : Env) (rest : list Env)
    (s : State) :
  Forall (λ e, stop_requested e = false) pre →
  stop_requested env = true →
  running s = true →
  (Lake.loop (pre ++ env :: rest) s = Lake.loop (pre ++ [env]) s
   ∧ running (snd (Lake.loop (pre ++ env :: rest) s)) = false
   ∧ Lake.loop rest (Lake.stopIndexing s) = ([], Lake.stopIndexing s))
  ∧ (LakeSrc.loop (pre ++ env :: rest) s = LakeSrc.loop (pre ++ [env]) s
     ∧ running (snd (LakeSrc.loop (pre ++ env :: rest) s)) = false
     ∧ LakeSrc.loop rest (LakeSrc.stopIndexing s)
       = ([], LakeSrc.stopIndexing s)).
Proof.
  intros Hpre Henv Hrun. split.
  - destruct (loop_stops Lake.iteration Lake.loop (λ _, eq_refl)
                (λ _ _ _, eq_refl) iteration_pass pre env rest s
                Hpre Henv Hrun) as [-> Hstop].
    split_and!; [done | done |].
    by apply (loop_stopped Lake.iteration Lake.loop (λ _, eq_refl)
                (λ _ _ _, eq_refl)).
  - destruct (loop_stops LakeSrc.iteration LakeSrc.loop (λ _, eq_refl)
                (λ _ _ _, eq_refl) iteration_pass_single pre env rest s
                Hpre Henv Hrun) as [-> Hstop].
    split_and!; [done | done |].
    by apply (loop_stopped LakeSrc.iteration LakeSrc.loop (λ _, eq_refl)
                (λ _ _ _, eq_refl)).
Qed.

(** X16. A pass through the loop body asks for no block but the one at
    the current height, and for that one only when the height is not above
    the chain tip it has cached after the refresh at its top.  Both
    revisions of lake.ts. *)
Theorem no_request_above_tip (env : Env) (s : State) (h : Z) :
  (FetchBlock h ∈ fst (Lake.iteration env s) →
   h = currentHeight s
   ∧ h ≤ latestKnownHeight (snd (Lake.refresh env s)))
  ∧ (FetchBlock h ∈ fst (LakeSrc.iteration env s) →
     h = currentHeight s
     ∧ h ≤ latestKnownHeight (snd (LakeSrc.refresh env s))).
Proof.
  split; intros Hin.
  - pose proof (iteration_pass env s) as Hpass.
    assert (h = currentHeight s) as ->.
    { destruct (Lake.iteration env s) as [t s'].
      destruct Hpass as (_ & Hheights & _). by apply Hheights. }
    split; [done|]. clear Hpass. revert Hin. unfold Lake.iteration.
    destruct (refresh_state env s) as [tip ->].
    cbn [currentHeight latestKnownHeight set_latestKnownHeight snd].
    destruct (currentHeight s >? tip) eqn:Htip; [|lia].
    pose proof (fetchLatestBlockHeight_frame (tip_idle env)
                  (set_latestKnownHeight tip s)) as Hf.
    destruct (Lake.fetchLatestBlockHeight _ _) as [[t1 tip'] s1].
    destruct Hf as (-> & _ & _). simpl. case_match; set_solver.
  - pose proof (iteration_pass_single env s) as Hpass.
    assert (h = currentHeight s) as ->.
    { destruct (LakeSrc.iteration env s) as [t s'].
      destruct Hpass as (_ & Hheights & _). by apply Hheights. }
    split; [done|]. clear Hpass. revert Hin. unfold LakeSrc.iteration.
    destruct (refresh_state_single env s) as [tip ->].
    cbn [currentHeight latestKnownHeight set_latestKnownHeight snd].
    destruct (currentHeight s >? tip) eqn:Htip; [|lia].
    pose proof (fetchLatestBlockHeight_frame_single (tip_idle env)
                  (set_latestKnownHeight tip s)) as Hf.
    destruct (LakeSrc.fetchLatestBlockHeight _ _) as [[t1 tip'] s1].
    destruct Hf as (-> & _ & _). simpl. case_match; set_solver.
Qed.

(** X12. A pass that fetches a block and parses it without an exception
    writes the height of the block as the checkpoint, over the store the
    parser left; it goes on to the next height, counts the block as
    processed, not as skipped, and adds the number of events to the total
    when that number is above 0.  Both revisions of lake.ts. *)
Theorem processed_block_checkpoint (env : Env) (s : State) (data : json)
    (d' : Db.t) (n : Z) :
  is_null data = false →
  Loop.parseBlock data (db s) = (d', Normal n) →
  (∀ (t0 t1 : list Effect) (s0 : State),
     Lake.refresh env s = (t0, s0) →
     currentHeight s0 ≤ latestKnownHeight s0 →
     Lake.fetchBlockWithRetry (currentHeight s0) (block_reply env)
     = (t1, Normal data) →
     let s' := snd (Lake.iteration env s) in
     currentHeight s' = currentHeight s + 1
     ∧ Db.getLastBlockHeight (db s') = Num (currentHeight s)
     ∧ Db.messages (db s') = Db.messages d'
     ∧ Db.profiles (db s') = Db.profiles d'
     ∧ blocksProcessed s' = blocksProcessed s + 1
     ∧ skippedBlocks s' = skippedBlocks s
     ∧ totalEvents s'
       = (if n >? 0 then totalEvents s + n else totalEvents s))
  ∧ (∀ (t0 t1 : list Effect) (s0 : State),
       LakeSrc.refresh env s = (t0, s0) →
       currentHeight s0 ≤ latestKnownHeight s0 →
       LakeSrc.fetchBlockWithRetry (currentHeight s0) (block_reply env)
       = (t1, Normal data) →
       let s' := snd (LakeSrc.iteration env s) in
       currentHeight s' = currentHeight s + 1
       ∧ Db.getLastBlockHeight (db s') = Num (currentHeight s)
       ∧ Db.messages (db s') = Db.messages d'
       ∧ Db.profiles (db s') = Db.profiles d'
       ∧ blocksProcessed s' = blocksProcessed s + 1
       ∧ skippedBlocks s' = skippedBlocks s
       ∧ totalEvents s'
         = (if n >? 0 then totalEvents s + n else totalEvents s)).
Proof.
  intros Hnull Hparse. split; intros t0 t1 s0 Hr Htip Hfetch.
  - destruct (LoopFacts.refresh_frame _ _ _ _ Hr) as (Hh & Hdb & Hsk & Hbp).
    assert (totalEvents s0 = totalEvents s) as Hte.
    { destruct (refresh_state env s) as [tip Hr']. rewrite Hr in Hr'.
      by injection Hr' as _ ->. }
    unfold Lake.iteration.
    rewrite Hr, (LoopFacts.not_at_tip _ Htip), Hfetch, Hnull, Hdb, Hparse.
    cbv zeta. destruct (n >? 0); simpl;
      rewrite Hh, Hbp, Hsk, Hte;
      (split_and!; try done; apply StartFacts.getLastBlockHeight_set).
  - destruct (LoopFacts.refresh_frame_single _ _ _ _ Hr)
      as (Hh & Hdb & Hsk & Hbp).
    assert (totalEvents s0 = totalEvents s) as Hte.
    { destruct (refresh_state_single env s) as [tip Hr']. rewrite Hr in Hr'.
      by injection Hr' as _ ->. }
    unfold LakeSrc.iteration.
    rewrite Hr, (LoopFacts.not_at_tip _ Htip), Hfetch, Hnull, Hdb, Hparse.
    cbv zeta. destruct (n >? 0); simpl;
      rewrite Hh, Hbp, Hsk, Hte;
      (split_and!; try done; apply StartFacts.getLastBlockHeight_set).
Qed.

End revisions.


Lemma processed_block_checkpoint_witness :
  let s' := snd (@Lake.iteration Demo.host Demo.env_block Demo.behind) in
  Net.currentHeight s' = 101
  ∧ Db.getLastBlockHeight (Net.db s') = Num 100
  ∧ length (Db.messages (Net.db s')) = 1%nat
  ∧ Net.blocksProcessed s' = 2
  ∧ Net.totalEvents s' = 1.
Proof.
  destruct (@processed_block_checkpoint Demo.host Demo.env_block Demo.behind
              (default JNull (JsonText.parse Demo.block_text))
              (fst (@Loop.parseBlock Demo.host
                      (default JNull (JsonText.parse Demo.block_text))
                      Db.empty))
              1 eq_refl eq_refl) as [Hcatchup _].
  destruct (Hcatchup [] [Net.FetchBlock 100] Demo.behind eq_refl
              ltac:(simpl; lia) eq_refl)
    as (Hh & Hck & Hms & _ & Hbp & _ & Hte).
  cbv zeta. rewrite Hh, Hck, Hms, Hbp, Hte. by split_and!.
Defined.

Lemma restart_resumes_witness :
  let s' :=
    snd (@Lake.startIndexing Demo.host (Demo.tip 300) (Demo.tip 300)
           [Demo.env_block; Demo.env_missing] Sample.restarted) in
  Net.currentHeight s' = 102
  ∧ Db.getLastBlockHeight (Net.db s') = Num (Net.currentHeight s' - 1)
  ∧ @Lake.getStartBlockHeight Demo.host (Demo.tip 300) s'
    = ([], Net.currentHeight s', s').
Proof.
  destruct (@restart_resumes Demo.host (Demo.tip 300) (Demo.tip 300)
              (Demo.tip 300) [Demo.env_block; Demo.env_missing]
              Sample.restarted 99 eq_refl ltac:(lia) eq_refl)
    as [(_ & Hck & Hresume) _].
  cbv zeta. split_and!; [reflexivity | exact Hck | exact Hresume].
Defined.

Lemma heights_accounted_witness :
  let s' :=
    snd (@Lake.startIndexing Demo.host (Demo.tip 300) (Demo.tip 300)
           [Demo.env_block; Demo.env_missing; Demo.env_down]
           Sample.restarted) in
  Net.currentHeight s' = 100 + Net.blocksProcessed s' + Net.skippedBlocks s'
  ∧ Net.blocksProcessed s' = 1 ∧ Net.skippedBlocks s' = 1.
Proof.
  destruct (@heights_accounted Demo.host (Demo.tip 300) (Demo.tip 300)
              [Demo.env_block; Demo.env_missing; Demo.env_down]
              Sample.restarted eq_refl) as [(Hacc & _) _].
  cbv zeta. split_and!; [exact Hacc | reflexivity | reflexivity].
Defined.

Lemma blocks_requested_in_order_witness :
  Run.requested
    (fst (@Lake.loop Demo.host
            [Demo.env_block; Demo.env_missing; Demo.env_down] Demo.behind))
  = [100; 101; 101; 101; 102; 102; 102]
  ∧ StronglySorted Z.le
      (Run.requested
         (fst (@Lake.loop Demo.host
                 [Demo.env_block; Demo.env_missing; Demo.env_down]
                 Demo.behind))).
Proof.
  destruct (@blocks_requested_in_order Demo.host
              [Demo.env_block; Demo.env_missing; Demo.env_down] Demo.behind)
    as [(Hsorted & _) _].
  split; [reflexivity | exact Hsorted].
Defined.

Lemma no_request_above_tip_witness :
  fst (@Lake.iteration Demo.host Demo.env_missing Demo.past_tip)
  = [Net.Sleep 1000; Net.FetchTip]
  ∧ 100 = Net.currentHeight Demo.behind
  ∧ 100 ≤ Net.latestKnownHeight
            (snd (Lake.refresh Demo.env_missing Demo.behind)).
Proof.
  split; [reflexivity |].
  destruct (@no_request_above_tip Demo.host Demo.env_missing Demo.behind 100)
    as [Hcatchup _].
  apply Hcatchup. vm_compute. constructor.
Defined.

Lemma stop_ends_loop_witness :
  @Lake.loop Demo.host
    [Demo.env_block; Sample.env_stop; Demo.env_block; Demo.env_block]
    Demo.behind
  = @Lake.loop Demo.host [Demo.env_block; Sample.env_stop] Demo.behind
  ∧ Run.requested
      (fst (@Lake.loop Demo.host
              [Demo.env_block; Sample.env_stop; Demo.env_block;
               Demo.env_block] Demo.behind))
    = [100; 101; 101; 101].
Proof.
  destruct (@stop_ends_loop Demo.host [Demo.env_block] Sample.env_stop
              [Demo.env_block; Demo.env_block] Demo.behind
              ltac:(by repeat constructor) eq_refl eq_refl)
    as [(Hloop & _) _].
  split; [exact Hloop | reflexivity].
Defined.

End RunFacts.

(** * What the parser passes over, and what it does twice *)

Module EventFacts.
Section facts.

Context `{Host}.

(** X18. A block in which no log line of the indexed contract starts with
    the marker (other contracts may log what they like, events of this
    standard included) is parsed to no sink call: the store is as it was
    and the count is 0. *)
Theorem unmarked_logs_ignored (b : Block.NearBlock) (db : Db.t) :
  (∀ shard reo log,
     shard ∈ Block.shards b →
     reo ∈ Block.receipt_execution_outcomes shard →
     log ∈ Block.logs (Block.outcome (Block.execution_outcome reo)) →
     Block.executor_id (Block.outcome (Block.execution_outcome reo))
     = Parser.CONTRACT_ID →
     JS.startsWith log Parser.marker = false) →
  Parser.parseBlock b db = (db, 0).
Proof.
  intros Hlogs. rewrite ParserFacts.parseBlock_lines.
  assert (Parser.event_lines b = []) as ->; [|done].
  apply elem_of_nil_inv. intros line Hline.
  unfold Parser.event_lines in Hline.
  apply list_elem_of_bind in Hline as (shard & Hline & Hshard).
  apply list_elem_of_bind in Hline as (reo & Hline & Hreo).
  unfold Parser.outcome_lines in Hline.
  destruct (String.eqb _ Parser.CONTRACT_ID) eqn:Hexec;
    [|by apply elem_of_nil in Hline].
  apply String.eqb_eq in Hexec.
  apply list_elem_of_fmap in Hline as (log & -> & Hlog).
  apply list_elem_of_filter in Hlog as [Hmark Hlog].
  rewrite (Hlogs shard reo log) in Hmark by done. discriminate Hmark.
Qed.

Lemma for_items_ignored
    (body : json → Parser.state → completion Parser.state)
    (items : list json) (st : Parser.state) :
  (∀ item, body item st = Normal st) →
  Parser.for_items body items st = (st, None).
Proof.
  intros Hbody. induction items as [|item items IH]; [done|].
  simpl. by rewrite Hbody.
Qed.

(** X19. An event log line of the indexed contract whose JSON is an event
    of another standard, or an event whose tag is none of [message_sent],
    [message_sent_with_payment] and [key_registered], changes neither the
    store nor the count, whatever its [data] holds: the [group_created]
    event that types.ts declares is among them. *)
Theorem foreign_events_ignored (h : Z) (ts : string) (st : Parser.state)
    (line : Block.ReceiptExecutionOutcome * string) (event : json) :
  JSON_parse (JS.slice (String.length Parser.marker) (snd line))
  = Some event →
  (∃ standard, JS.prop event "standard" = Normal standard
               ∧ JS.strict_eq_str standard "whisper" = false)
  ∨ (∃ tag, JS.prop event "event" = Normal tag
            ∧ JS.strict_eq_str tag "message_sent" = false
            ∧ JS.strict_eq_str tag "message_sent_with_payment" = false
            ∧ JS.strict_eq_str tag "key_registered" = false) →
  Parser.handle_line h ts st line = st.
Proof.
  intros Hparse Hforeign. unfold Parser.handle_line, Parser.try_event.
  rewrite Hparse.
  destruct (JS.prop event "standard") as [standard|e] eqn:Hstd; [|done].
  destruct (JS.strict_eq_str standard "whisper") eqn:Hw; [|done].
  destruct Hforeign as [(standard' & [= <-] & Hne)
                       | (tag & Htag & H1 & H2 & H3)]; [congruence|].
  cbn [negb].
  destruct (cbind (JS.prop event "data") _) as [items|e]; [|done].
  rewrite for_items_ignored; [done|].
  intros item. by apply ParserFacts.handle_item_other_tag with tag.
Qed.

Lemma for_items_recognized (event : json) (txHash : string) (h : Z)
    (ts : string) (items : list json) (ops : list Parser.Stored)
    (rest : list json) (db : Db.t) (n : Z) :
  Forall2 (Parser.recognized event txHash h ts) items ops →
  Parser.for_items (Parser.handle_item event txHash h ts) (items ++ rest)
    (db, n)
  = Parser.for_items (Parser.handle_item event txHash h ts) rest
      (fold_left Parser.apply_stored ops db, n + Z.of_nat (length ops)).
Proof.
  intros Hall. revert db n.
  induction Hall as [|item op items ops Hitem _ IH]; intros db n.
  - simpl. do 2 f_equal. lia.
  - rewrite <- app_comm_cons. cbn [Parser.for_items].
    rewrite (ParserFacts.handle_item_recognized _ _ _ _ _ _ db n Hitem).
    rewrite IH. simpl fold_left. do 2 f_equal. simpl length. lia.
Qed.

(** X20. The items of one event are not stored all or none: when the
    handling of an item raises, the rows of the items before it stay in
    the store and stay counted, and the items after it are not looked
    at. *)
Theorem event_items_not_rolled_back (h : Z) (ts : string) (db : Db.t)
    (n : Z) (line : Block.ReceiptExecutionOutcome * string) (event : json)
    (items : list json) (bad : json) (rest : list json)
    (ops : list Parser.Stored) :
  let txHash :=
    JS.or_else (Block.tx_hash (fst line))
               (Block.id (Block.execution_outcome (fst line))) in
  JSON_parse (JS.slice (String.length Parser.marker) (snd line))
  = Some event →
  JS.prop event "standard" = Normal (Some (JStr "whisper")) →
  JS.prop event "data" = Normal (Some (JArr (items ++ bad :: rest))) →
  Forall2 (Parser.recognized event txHash h ts) items ops →
  (∀ st, ∃ e, Parser.handle_item event txHash h ts bad st = Throw e) →
  Parser.handle_line h ts (db, n) line
  = (fold_left Parser.apply_stored ops db, n + Z.of_nat (length ops)).
Proof.
  intros txHash Hparse Hstd Hdata Hitems Hbad.
  unfold Parser.handle_line, Parser.try_event. rewrite Hparse, Hstd.
  change (JS.strict_eq_str (Some (JStr "whisper")) "whisper") with true.
  cbn [negb]. rewrite Hdata. cbn [cbind Parser.iterate].
  fold txHash. rewrite (for_items_recognized _ _ _ _ _ _ _ _ _ Hitems).
  cbn [Parser.for_items].
  by destruct (Hbad (fold_left Parser.apply_stored ops db,
                     n + Z.of_nat (length ops))) as [e ->].
Qed.

(** *** Taking a block a second time *)

Lemma handle_lines_outcomes (h : Z) (ts : string)
    (lines : list (Block.ReceiptExecutionOutcome * string))
    (os : list (option Parser.Stored)) (db : Db.t) (n : Z) :
  Forall2 (Events.line_outcome h ts) lines os →
  fold_left (Parser.handle_line h ts) lines (db, n)
  = (fold_left Parser.apply_stored (Events.calls os) db,
     n + Z.of_nat (length (Events.calls os))).
Proof.
  intros Hall. revert db n.
  induction Hall as [|line o lines os Hline _ IH]; intros db n.
  - simpl. f_equal. lia.
  - simpl fold_left. destruct o as [op|]; simpl in Hline.
    + rewrite (ParserFacts.handle_line_event _ _ _ _ _ _ Hline), IH.
      change (Events.calls (Some op :: os)) with (op :: Events.calls os).
      cbn [fold_left length]. f_equal. lia.
    + by rewrite (ParserFacts.handle_line_malformed _ _ _ _ Hline), IH.
Qed.

Lemma typed_string (v : jsval) (s : string) :
  Sink.as_string v = Some s → v = Some (JStr s).
Proof. destruct v as [[]|]; simpl; congruence. Qed.

Lemma recognized_row (event : json) (txHash : string) (h : Z)
    (ts : string) (item : json) (op : Parser.Stored) :
  Parser.recognized event txHash h ts item op →
  match op with
  | Parser.StoreMessage row =>
      Db.tx_hash row = txHash
      ∧ Db.block_height row = h
      ∧ Db.timestamp_ns row = ts
      ∧ JS.prop event "event" = Normal (Some (JStr (Db.event_type row)))
      ∧ JS.prop item "from" = Normal (Some (JStr (Db.sender row)))
      ∧ JS.prop item "to" = Normal (Some (JStr (Db.recipient row)))
      ∧ (Db.event_type row = "message_sent" → Db.amount row = None)
  | Parser.StoreProfile row =>
      Db.registered_at row = ts
      ∧ JS.prop item "account_id"
        = Normal (Some (JStr (Db.account_id row)))
  end.
Proof.
  intros [a row Htag Ha Hrow | a row Htag Ha Hrow | a row Htag Ha Hrow].
  - unfold Parser.message_args in Ha.
    repeat (apply ParserFrame.cbind_Normal in Ha as (? & ? & Ha)).
    simplify_eq/=. unfold Sink.typed_message in Hrow. simpl in Hrow.
    simplify_option_eq.
    repeat match goal with
           | H : Sink.as_string _ = Some _ |- _ => apply typed_string in H
           end.
    subst. split_and!; done.
  - unfold Parser.message_args in Ha.
    repeat (apply ParserFrame.cbind_Normal in Ha as (? & ? & Ha)).
    simplify_eq/=. unfold Sink.typed_message in Hrow. simpl in Hrow.
    simplify_option_eq.
    repeat match goal with
           | H : Sink.as_string _ = Some _ |- _ => apply typed_string in H
           end.
    subst. split_and!; done.
  - unfold Parser.profile_args in Ha.
    repeat (apply ParserFrame.cbind_Normal in Ha as (? & ? & Ha)).
    simplify_eq/=. unfold Sink.typed_profile in Hrow. simpl in Hrow.
    simplify_option_eq.
    repeat match goal with
           | H : Sink.as_string _ = Some _ |- _ => apply typed_string in H
           end.
    subst. split_and!; done.
Qed.

End facts.

(** The sink calls of a block, made a second time. *)

Lemma db_eq (d d' : Db.t) :
  Db.messages d = Db.messages d' → Db.profiles d = Db.profiles d' →
  Db.sync_state d = Db.sync_state d' → d = d'.
Proof. destruct d, d'. simpl. by intros -> -> ->. Qed.

Lemma apply_stored_keys (db : Db.t) (op : Parser.Stored) :
  Db.keys db ⊆ Db.keys (Parser.apply_stored db op).
Proof.
  destruct op as [row|row]; simpl; [|done].
  unfold Db.saveMessage, Db.insertMessage. case_decide; [done|].
  unfold Db.keys. simpl. rewrite fmap_app. set_solver.
Qed.

Lemma apply_all_keys (ops : list Parser.Stored) (db : Db.t) :
  Db.keys db ⊆ Db.keys (fold_left Parser.apply_stored ops db).
Proof.
  revert db. induction ops as [|op ops IH]; intros db; [done|].
  simpl. etrans; [apply (apply_stored_keys db op) | apply IH].
Qed.

Lemma apply_all_stored (ops : list Parser.Stored) (db : Db.t)
    (row : Db.DbMessage) :
  Parser.StoreMessage row ∈ ops →
  Db.msg_key row ∈ Db.keys (fold_left Parser.apply_stored ops db).
Proof.
  revert db. induction ops as [|op ops IH]; intros db Hin.
  - by apply elem_of_nil in Hin.
  - apply elem_of_cons in Hin as [<- | Hin]; [|by apply IH].
    simpl. apply apply_all_keys, DbFacts.insertMessage_key.
Qed.

Lemma apply_all_messages_present (ops : list Parser.Stored) (db : Db.t) :
  (∀ row, Parser.StoreMessage row ∈ ops → Db.msg_key row ∈ Db.keys db) →
  Db.messages (fold_left Parser.apply_stored ops db) = Db.messages db.
Proof.
  revert db. induction ops as [|op ops IH]; intros db Hin; [done|].
  simpl. destruct op as [row|row]; simpl.
  - unfold Db.saveMessage.
    rewrite DbFacts.insertMessage_present by (apply Hin; by left).
    apply IH. intros row' Hrow'. apply Hin. by right.
  - rewrite IH; [done|]. intros row' Hrow'. apply (Hin row'). by right.
Qed.

Lemma apply_all_sync_state (ops : list Parser.Stored) (db : Db.t) :
  Db.sync_state (fold_left Parser.apply_stored ops db) = Db.sync_state db.
Proof.
  revert db. induction ops as [|op ops IH]; intros db; [done|].
  simpl. rewrite IH. destruct op as [row|row]; simpl; [|done].
  unfold Db.saveMessage, Db.insertMessage. by case_decide.
Qed.

(** The row of an account after the sink calls of a list, from the row
    before them. *)
Lemma apply_all_profile (ops : list Parser.Stored) (db : Db.t) (a : string) :
  Db.profiles (fold_left Parser.apply_stored ops db) !! a
  = fold_left Events.upsert_row (Events.rows_for a ops) (Db.profiles db !! a).
Proof.
  revert db. induction ops as [|op ops IH]; intros db; [done|].
  simpl fold_left. rewrite IH. destruct op as [row|p]; simpl.
  - unfold Db.saveMessage, Db.insertMessage. by case_decide.
  - unfold Db.saveProfile, Db.upsertProfile. simpl.
    case_decide as Ha.
    + subst a. simpl. by rewrite lookup_insert_eq.
    + by rewrite lookup_insert_ne.
Qed.

Lemma fold_keep_origin (l : list Db.DbProfile) (r : Db.DbProfile) :
  Db.account_id (fold_left Events.keep l r) = Db.account_id r
  ∧ Db.registered_at (fold_left Events.keep l r) = Db.registered_at r.
Proof.
  revert r. induction l as [|p l IH]; intros r; [done|].
  simpl. by destruct (IH (Events.keep r p)) as [-> ->].
Qed.

Lemma fold_upsert_row_Some (l : list Db.DbProfile) (r : Db.DbProfile) :
  fold_left Events.upsert_row l (Some r) = Some (fold_left Events.keep l r).
Proof. revert r. induction l as [|p l IH]; intros r; [done|]. apply IH. Qed.

(** Registering the same rows again, in the same order, changes
    nothing: the key is that of the last row already, and the
    registration time is kept. *)
Lemma fold_upsert_row_twice (l : list Db.DbProfile)
    (o : option Db.DbProfile) :
  fold_left Events.upsert_row l (fold_left Events.upsert_row l o)
  = fold_left Events.upsert_row l o.
Proof.
  destruct l as [|q l _] using rev_ind; [done|].
  rewrite !fold_left_app. simpl.
  set (x := match fold_left Events.upsert_row l o with
            | Some old => Events.keep old q
            | None => q
            end).
  unfold Events.upsert_row at 1 3. fold x. rewrite fold_upsert_row_Some.
  f_equal. destruct (fold_keep_origin l x) as [Ha Hr].
  unfold Events.keep at 1. rewrite Ha, Hr. unfold x.
  destruct (fold_left Events.upsert_row l o) as [old|];
    [done | by destruct q].
Qed.

Lemma apply_all_twice (ops : list Parser.Stored) (db : Db.t) :
  fold_left Parser.apply_stored ops (fold_left Parser.apply_stored ops db)
  = fold_left Parser.apply_stored ops db.
Proof.
  apply db_eq.
  - apply apply_all_messages_present. intros row Hrow.
    by apply apply_all_stored.
  - apply map_eq. intros a.
    rewrite (apply_all_profile ops (fold_left _ ops db)), apply_all_profile.
    apply fold_upsert_row_twice.
  - by rewrite !apply_all_sync_state.
Qed.

Section again.

Context `{Host}.

(** X21. Parsing a block again leaves the store as the first parse left
    it, and returns the same count: for a block each of whose event log
    lines is malformed or carries one recognized event, the inserts of the
    second parse are ignored, its upserts write what is there, and the
    count is the number of events both times, stored or not. *)
Theorem reprocessing_idempotent (b : Block.NearBlock) (db : Db.t)
    (os : list (option Parser.Stored)) :
  Forall2 (Events.line_outcome (Block.height (Block.header b))
             (JS.Number_toString (Block.timestamp (Block.header b))))
    (Parser.event_lines b) os →
  Parser.parseBlock b (fst (Parser.parseBlock b db)) = Parser.parseBlock b db
  ∧ snd (Parser.parseBlock b db) = Z.of_nat (length (Events.calls os)).
Proof.
  intros Hlines. rewrite !ParserFacts.parseBlock_lines.
  rewrite !(handle_lines_outcomes _ _ _ _ _ _ Hlines). simpl.
  by rewrite apply_all_twice.
Qed.

Lemma calls_registered_at (h : Z) (ts : string)
    (lines : list (Block.ReceiptExecutionOutcome * string))
    (os : list (option Parser.Stored)) (p : Db.DbProfile) :
  Forall2 (Events.line_outcome h ts) lines os →
  Parser.StoreProfile p ∈ Events.calls os →
  Db.registered_at p = ts.
Proof.
  intros Hall Hin. apply list_elem_of_omap in Hin as (o & Hin & Ho).
  simpl in Ho. subst o. apply list_elem_of_lookup in Hin as [i Hi].
  destruct (Forall2_lookup_r _ _ _ _ _ Hall Hi) as (line & _ & Hline).
  simpl in Hline. destruct Hline as (event & item & _ & _ & _ & Hitem).
  by apply recognized_row in Hitem as [? _].
Qed.

Lemma rows_for_calls (a : string) (ops : list Parser.Stored)
    (p : Db.DbProfile) :
  p ∈ Events.rows_for a ops → Parser.StoreProfile p ∈ ops.
Proof.
  unfold Events.rows_for. intros (op & Hop & Hp)%list_elem_of_omap.
  destruct op as [row|p']; [done|]. case_decide; [|done].
  by injection Hp as ->.
Qed.

Lemma apply_all_messages_from (ops : list Parser.Stored) (db : Db.t)
    (m : Db.DbMessage) :
  m ∈ Db.messages (fold_left Parser.apply_stored ops db) →
  m ∈ Db.messages db ∨ Parser.StoreMessage m ∈ ops.
Proof.
  revert db. induction ops as [|op ops IH]; intros db Hm; [by left|].
  simpl in Hm. apply IH in Hm as [Hm | Hm]; [|right; by right].
  destruct op as [row|p]; simpl in Hm; [|by left].
  unfold Db.saveMessage, Db.insertMessage in Hm.
  case_decide; [by left|]. simpl in Hm.
  apply elem_of_app in Hm as [Hm | Hm]; [by left|].
  apply list_elem_of_singleton in Hm as ->. right. by left.
Qed.

(** The line a sink call was made for. *)
Lemma calls_line (h : Z) (ts : string)
    (lines : list (Block.ReceiptExecutionOutcome * string))
    (os : list (option Parser.Stored)) (op : Parser.Stored) :
  Forall2 (Events.line_outcome h ts) lines os →
  op ∈ Events.calls os →
  ∃ line, line ∈ lines ∧ Parser.line_event h ts line op.
Proof.
  intros Hall Hin. apply list_elem_of_omap in Hin as (o & Hin & Ho).
  simpl in Ho. subst o. apply list_elem_of_lookup in Hin as [i Hi].
  destruct (Forall2_lookup_r _ _ _ _ _ Hall Hi) as (line & Hline & Hev).
  exists line. split; [by eapply list_elem_of_lookup_2 | done].
Qed.

(** An event log line of a block is a marked log of an outcome of the
    indexed contract in one of its shards. *)
Lemma event_lines_outcome (b : Block.NearBlock)
    (line : Block.ReceiptExecutionOutcome * string) :
  line ∈ Parser.event_lines b →
  ∃ shard,
    shard ∈ Block.shards b
    ∧ fst line ∈ Block.receipt_execution_outcomes shard
    ∧ Block.executor_id (Block.outcome (Block.execution_outcome (fst line)))
      = Parser.CONTRACT_ID
    ∧ snd line ∈ Block.logs (Block.outcome (Block.execution_outcome (fst line)))
    ∧ JS.startsWith (snd line) Parser.marker = true.
Proof.
  unfold Parser.event_lines. intros Hline.
  apply list_elem_of_bind in Hline as (shard & Hline & Hshard).
  apply list_elem_of_bind in Hline as (reo & Hline & Hreo).
  unfold Parser.outcome_lines in Hline.
  destruct (String.eqb _ Parser.CONTRACT_ID) eqn:Hexec;
    [|by apply elem_of_nil in Hline].
  apply String.eqb_eq in Hexec.
  apply list_elem_of_fmap in Hline as (log & -> & Hlog).
  apply list_elem_of_filter in Hlog as [Hmark Hlog].
  exists shard. by split_and!.
Qed.

Lemma recognized_message (event : json) (txHash : string) (h : Z)
    (ts : string) (item : json) (row : Db.DbMessage) :
  Parser.recognized event txHash h ts item (Parser.StoreMessage row) →
  Db.tx_hash row = txHash
  ∧ Db.block_height row = h
  ∧ Db.timestamp_ns row = ts
  ∧ (Db.event_type row = "message_sent" ∧ Db.amount row = None
     ∨ Db.event_type row = "message_sent_with_payment").
Proof.
  inversion 1 as [a row' Htag Ha Hrow | a row' Htag Ha Hrow |]; subst.
  - unfold Parser.message_args in Ha.
    repeat (apply ParserFrame.cbind_Normal in Ha as (? & ? & Ha)).
    simplify_eq/=. unfold Sink.typed_message in Hrow. simpl in Hrow.
    simplify_option_eq. split_and!; try done. by left.
  - unfold Parser.message_args in Ha.
    repeat (apply ParserFrame.cbind_Normal in Ha as (? & ? & Ha)).
    simplify_eq/=. unfold Sink.typed_message in Hrow. simpl in Hrow.
    simplify_option_eq. split_and!; try done. by right.
Qed.

Lemma fold_upsert_row_first (l : list Db.DbProfile) (p : Db.DbProfile) :
  fold_left Events.upsert_row l None = Some p →
  ∃ p1 l', l = p1 :: l'
    ∧ Db.account_id p = Db.account_id p1
    ∧ Db.registered_at p = Db.registered_at p1.
Proof.
  destruct l as [|p1 l']; [done|].
  change (fold_left Events.upsert_row (p1 :: l') None)
    with (fold_left Events.upsert_row l' (Some p1)).
  rewrite fold_upsert_row_Some. intros [= <-].
  exists p1, l'. split; [done|]. apply fold_keep_origin.
Qed.

Lemma rows_for_account (a : string) (ops : list Parser.Stored)
    (p : Db.DbProfile) :
  p ∈ Events.rows_for a ops → Db.account_id p = a.
Proof.
  unfold Events.rows_for. intros (op & Hop & Hp)%list_elem_of_omap.
  destruct op as [row|p']; [done|]. case_decide; [|done].
  by injection Hp as ->.
Qed.

(** X22. Where the rows of a block come from.  After a block is parsed,
    each of whose event log lines is malformed or carries one recognized
    event, every row of [messages] that was not there before has the
    height of the block, the timestamp of the block as [String] writes
    it, and the transaction hash of an outcome of the indexed contract in
    one of the shards of the block, or the id of its execution outcome
    when it has no hash; its type is one of the two message tags, and a
    [message_sent] row has no amount.  Every account that has a profile
    now and had none before has the timestamp of the block as its
    registration time. *)
Theorem stored_row_provenance (b : Block.NearBlock) (db : Db.t)
    (os : list (option Parser.Stored)) :
  Forall2 (Events.line_outcome (Block.height (Block.header b))
             (JS.Number_toString (Block.timestamp (Block.header b))))
    (Parser.event_lines b) os →
  (∀ m, m ∈ Db.messages (fst (Parser.parseBlock b db)) →
     m ∈ Db.messages db
     ∨ (Db.block_height m = Block.height (Block.header b)
        ∧ Db.timestamp_ns m
          = JS.Number_toString (Block.timestamp (Block.header b))
        ∧ (∃ shard reo,
             shard ∈ Block.shards b
             ∧ reo ∈ Block.receipt_execution_outcomes shard
             ∧ Block.executor_id
                 (Block.outcome (Block.execution_outcome reo))
               = Parser.CONTRACT_ID
             ∧ Db.tx_hash m
               = (if String.eqb (Block.tx_hash reo) EmptyString
                  then Block.id (Block.execution_outcome reo)
                  else Block.tx_hash reo))
        ∧ (Db.event_type m = "message_sent" ∧ Db.amount m = None
           ∨ Db.event_type m = "message_sent_with_payment")))
  ∧ (∀ a p,
       Db.getProfile a (fst (Parser.parseBlock b db)) = Some p →
       Db.getProfile a db = None →
       Db.account_id p = a
       ∧ Db.registered_at p
         = JS.Number_toString (Block.timestamp (Block.header b))).
Proof.
  intros Hlines. rewrite ParserFacts.parseBlock_lines.
  rewrite (handle_lines_outcomes _ _ _ _ _ _ Hlines). simpl fst. split.
  - intros m Hm. apply apply_all_messages_from in Hm as [Hm | Hm];
      [by left | right].
    destruct (calls_line _ _ _ _ _ Hlines Hm)
      as (line & Hline & event & item & _ & _ & _ & Hitem).
    apply recognized_message in Hitem as (Htx & Hh & Hts & Htag).
    destruct (event_lines_outcome b line Hline)
      as (shard & Hshard & Hreo & Hexec & _).
    split_and!; [done | done | | done].
    exists shard, (fst line). by split_and!.
  - intros a p Hp Hnone. unfold Db.getProfile in Hp, Hnone.
    rewrite apply_all_profile, Hnone in Hp.
    apply fold_upsert_row_first in Hp as (p1 & l' & Hrows & -> & ->).
    assert (p1 ∈ Events.rows_for a (Events.calls os)) as Hp1
      by (rewrite Hrows; by left).
    split; [by apply rows_for_account in Hp1|].
    by eapply calls_registered_at, rows_for_calls.
Qed.

(** X25. From the block to the route.  After a block is parsed, each of
    whose event log lines is malformed or carries one recognized event,
    the handler of [/profiles/:accountId], given an account the block
    registers, answers with status 200 and the public key, key version
    and display name of the block's last registration of the account; the
    registration time is the one the store had for the account, or the
    timestamp of the block, as [String] writes that number, when the
    account was not registered before. *)
Theorem registered_profile_served (b : Block.NearBlock) (db : Db.t)
    (os : list (option Parser.Stored)) (a : string)
    (l : list Db.DbProfile) (q : Db.DbProfile) :
  Forall2 (Events.line_outcome (Block.height (Block.header b))
             (JS.Number_toString (Block.timestamp (Block.header b))))
    (Parser.event_lines b) os →
  Events.rows_for a (Events.calls os) = l ++ [q] →
  ∃ p, Index.get_profile a (fst (Parser.parseBlock b db))
       = {| Index.status := 200; Index.body := Index.ProfileBody p |}
    ∧ Db.x25519_pubkey p = Db.x25519_pubkey q
    ∧ Db.key_version p = Db.key_version q
    ∧ Db.display_name p = Db.display_name q
    ∧ Db.registered_at p
      = match Db.getProfile a db with
        | Some old => Db.registered_at old
        | None => JS.Number_toString (Block.timestamp (Block.header b))
        end.
Proof.
  intros Hlines Hrows.
  assert (∀ p, p ∈ l ++ [q] →
               Db.registered_at p
               = JS.Number_toString (Block.timestamp (Block.header b))) as Hts.
  { intros p Hp. rewrite <- Hrows in Hp.
    by eapply calls_registered_at, rows_for_calls. }
  unfold Index.get_profile, Db.getProfile.
  rewrite ParserFacts.parseBlock_lines.
  rewrite (handle_lines_outcomes _ _ _ _ _ _ Hlines). simpl fst.
  rewrite apply_all_profile, Hrows, fold_left_app.
  cbn [fold_left Events.upsert_row].
  destruct (Db.profiles db !! a) as [old|] eqn:Hold.
  - rewrite fold_upsert_row_Some. eexists. split; [reflexivity|]. simpl.
    split_and!; try done. apply fold_keep_origin.
  - destruct l as [|p1 l].
    + simpl. eexists. split; [reflexivity|]. split_and!; try done.
      apply Hts. set_solver.
    + change (fold_left Events.upsert_row (p1 :: l) None)
        with (fold_left Events.upsert_row l (Some p1)).
      rewrite fold_upsert_row_Some.
      eexists. split; [reflexivity|].
      simpl. split_and!; try done.
      destruct (fold_keep_origin l p1) as [_ ->]. apply Hts. set_solver.
Qed.

End again.

Lemma unmarked_logs_ignored_witness :
  @Parser.parseBlock Demo.host Sample.block_other
    (Db.saveMessage Demo.msg1 Db.empty)
  = (Db.saveMessage Demo.msg1 Db.empty, 0).
Proof.
  apply (@unmarked_logs_ignored Demo.host).
  intros shard reo log Hshard Hreo Hlog Hexec.
  apply list_elem_of_singleton in Hshard as ->.
  apply elem_of_cons in Hreo as [-> | Hreo].
  - discriminate Hexec.
  - apply list_elem_of_singleton in Hreo as ->.
    apply list_elem_of_singleton in Hlog as ->. reflexivity.
Defined.

Lemma foreign_events_ignored_witness :
  @Parser.handle_line Demo.host 100 "1700000000000000000" (Db.empty, 0)
    (Demo.outcome3, Sample.group_log) = (Db.empty, 0)
  ∧ @Parser.handle_line Demo.host 100 "1700000000000000000" (Db.empty, 0)
      (Demo.outcome3, Sample.nep171_log) = (Db.empty, 0).
Proof.
  split.
  - apply (@foreign_events_ignored Demo.host 100 "1700000000000000000"
             (Db.empty, 0) (Demo.outcome3, Sample.group_log)
             (default JNull
                (JsonText.parse
                   (JS.slice (String.length Parser.marker)
                      Sample.group_log))));
      [reflexivity |].
    right. exists (Some (JStr "group_created")). by split_and!.
  - apply (@foreign_events_ignored Demo.host 100 "1700000000000000000"
             (Db.empty, 0) (Demo.outcome3, Sample.nep171_log)
             (default JNull
                (JsonText.parse
                   (JS.slice (String.length Parser.marker)
                      Sample.nep171_log))));
      [reflexivity |].
    left. exists (Some (JStr "nep171")). by split.
Defined.

Lemma event_items_not_rolled_back_witness :
  @Parser.handle_line Demo.host 100000000 "1700000000000000000"
    (Db.empty, 0) (Demo.outcome3, Sample.partial_log)
  = (Db.saveMessage Demo.msg1 Db.empty, 1).
Proof.
  apply (@event_items_not_rolled_back Demo.host 100000000
           "1700000000000000000" Db.empty 0
           (Demo.outcome3, Sample.partial_log)
           (default JNull
              (JsonText.parse
                 (JS.slice (String.length Parser.marker)
                    Sample.partial_log)))
           [JObj [("from", JStr "a.near"); ("to", JStr "b.near");
                  ("encrypted_body", JStr "c2VjcmV0");
                  ("nonce", JStr "bm9uY2U=");
                  ("recipient_key_version", JNum 1);
                  ("reply_to", JNull)]]
           JNull
           [JObj [("from", JStr "b.near"); ("to", JStr "a.near");
                  ("encrypted_body", JStr "b3RoZXI=");
                  ("nonce", JStr "MTIz");
                  ("recipient_key_version", JNum 1);
                  ("reply_to", JNull)]]
           [Parser.StoreMessage Demo.msg1]);
    [reflexivity | reflexivity | reflexivity | |].
  - repeat constructor.
    eapply Parser.recognized_message_sent; reflexivity.
  - intros [d n]. eexists. reflexivity.
Defined.

Lemma reprocessing_idempotent_witness :
  @Parser.parseBlock Demo.host Demo.block3
    (fst (@Parser.parseBlock Demo.host Demo.block3 Db.empty))
  = @Parser.parseBlock Demo.host Demo.block3 Db.empty
  ∧ snd (@Parser.parseBlock Demo.host Demo.block3 Db.empty) = 2.
Proof.
  apply (@reprocessing_idempotent Demo.host Demo.block3 Db.empty
           [Some (Parser.StoreMessage Demo.msg1); None;
            Some (Parser.StoreProfile Demo.profile1)]).
  constructor; [| constructor; [| constructor; [| constructor]]].
  - eexists _, _. split_and!; [reflexivity | reflexivity | reflexivity |].
    eapply Parser.recognized_message_sent; reflexivity.
  - reflexivity.
  - eexists _, _. split_and!; [reflexivity | reflexivity | reflexivity |].
    eapply Parser.recognized_key_registered; reflexivity.
Defined.

Lemma stored_row_provenance_witness :
  (* the block as the service sends it, without a transaction hash *)
  Block.as_NearBlock (default JNull (JsonText.parse Sample.block_late_text))
  = Some Sample.block_late
  ∧ Db.messages (fst (@Parser.parseBlock Demo.host Sample.block_late Db.empty))
    = [Sample.late_row]
  ∧ JS.Number_toString 1700000000123456768 = "1700000000123456800"
  ∧ Db.block_height Sample.late_row
    = Block.height (Block.header Sample.block_late)
  ∧ Db.timestamp_ns Sample.late_row
    = JS.Number_toString (Block.timestamp (Block.header Sample.block_late))
  ∧ ∃ shard reo,
      shard ∈ Block.shards Sample.block_late
      ∧ reo ∈ Block.receipt_execution_outcomes shard
      ∧ Block.executor_id (Block.outcome (Block.execution_outcome reo))
        = @Parser.CONTRACT_ID Demo.host
      ∧ Db.tx_hash Sample.late_row
        = (if String.eqb (Block.tx_hash reo) EmptyString
           then Block.id (Block.execution_outcome reo)
           else Block.tx_hash reo).
Proof.
  assert (Db.messages
            (fst (@Parser.parseBlock Demo.host Sample.block_late Db.empty))
          = [Sample.late_row]) as Hrows by (vm_compute; reflexivity).
  destruct (@stored_row_provenance Demo.host Sample.block_late Db.empty
              [Some (Parser.StoreMessage Sample.late_row)])
    as [Hmessages _].
  { constructor; [| constructor]. vm_compute.
    eexists _, _. split_and!; [reflexivity | reflexivity | reflexivity |].
    eapply Parser.recognized_message_sent; reflexivity. }
  destruct (Hmessages Sample.late_row)
    as [Hold | (Hheight & Htime & Hhash & _)].
  { rewrite Hrows. apply list_elem_of_singleton. reflexivity. }
  { destruct (not_elem_of_nil Sample.late_row Hold). }
  split_and!.
  - vm_compute. reflexivity.
  - exact Hrows.
  - vm_compute. reflexivity.
  - exact Hheight.
  - exact Htime.
  - exact Hhash.
Defined.

Lemma registered_profile_served_witness :
  Index.get_profile "a.near"
    (fst (@Parser.parseBlock Demo.host Demo.block3
            (Db.saveProfile Demo.profile2 Db.empty)))
  = {| Index.status := 200;
       Index.body :=
         Index.ProfileBody
           {| Db.account_id := "a.near";
              Db.x25519_pubkey := "K1";
              Db.key_version := 1;
              Db.display_name := None;
              Db.registered_at := "1700000500000000000" |} |}
  ∧ (∃ p, Index.get_profile "a.near"
            (fst (@Parser.parseBlock Demo.host Demo.block3 Db.empty))
          = {| Index.status := 200; Index.body := Index.ProfileBody p |}
       ∧ Db.x25519_pubkey p = "K1"
       ∧ Db.registered_at p = "1700000000000000000")
  (* a timestamp above 2^53: the registration time is what [String]
     writes for it *)
  ∧ ∃ p, Index.get_profile "a.near"
           (fst (@Parser.parseBlock Demo.host Sample.block_key_late Db.empty))
         = {| Index.status := 200; Index.body := Index.ProfileBody p |}
      ∧ Db.registered_at p = "1700000000123456800".
Proof.
  split; [reflexivity |]. split.
  - destruct (@registered_profile_served Demo.host Demo.block3 Db.empty
                [Some (Parser.StoreMessage Demo.msg1); None;
                 Some (Parser.StoreProfile Demo.profile1)]
                "a.near" [] Demo.profile1)
      as (p & Hp & Hkey & _ & _ & Hat).
    + constructor; [| constructor; [| constructor; [| constructor]]].
      * eexists _, _.
        split_and!; [reflexivity | reflexivity | reflexivity |].
        eapply Parser.recognized_message_sent; reflexivity.
      * reflexivity.
      * eexists _, _.
        split_and!; [reflexivity | reflexivity | reflexivity |].
        eapply Parser.recognized_key_registered; reflexivity.
    + reflexivity.
    + exists p. split_and!; [exact Hp | exact Hkey | exact Hat].
  - destruct (@registered_profile_served Demo.host Sample.block_key_late
                Db.empty
                [Some (Parser.StoreProfile
                         {| Db.account_id := "a.near";
                            Db.x25519_pubkey := "K1";
                            Db.key_version := 1;
                            Db.display_name := None;
                            Db.registered_at := "1700000000123456800" |})]
                "a.near" []
                {| Db.account_id := "a.near";
                   Db.x25519_pubkey := "K1";
                   Db.key_version := 1;
                   Db.display_name := None;
                   Db.registered_at := "1700000000123456800" |})
      as (p & Hp & _ & _ & _ & Hat).
    + constructor; [| constructor]. vm_compute.
      eexists _, _.
      split_and!; [reflexivity | reflexivity | reflexivity |].
      eapply Parser.recognized_key_registered; reflexivity.
    + vm_compute. reflexivity.
    + exists p. split; [exact Hp |].
      rewrite Hat. vm_compute. reflexivity.
Defined.

End EventFacts.

(** * Requests made by the loop *)

Module RequestFacts.
Section requests.

Context `{Host}.
Import Net.

Lemma count_fetches_app (t t' : list Effect) :
  Lake.count_fetches (t ++ t')
  = (Lake.count_fetches t + Lake.count_fetches t')%nat.
Proof. unfold Lake.count_fetches. by rewrite filter_app, length_app. Qed.

Lemma count_tips_app (t t' : list Effect) :
  Run.count_tips (t ++ t') = (Run.count_tips t + Run.count_tips t')%nat.
Proof. unfold Run.count_tips. by rewrite filter_app, length_app. Qed.

Lemma attempts_trace_tips (height : Z) (n : nat) :
  Run.count_tips (Lake.attempts_trace height n) = 0%nat.
Proof.
  induction n as [|[|n] IH]; [done | done |].
  change (Lake.attempts_trace height (S (S n)))
    with (Lake.attempts_trace height (S n)
          ++ [Sleep (Lake.backoff (S n - 1)); FetchBlock height]).
  by rewrite count_tips_app, IH.
Qed.

Lemma attempts_trace_tips_single (height : Z) (n : nat) :
  Run.count_tips (LakeSrc.attempts_trace height n) = 0%nat.
Proof.
  induction n as [|[|n] IH]; [done | done |].
  change (LakeSrc.attempts_trace height (S (S n)))
    with (LakeSrc.attempts_trace height (S n)
          ++ [Sleep (LakeSrc.backoff (S n - 1)); FetchBlock height]).
  by rewrite count_tips_app, IH.
Qed.

Lemma refresh_requests (b : bool) :
  Lake.count_fetches (if b then [FetchTip] else []) = 0%nat
  ∧ (Run.count_tips (if b then [FetchTip] else []) ≤ 1)%nat.
Proof. destruct b; vm_compute; split; done || lia. Qed.

(** X26. One pass through the body of [while (running)] sends at most
    [MAX_RETRIES] requests for a block and at most two requests for the
    chain tip, and never more than four requests in all: the two tip
    requests are made only in a pass that asks for no block.  This holds
    in both revisions of lake.ts, whatever the replies. *)
Theorem iteration_requests (env : Env) (s : State) :
  ((Lake.count_fetches (fst (Lake.iteration env s)) ≤ Lake.MAX_RETRIES)%nat
   ∧ (Run.count_tips (fst (Lake.iteration env s)) ≤ 2)%nat
   ∧ (Lake.count_fetches (fst (Lake.iteration env s))
      + Run.count_tips (fst (Lake.iteration env s)) ≤ 4)%nat)
  ∧ ((Lake.count_fetches (fst (LakeSrc.iteration env s))
      ≤ LakeSrc.MAX_RETRIES)%nat
     ∧ (Run.count_tips (fst (LakeSrc.iteration env s)) ≤ 2)%nat
     ∧ (Lake.count_fetches (fst (LakeSrc.iteration env s))
        + Run.count_tips (fst (LakeSrc.iteration env s)) ≤ 4)%nat).
Proof.
  split.
  - unfold Lake.iteration.
    destruct (RunFacts.refresh_state env s) as [tip ->].
    destruct (refresh_requests (Z.rem (blocksProcessed s) 200 =? 0))
      as [Hb0 Ht0].
    set (t0 := if Z.rem _ _ =? 0 then _ else _) in *.
    cbn [currentHeight latestKnownHeight set_latestKnownHeight].
    destruct (currentHeight s >? tip).
    + pose proof (RunFacts.fetchLatestBlockHeight_frame (tip_idle env)
                    (set_latestKnownHeight tip s)) as Hf.
      destruct (Lake.fetchLatestBlockHeight _ _) as [[t1 tip'] s1].
      destruct Hf as (-> & _ & _). cbn [fst].
      rewrite (count_fetches_app t0), (count_tips_app t0), Hb0.
      change (Lake.count_fetches ([Sleep Lake.IDLE_INTERVAL_MS] ++ [FetchTip]))
        with 0%nat.
      change (Run.count_tips ([Sleep Lake.IDLE_INTERVAL_MS] ++ [FetchTip]))
        with 1%nat.
      unfold Lake.MAX_RETRIES. lia.
    + destruct (FetchFacts.fetchBlockWithRetry_catchup (currentHeight s)
                  (block_reply env)) as (n & Hn & _ & _ & -> & Hcount).
      pose proof (attempts_trace_tips (currentHeight s) n) as Htips.
      set (t1 := Lake.attempts_trace _ _) in *.
      assert (∀ l, Lake.count_fetches l = 0%nat → Run.count_tips l = 0%nat →
                   (Lake.count_fetches (t0 ++ t1 ++ l) ≤ Lake.MAX_RETRIES)%nat
                   ∧ (Run.count_tips (t0 ++ t1 ++ l) ≤ 2)%nat
                   ∧ (Lake.count_fetches (t0 ++ t1 ++ l)
                      + Run.count_tips (t0 ++ t1 ++ l) ≤ 4)%nat) as Hall.
      { intros l Hl Hl'.
        rewrite !count_fetches_app, !count_tips_app, Hb0, Hcount, Htips,
          Hl, Hl'. unfold Lake.MAX_RETRIES in *. lia. }
      destruct (Lake.attempt_outcome _ _ _) as [blockData|e].
      * destruct (is_null blockData).
        -- cbn [fst]. rewrite <- (app_nil_r t1) at 1 2 3 4.
           by apply Hall.
        -- destruct (Loop.parseBlock blockData _) as [db' [eventsFound|e]];
             cbn [fst]; by apply Hall.
      * cbn [fst]. by apply Hall.
  - unfold LakeSrc.iteration.
    destruct (RunFacts.refresh_state_single env s) as [tip ->].
    destruct (refresh_requests (Z.rem (blocksProcessed s) 500 =? 0))
      as [Hb0 Ht0].
    set (t0 := if Z.rem _ _ =? 0 then _ else _) in *.
    cbn [currentHeight latestKnownHeight set_latestKnownHeight].
    destruct (currentHeight s >? tip).
    + pose proof (RunFacts.fetchLatestBlockHeight_frame_single (tip_idle env)
                    (set_latestKnownHeight tip s)) as Hf.
      destruct (LakeSrc.fetchLatestBlockHeight _ _) as [[t1 tip'] s1].
      destruct Hf as (-> & _ & _). cbn [fst].
      rewrite (count_fetches_app t0), (count_tips_app t0), Hb0.
      change (Lake.count_fetches ([Sleep LakeSrc.IDLE_INTERVAL_MS] ++ [FetchTip]))
        with 0%nat.
      change (Run.count_tips ([Sleep LakeSrc.IDLE_INTERVAL_MS] ++ [FetchTip]))
        with 1%nat.
      unfold LakeSrc.MAX_RETRIES. lia.
    + destruct (FetchFacts.fetchBlockWithRetry_single (currentHeight s)
                  (block_reply env)) as (n & Hn & _ & _ & -> & Hcount).
      pose proof (attempts_trace_tips_single (currentHeight s) n) as Htips.
      set (t1 := LakeSrc.attempts_trace _ _) in *.
      assert (∀ l, Lake.count_fetches l = 0%nat → Run.count_tips l = 0%nat →
                   (Lake.count_fetches (t0 ++ t1 ++ l)
                    ≤ LakeSrc.MAX_RETRIES)%nat
                   ∧ (Run.count_tips (t0 ++ t1 ++ l) ≤ 2)%nat
                   ∧ (Lake.count_fetches (t0 ++ t1 ++ l)
                      + Run.count_tips (t0 ++ t1 ++ l) ≤ 4)%nat) as Hall.
      { intros l Hl Hl'.
        rewrite !count_fetches_app, !count_tips_app, Hb0, Hcount, Htips,
          Hl, Hl'. unfold LakeSrc.MAX_RETRIES in *. lia. }
      destruct (LakeSrc.attempt_outcome _ _ _) as [blockData|e].
      * destruct (is_null blockData).
        -- cbn [fst]. rewrite <- (app_nil_r t1) at 1 2 3 4.
           by apply Hall.
        -- destruct (Loop.parseBlock blockData _) as [db' [eventsFound|e]];
             cbn [fst]; by apply Hall.
      * cbn [fst]. by apply Hall.
Qed.

(** X27. A block the service does not hand out is given up: when each of
    the [MAX_RETRIES] attempts of the revision with catch-up polling ends
    with no data (a status other than 200, a body that does not parse, an
    error body), the pass has asked three times with 1000 ms and 2000 ms
    between the attempts, makes the height the checkpoint, moves to the
    next height and stores nothing.  In the revision with a single poll
    interval one attempt without data is enough: the pass consists of that
    one request, with no sleep at all. *)
Theorem refused_block_given_up (env : Env) (s s0 : State)
    (t0 : list Effect) :
  currentHeight s0 ≤ latestKnownHeight s0 →
  (Lake.refresh env s = (t0, s0) →
   (∀ i, (i < Lake.MAX_RETRIES)%nat →
      Lake.attempt_outcome (currentHeight s0) (block_reply env) i
      = Normal JNull) →
   ∃ s', Lake.iteration env s
         = (t0 ++ [FetchBlock (currentHeight s); Sleep 1000;
                   FetchBlock (currentHeight s); Sleep 2000;
                   FetchBlock (currentHeight s)], s')
     ∧ currentHeight s' = currentHeight s + 1
     ∧ Db.getLastBlockHeight (db s') = Num (currentHeight s)
     ∧ Db.messages (db s') = Db.messages (db s)
     ∧ Db.profiles (db s') = Db.profiles (db s))
  ∧ (LakeSrc.refresh env s = (t0, s0) →
     LakeSrc.attempt_outcome (currentHeight s0) (block_reply env) 0
     = Normal JNull →
     ∃ s', LakeSrc.iteration env s
           = (t0 ++ [FetchBlock (currentHeight s)], s')
       ∧ currentHeight s' = currentHeight s + 1
       ∧ Db.getLastBlockHeight (db s') = Num (currentHeight s)
       ∧ Db.messages (db s') = Db.messages (db s)
       ∧ Db.profiles (db s') = Db.profiles (db s)).
Proof.
  intros Htip. split.
  - intros Hr Hnone.
    destruct (LoopFacts.refresh_frame _ _ _ _ Hr) as (Hh & _).
    assert (Lake.fetchBlockWithRetry (currentHeight s0) (block_reply env)
            = ([FetchBlock (currentHeight s); Sleep 1000;
                FetchBlock (currentHeight s); Sleep 2000;
                FetchBlock (currentHeight s)], Normal JNull)) as Hfetch.
    { unfold Lake.fetchBlockWithRetry, Lake.MAX_RETRIES in *.
      cbn [seq Lake.retry_loop]. rewrite !FetchFacts.fetchBlock_outcome.
      rewrite !Hnone by lia. rewrite Hh. reflexivity. }
    destruct (LoopFacts.iteration_missing env s s0 t0 _ Hr Htip Hfetch)
      as (s' & Hit & Hc & Hck & Hm & Hp & _).
    by exists s'.
  - intros Hr Hnone.
    destruct (LoopFacts.refresh_frame_single _ _ _ _ Hr) as (Hh & _).
    assert (LakeSrc.fetchBlockWithRetry (currentHeight s0) (block_reply env)
            = ([FetchBlock (currentHeight s)], Normal JNull)) as Hfetch.
    { unfold LakeSrc.fetchBlockWithRetry, LakeSrc.MAX_RETRIES.
      cbn [seq LakeSrc.retry_loop].
      rewrite !FetchFacts.fetchBlock_outcome_single, Hnone, Hh.
      reflexivity. }
    destruct (LoopFacts.iteration_missing_single env s s0 t0 _ Hr Htip
                Hfetch) as (s' & Hit & Hc & Hck & Hm & Hp & _).
    by exists s'.
Qed.

(** X28. Bodies at the edge of [fetchBlock].  In the revision with
    catch-up polling a body of fewer than two characters is no data,
    whatever [JSON.parse] would make of it; a longer body that parses to
    a falsy value is returned as it is, so that [null] counts as no data
    while [false], [0] and the empty string count as data.  In both revisions a
    body that cannot be read, like a request that fails, raises: only the
    retry loop catches it. *)
Theorem fetchBlock_edge_bodies (height : Z) :
  (∀ text : string,
     (String.length text < 2)%nat →
     Lake.fetchBlock height (Response 200 (Normal text))
     = ([FetchBlock height], Normal JNull))
  ∧ (∀ (text : string) (data : json),
       (2 ≤ String.length text)%nat →
       JSON_parse text = Some data →
       JS.truthy data = false →
       Lake.fetchBlock height (Response 200 (Normal text))
       = ([FetchBlock height], Normal data))
  ∧ (∀ e : string,
       Lake.fetchBlock height (Response 200 (Throw e))
       = ([FetchBlock height], Throw e)
       ∧ LakeSrc.fetchBlock height (Response 200 (Throw e))
         = ([FetchBlock height], Throw e)
       ∧ Lake.fetchBlock height (NetworkError e)
         = ([FetchBlock height], Throw e)
       ∧ LakeSrc.fetchBlock height (NetworkError e)
         = ([FetchBlock height], Throw e)).
Proof.
  unfold Lake.fetchBlock, LakeSrc.fetchBlock. split_and!.
  - intros text Hlen. simpl.
    destruct text as [|a [|b text]]; simpl in *; [done | done | lia].
  - intros text data Hlen Hp Hf. simpl.
    destruct text as [|a [|b text]]; simpl in Hlen; [lia | lia |].
    cbn [String.eqb String.length Nat.ltb Nat.leb orb].
    rewrite Hp. unfold Lake.error_set. by rewrite Hf.
  - done.
Qed.

End requests.

Lemma iteration_requests_witness :
  Lake.count_fetches (fst (@Lake.iteration Demo.host Demo.env_missing
                             Demo.behind)) = 3%nat
  ∧ (Lake.count_fetches (fst (@LakeSrc.iteration Demo.host Demo.env_missing
                                Demo.fresh))
     + Run.count_tips (fst (@LakeSrc.iteration Demo.host Demo.env_missing
                              Demo.fresh)) ≤ 4)%nat.
Proof.
  destruct (@iteration_requests Demo.host Demo.env_missing Demo.fresh)
    as [_ (_ & _ & Hall)].
  split; [reflexivity | exact Hall].
Defined.

Lemma refused_block_given_up_witness :
  (∃ s', @Lake.iteration Demo.host Demo.env_missing Demo.behind
         = ([Net.FetchBlock 100; Net.Sleep 1000; Net.FetchBlock 100;
             Net.Sleep 2000; Net.FetchBlock 100], s')
     ∧ Net.currentHeight s' = 101)
  ∧ (∃ s', @LakeSrc.iteration Demo.host Demo.env_missing Demo.behind
           = ([Net.FetchBlock 100], s')
       ∧ Net.currentHeight s' = 101).
Proof.
  destruct (@refused_block_given_up Demo.host Demo.env_missing Demo.behind
              Demo.behind [] ltac:(simpl; lia)) as [Hc Hs].
  split.
  - destruct (Hc eq_refl (λ _ _, eq_refl)) as (s' & Hit & Hh & _).
    exists s'. split; [exact Hit | exact Hh].
  - destruct (Hs eq_refl eq_refl) as (s' & Hit & Hh & _).
    exists s'. split; [exact Hit | exact Hh].
Defined.

Lemma fetchBlock_edge_bodies_witness :
  @Lake.fetchBlock Demo.host 7 (Net.Response 200 (Normal "1"))
  = ([Net.FetchBlock 7], Normal JNull)
  ∧ @Lake.fetchBlock Demo.host 7 (Net.Response 200 (Normal "null"))
    = ([Net.FetchBlock 7], Normal JNull)
  ∧ @Lake.fetchBlock Demo.host 7 (Net.Response 200 (Normal "false"))
    = ([Net.FetchBlock 7], Normal (JBool false)).
Proof.
  destruct (@fetchBlock_edge_bodies Demo.host 7) as (Hshort & Hfalsy & _).
  split_and!.
  - apply Hshort. simpl. lia.
  - apply Hfalsy; [simpl; lia | reflexivity | reflexivity].
  - apply Hfalsy; [simpl; lia | reflexivity | reflexivity].
Defined.

End RequestFacts.
